(** * franka_gazebo: the simulated hardware interface [FrankaHWSim]

    A shallow embedding of [franka_gazebo/src/franka_hw_sim.cpp] and the
    properties of its initialisation, state-synthesis and command-writing
    paths.

    Conventions of the embedding:
    - a C++ [double] is a binary64 value of [PrimFloat.float]; [std::isnan],
      [std::abs], [+], [-] and [>] are the IEEE operations;
    - [std::string] is [String.string]; [std::array<double, N>] and
      [std::vector<double>] are [list float] (an array holds [N] elements);
    - a member function is a computation in the monad [M]: it threads the
      whole object (and the two things it acts on, the ROS log and the forces
      applied in Gazebo) and ends by returning, by throwing a C++ exception
      or by a fault (null dereference, undefined behaviour, failed assert);
    - what the translation unit only declares or calls (ROS parameters, the
      KDL model, the members of [franka_gazebo::Joint] defined elsewhere) is
      gathered in the record [Env];
    - a [Matrix4d] or [Matrix3d] mapped on an array is stored column by
      column, as Eigen stores it by default. *)

From Stdlib Require Import ZArith List String Ascii Bool Lia Floats DecimalString DecimalNat
  Uint63.
Import ListNotations.

Set Warnings "-inexact-float".

Local Open Scope list_scope.
Local Open Scope string_scope.

(** ** Strings *)

(** [std::to_string] on a non-negative integer. *)
Definition to_string (n : nat) : string := NilZero.string_of_uint (Nat.to_uint n).

Fixpoint string_drop (n : nat) (s : string) : string :=
  match n, s with
  | O, _ => s
  | S n', String _ s' => string_drop n' s'
  | S _, EmptyString => EmptyString
  end.

(** [s.rfind(str, pos)]: the last position [i <= pos] at which [str] occurs in
    [s]; [None] is [std::string::npos]. *)
Fixpoint rfind_from (s str : string) (i : nat) : option nat :=
  if String.prefix str (string_drop i s) then Some i
  else match i with
       | O => None
       | S i' => rfind_from s str i'
       end.

Definition rfind (s str : string) (pos : nat) : option nat :=
  if (String.length s <? String.length str)%nat then None
  else rfind_from s str (Nat.min pos (String.length s - String.length str)).

(** [hay.find(needle) != npos] *)
Fixpoint contains (needle hay : string) : bool :=
  String.prefix needle hay
  || match hay with
     | EmptyString => false
     | String _ hay' => contains needle hay'
     end.

(** ** Exceptions, faults and outcomes *)

Inductive exn : Type :=
| invalid_argument (what : string)
| out_of_range (what : string)
| HardwareInterfaceException (what : string).

Inductive fault : Type :=
| null_dereference
| undefined_behaviour
| assertion_failed.

Inductive outcome (A : Type) : Type :=
| Ret (a : A)
| Throw (e : exn)
| Fault (f : fault).
Arguments Ret {A} a.
Arguments Throw {A} e.
Arguments Fault {A} f.

(** [s.substr(pos)]: throws when [pos] is past the end. *)
Definition substr (s : string) (pos : nat) : outcome string :=
  if (String.length s <? pos)%nat then Throw (out_of_range "basic_string::substr")
  else Ret (string_drop pos s).

(** ** [std::stoi]

    As [strtol] in base 10: leading white space is skipped, a sign is
    optional, then the longest run of digits is read and whatever follows is
    ignored.  No digit: [std::invalid_argument]; a value that does not fit an
    [int]: [std::out_of_range]. *)

Definition isspace (c : ascii) : bool :=
  let n := nat_of_ascii c in
  ((n =? 32) || ((9 <=? n) && (n <=? 13)))%nat.

Fixpoint skip_spaces (s : string) : string :=
  match s with
  | String c s' => if isspace c then skip_spaces s' else s
  | EmptyString => s
  end.

Definition digit_of (c : ascii) : option Z :=
  let n := Z.of_nat (nat_of_ascii c) in
  if ((48 <=? n) && (n <=? 57))%Z then Some (n - 48)%Z else None.

Fixpoint read_digits (s : string) (acc : Z) : Z :=
  match s with
  | String c s' =>
      match digit_of c with
      | Some d => read_digits s' (10 * acc + d)%Z
      | None => acc
      end
  | EmptyString => acc
  end.

Definition starts_with_digit (s : string) : bool :=
  match s with
  | String c _ => match digit_of c with Some _ => true | None => false end
  | EmptyString => false
  end.

Definition INT_MIN : Z := (- 2 ^ 31)%Z.
Definition INT_MAX : Z := (2 ^ 31 - 1)%Z.

Definition stoi (s : string) : outcome Z :=
  let s1 := skip_spaces s in
  let '(neg, s2) :=
    match s1 with
    | String "-"%char r => (true, r)
    | String "+"%char r => (false, r)
    | _ => (false, s1)
    end in
  if starts_with_digit s2 then
    let v := read_digits s2 0%Z in
    let v := if neg then (- v)%Z else v in
    if ((INT_MIN <=? v) && (v <=? INT_MAX))%Z then Ret v
    else Throw (out_of_range "stoi")
  else Throw (invalid_argument "stoi").

(** [int] subtraction; an overflow (undefined in C++) wraps around. *)
Definition int_sub (a b : Z) : Z :=
  ((a - b - INT_MIN) mod 2 ^ 32 + INT_MIN)%Z.

(** ** Arrays *)

(** [a.at(i)] on a [std::array<double, N>] or a vector holding [N] elements;
    the [int] index is converted to [size_type], so a negative one is out of
    range as well. *)
Definition array_at (N : nat) (a : list float) (i : Z) : outcome float :=
  if ((0 <=? i) && (i <? Z.of_nat N))%Z then Ret (nth (Z.to_nat i) a 0%float)
  else Throw (out_of_range "array::at").

Definition vector_at (a : list float) (i : nat) : outcome float :=
  match nth_error a i with
  | Some v => Ret v
  | None => Throw (out_of_range "vector::_M_range_check")
  end.

(** [a[i] = v]; every use in the source has [i] below the size of [a]. *)
Fixpoint array_set (i : nat) (v : float) (a : list float) : list float :=
  match a, i with
  | [], _ => []
  | _ :: t, O => v :: t
  | x :: t, S i' => x :: array_set i' v t
  end.

(** [v.push_back(x)] *)
Definition push_back {A} (l : list A) (x : A) : list A := (l ++ [x])%list.

(** [static_cast<double>(b)] *)
Definition double_of_bool (b : bool) : float := if b then 1%float else 0%float.

(** [static_cast<uint64_t>(d)] for a finite, non-negative [d] below [2^64]
    (the only values the source converts): truncation. *)
Definition uint64_of_double (d : float) : Z :=
  match Prim2SF d with
  | S754_finite false m e => Z.shiftl (Zpos m) e
  | _ => 0%Z
  end.

(** ** Time *)

(** A [ros::Time] is given by its [toNSec()], which is below [2^63];
    a [franka::Duration] by its count of milliseconds. *)
Definition Time : Type := Z.
Definition Duration : Type := Z.
Definition ros_Duration : Type := Z.

(** [franka::Duration(time.toNSec() / 1e6)] *)
Definition franka_Duration (toNSec : Z) : Duration :=
  uint64_of_double (PrimFloat.of_uint63 (Uint63.of_Z toNSec) / 1000000)%float.

(** ** The descriptions read at initialisation *)

Module JointInfo.
Record t : Type := mk {
  name_ : string;
  hardware_interfaces_ : list string;
  role_ : string
}.
End JointInfo.

Module TransmissionInfo.
Record t : Type := mk {
  name_ : string;
  type_ : string;
  joints_ : list JointInfo.t
}.
End TransmissionInfo.

Module urdf.
Record Joint : Type := mkJoint {
  type : Z;
  axis : float * float * float;
  parent_link_name : string;
  child_link_name : string
}.
(** [urdf::Model], by its joints. *)
Definition Model : Type := list (string * Joint).
Fixpoint getJoint (m : Model) (name : string) : option Joint :=
  match m with
  | [] => None
  | (k, j) :: m' => if String.eqb k name then Some j else getJoint m' name
  end.
End urdf.

(** A [gazebo::physics::JointPtr] is an address; the Gazebo model
    ([gazebo::physics::ModelPtr]) is given by the joints it holds. *)
Definition JointPtr : Type := nat.
Definition ModelPtr : Type := list (string * JointPtr).

Fixpoint GetJoint (parent : ModelPtr) (name : string) : option JointPtr :=
  match parent with
  | [] => None
  | (k, h) :: parent' => if String.eqb k name then Some h else GetJoint parent' name
  end.

(** ** Joint records *)

(** [franka_gazebo::Joint], by the members this translation unit reads and
    writes; the struct is declared in a header of its own. *)
#[projections(primitive)]
Record Joint : Type := mkJoint {
  name : string;
  type : Z;
  axis : float * float * float;
  handle : JointPtr;
  position : float;
  velocity : float;
  effort : float;
  command : float;
  acceleration : float;
  jerk : float;
  contact_threshold : float;
  collision_threshold : float
}.

Definition set_command (v : float) (j : Joint) : Joint :=
  let '(mkJoint a b c d e f g _ i k l m) := j in mkJoint a b c d e f g v i k l m.
Definition set_contact_threshold (v : float) (j : Joint) : Joint :=
  let '(mkJoint a b c d e f g h i k _ m) := j in mkJoint a b c d e f g h i k v m.
Definition set_collision_threshold (v : float) (j : Joint) : Joint :=
  let '(mkJoint a b c d e f g h i k l _) := j in mkJoint a b c d e f g h i k l v.

(** Modelled from the spec: [Joint::isInContact] and [Joint::isInCollision]
    are defined outside this translation unit.  "A joint is in contact when
    the magnitude of (effort - last commanded effort) exceeds
    contact_threshold, and in collision when it exceeds collision_threshold." *)
Definition isInContact (j : Joint) : bool :=
  (contact_threshold j <? PrimFloat.abs (effort j - command j))%float.
Definition isInCollision (j : Joint) : bool :=
  (collision_threshold j <? PrimFloat.abs (effort j - command j))%float.

(** ** The joint map

    [joints_] maps a joint name to a shared pointer, which may be null
    ([None]).  As a [std::map] it is kept in key order, the order in which it
    is iterated; the properties of the command writer hold for every order. *)
Definition JointMap : Type := list (string * option Joint).

Fixpoint map_find (k : string) (m : JointMap) : option (option Joint) :=
  match m with
  | [] => None
  | (k', v) :: m' => if String.eqb k' k then Some v else map_find k m'
  end.

(** [m.emplace(k, v)]: nothing happens when the key is already there. *)
Fixpoint map_emplace (k : string) (v : option Joint) (m : JointMap) : JointMap :=
  match m with
  | [] => [(k, v)]
  | (k', v') :: m' =>
      match String.compare k k' with
      | Lt => (k, v) :: m
      | Eq => m
      | Gt => (k', v') :: map_emplace k v m'
      end
  end.

(** Assignment through the pointer stored under [k]. *)
Fixpoint map_store (k : string) (j : Joint) (m : JointMap) : JointMap :=
  match m with
  | [] => []
  | (k', v') :: m' =>
      if String.eqb k' k then (k', Some j) :: m' else (k', v') :: map_store k j m'
  end.

(** ** Robot state *)

#[projections(primitive)]
Record RobotState : Type := mkRobotState {
  q : list float;
  dq : list float;
  tau_J : list float;
  dtau_J : list float;
  q_d : list float;
  dq_d : list float;
  ddq_d : list float;
  tau_J_d : list float;
  theta : list float;
  dtheta : list float;
  tau_ext_hat_filtered : list float;
  joint_contact : list float;
  joint_collision : list float;
  m_ee : float;
  m_load : float;
  m_total : float;
  I_ee : list float;
  I_load : list float;
  I_total : list float;
  F_x_Cload : list float;
  F_T_NE : list float;
  NE_T_EE : list float;
  EE_T_K : list float;
  F_T_EE : list float;
  O_T_EE : list float;
  control_command_success_rate : float;
  time : Duration
}.

Definition set_q (v : list float) (rs : RobotState) : RobotState :=
  let '(mkRobotState _ b c d e f g h i j k l m n o p q0 r0 s0 t0 u0 v0 w0 x0 y0 z0 a1) := rs in
  mkRobotState v b c d e f g h i j k l m n o p q0 r0 s0 t0 u0 v0 w0 x0 y0 z0 a1.
Definition set_dq (v : list float) (rs : RobotState) : RobotState :=
  let '(mkRobotState a _ c d e f g h i j k l m n o p q0 r0 s0 t0 u0 v0 w0 x0 y0 z0 a1) := rs in
  mkRobotState a v c d e f g h i j k l m n o p q0 r0 s0 t0 u0 v0 w0 x0 y0 z0 a1.
Definition set_tau_J (v : list float) (rs : RobotState) : RobotState :=
  let '(mkRobotState a b _ d e f g h i j k l m n o p q0 r0 s0 t0 u0 v0 w0 x0 y0 z0 a1) := rs in
  mkRobotState a b v d e f g h i j k l m n o p q0 r0 s0 t0 u0 v0 w0 x0 y0 z0 a1.
Definition set_dtau_J (v : list float) (rs : RobotState) : RobotState :=
  let '(mkRobotState a b c _ e f g h i j k l m n o p q0 r0 s0 t0 u0 v0 w0 x0 y0 z0 a1) := rs in
  mkRobotState a b c v e f g h i j k l m n o p q0 r0 s0 t0 u0 v0 w0 x0 y0 z0 a1.
Definition set_q_d (v : list float) (rs : RobotState) : RobotState :=
  let '(mkRobotState a b c d _ f g h i j k l m n o p q0 r0 s0 t0 u0 v0 w0 x0 y0 z0 a1) := rs in
  mkRobotState a b c d v f g h i j k l m n o p q0 r0 s0 t0 u0 v0 w0 x0 y0 z0 a1.
Definition set_dq_d (v : list float) (rs : RobotState) : RobotState :=
  let '(mkRobotState a b c d e _ g h i j k l m n o p q0 r0 s0 t0 u0 v0 w0 x0 y0 z0 a1) := rs in
  mkRobotState a b c d e v g h i j k l m n o p q0 r0 s0 t0 u0 v0 w0 x0 y0 z0 a1.
Definition set_ddq_d (v : list float) (rs : RobotState) : RobotState :=
  let '(mkRobotState a b c d e f _ h i j k l m n o p q0 r0 s0 t0 u0 v0 w0 x0 y0 z0 a1) := rs in
  mkRobotState a b c d e f v h i j k l m n o p q0 r0 s0 t0 u0 v0 w0 x0 y0 z0 a1.
Definition set_tau_J_d (v : list float) (rs : RobotState) : RobotState :=
  let '(mkRobotState a b c d e f g _ i j k l m n o p q0 r0 s0 t0 u0 v0 w0 x0 y0 z0 a1) := rs in
  mkRobotState a b c d e f g v i j k l m n o p q0 r0 s0 t0 u0 v0 w0 x0 y0 z0 a1.
Definition set_theta (v : list float) (rs : RobotState) : RobotState :=
  let '(mkRobotState a b c d e f g h _ j k l m n o p q0 r0 s0 t0 u0 v0 w0 x0 y0 z0 a1) := rs in
  mkRobotState a b c d e f g h v j k l m n o p q0 r0 s0 t0 u0 v0 w0 x0 y0 z0 a1.
Definition set_dtheta (v : list float) (rs : RobotState) : RobotState :=
  let '(mkRobotState a b c d e f g h i _ k l m n o p q0 r0 s0 t0 u0 v0 w0 x0 y0 z0 a1) := rs in
  mkRobotState a b c d e f g h i v k l m n o p q0 r0 s0 t0 u0 v0 w0 x0 y0 z0 a1.
Definition set_tau_ext_hat_filtered (v : list float) (rs : RobotState) : RobotState :=
  let '(mkRobotState a b c d e f g h i j _ l m n o p q0 r0 s0 t0 u0 v0 w0 x0 y0 z0 a1) := rs in
  mkRobotState a b c d e f g h i j v l m n o p q0 r0 s0 t0 u0 v0 w0 x0 y0 z0 a1.
Definition set_joint_contact (v : list float) (rs : RobotState) : RobotState :=
  let '(mkRobotState a b c d e f g h i j k _ m n o p q0 r0 s0 t0 u0 v0 w0 x0 y0 z0 a1) := rs in
  mkRobotState a b c d e f g h i j k v m n o p q0 r0 s0 t0 u0 v0 w0 x0 y0 z0 a1.
Definition set_joint_collision (v : list float) (rs : RobotState) : RobotState :=
  let '(mkRobotState a b c d e f g h i j k l _ n o p q0 r0 s0 t0 u0 v0 w0 x0 y0 z0 a1) := rs in
  mkRobotState a b c d e f g h i j k l v n o p q0 r0 s0 t0 u0 v0 w0 x0 y0 z0 a1.
Definition set_m_ee (v : float) (rs : RobotState) : RobotState :=
  let '(mkRobotState a b c d e f g h i j k l m _ o p q0 r0 s0 t0 u0 v0 w0 x0 y0 z0 a1) := rs in
  mkRobotState a b c d e f g h i j k l m v o p q0 r0 s0 t0 u0 v0 w0 x0 y0 z0 a1.
Definition set_m_load (v : float) (rs : RobotState) : RobotState :=
  let '(mkRobotState a b c d e f g h i j k l m n _ p q0 r0 s0 t0 u0 v0 w0 x0 y0 z0 a1) := rs in
  mkRobotState a b c d e f g h i j k l m n v p q0 r0 s0 t0 u0 v0 w0 x0 y0 z0 a1.
Definition set_m_total (v : float) (rs : RobotState) : RobotState :=
  let '(mkRobotState a b c d e f g h i j k l m n o _ q0 r0 s0 t0 u0 v0 w0 x0 y0 z0 a1) := rs in
  mkRobotState a b c d e f g h i j k l m n o v q0 r0 s0 t0 u0 v0 w0 x0 y0 z0 a1.
Definition set_I_ee (v : list float) (rs : RobotState) : RobotState :=
  let '(mkRobotState a b c d e f g h i j k l m n o p _ r0 s0 t0 u0 v0 w0 x0 y0 z0 a1) := rs in
  mkRobotState a b c d e f g h i j k l m n o p v r0 s0 t0 u0 v0 w0 x0 y0 z0 a1.
Definition set_I_load (v : list float) (rs : RobotState) : RobotState :=
  let '(mkRobotState a b c d e f g h i j k l m n o p q0 _ s0 t0 u0 v0 w0 x0 y0 z0 a1) := rs in
  mkRobotState a b c d e f g h i j k l m n o p q0 v s0 t0 u0 v0 w0 x0 y0 z0 a1.
Definition set_I_total (v : list float) (rs : RobotState) : RobotState :=
  let '(mkRobotState a b c d e f g h i j k l m n o p q0 r0 _ t0 u0 v0 w0 x0 y0 z0 a1) := rs in
  mkRobotState a b c d e f g h i j k l m n o p q0 r0 v t0 u0 v0 w0 x0 y0 z0 a1.
Definition set_F_x_Cload (v : list float) (rs : RobotState) : RobotState :=
  let '(mkRobotState a b c d e f g h i j k l m n o p q0 r0 s0 _ u0 v0 w0 x0 y0 z0 a1) := rs in
  mkRobotState a b c d e f g h i j k l m n o p q0 r0 s0 v u0 v0 w0 x0 y0 z0 a1.
Definition set_F_T_NE (v : list float) (rs : RobotState) : RobotState :=
  let '(mkRobotState a b c d e f g h i j k l m n o p q0 r0 s0 t0 _ v0 w0 x0 y0 z0 a1) := rs in
  mkRobotState a b c d e f g h i j k l m n o p q0 r0 s0 t0 v v0 w0 x0 y0 z0 a1.
Definition set_NE_T_EE (v : list float) (rs : RobotState) : RobotState :=
  let '(mkRobotState a b c d e f g h i j k l m n o p q0 r0 s0 t0 u0 _ w0 x0 y0 z0 a1) := rs in
  mkRobotState a b c d e f g h i j k l m n o p q0 r0 s0 t0 u0 v w0 x0 y0 z0 a1.
Definition set_EE_T_K (v : list float) (rs : RobotState) : RobotState :=
  let '(mkRobotState a b c d e f g h i j k l m n o p q0 r0 s0 t0 u0 v0 _ x0 y0 z0 a1) := rs in
  mkRobotState a b c d e f g h i j k l m n o p q0 r0 s0 t0 u0 v0 v x0 y0 z0 a1.
Definition set_F_T_EE (v : list float) (rs : RobotState) : RobotState :=
  let '(mkRobotState a b c d e f g h i j k l m n o p q0 r0 s0 t0 u0 v0 w0 _ y0 z0 a1) := rs in
  mkRobotState a b c d e f g h i j k l m n o p q0 r0 s0 t0 u0 v0 w0 v y0 z0 a1.
Definition set_O_T_EE (v : list float) (rs : RobotState) : RobotState :=
  let '(mkRobotState a b c d e f g h i j k l m n o p q0 r0 s0 t0 u0 v0 w0 x0 _ z0 a1) := rs in
  mkRobotState a b c d e f g h i j k l m n o p q0 r0 s0 t0 u0 v0 w0 x0 v z0 a1.
Definition set_control_command_success_rate (v : float) (rs : RobotState) : RobotState :=
  let '(mkRobotState a b c d e f g h i j k l m n o p q0 r0 s0 t0 u0 v0 w0 x0 y0 _ a1) := rs in
  mkRobotState a b c d e f g h i j k l m n o p q0 r0 s0 t0 u0 v0 w0 x0 y0 v a1.
Definition set_time (v : Duration) (rs : RobotState) : RobotState :=
  let '(mkRobotState a b c d e f g h i j k l m n o p q0 r0 s0 t0 u0 v0 w0 x0 y0 z0 _) := rs in
  mkRobotState a b c d e f g h i j k l m n o p q0 r0 s0 t0 u0 v0 w0 x0 y0 z0 v.

(** ** Matrices *)

(** The coefficient in row [i] and column [j] of a 4x4 matrix stored column
    by column. *)
Definition Matrix4d_coeff (A : list float) (i j : nat) : float :=
  nth (i + 4 * j) A 0%float.

(** Modelled from the spec: the product is Eigen's [operator*] on two
    [Matrix4d], defined outside this translation unit.  "F_T_EE = F_T_NE .
    NE_T_EE (matrix product, NE_T_EE composed on the right)": the coefficient
    in row [i] and column [j] of [A * B] is the sum over [k] of
    [A(i, k) * B(k, j)]. *)
Definition Matrix4d_mul (A B : list float) : list float :=
  map (fun n =>
         let i := (n mod 4)%nat in
         let j := (n / 4)%nat in
         (Matrix4d_coeff A i 0 * Matrix4d_coeff B 0 j
          + Matrix4d_coeff A i 1 * Matrix4d_coeff B 1 j
          + Matrix4d_coeff A i 2 * Matrix4d_coeff B 2 j
          + Matrix4d_coeff A i 3 * Matrix4d_coeff B 3 j)%float)
      (seq 0 16).

(** The square of the length of a 3-vector. *)
Definition squaredNorm (p : list float) : float :=
  (nth 0 p 0 * nth 0 p 0 + nth 1 p 0 * nth 1 p 0 + nth 2 p 0 * nth 2 p 0)%float.

(** Modelled from the spec: [shiftInertiaTensor(I, m, p)] is defined in the
    header of the class, outside this translation unit.  "I_total = I_ee
    shifted by the parallel-axis theorem using m_ee and F_x_Cload": the
    inertia tensor [I] of a body of mass [m], referred to a point at the
    offset [p] from the centre of mass, is [I + m (|p|^2 1 - p p^T)]. *)
Definition shiftInertiaTensor (I : list float) (m : float) (p : list float) : list float :=
  map (fun n =>
         let i := (n / 3)%nat in
         let j := (n mod 3)%nat in
         (nth n I 0
          + m * ((if (i =? j)%nat then squaredNorm p else 0) - nth i p 0 * nth j p 0))%float)
      (seq 0 9).

(** ** What the translation unit takes from elsewhere *)

Record Env : Type := mkEnv {
  (** [franka_gazebo::ModelKDL]: construction from a URDF, a root and a tip
      link ([inl what] when it throws [std::invalid_argument]), and its two
      queries. *)
  ModelKDL : Type;
  ModelKDL_new : urdf.Model -> string -> string -> string + ModelKDL;
  gravity : ModelKDL -> RobotState -> list float;
  pose_kEndEffector : ModelKDL -> RobotState -> list float;
  (** A value-initialised [franka_gazebo::Joint], and [Joint::update]. *)
  Joint_new : Joint;
  Joint_update : ros_Duration -> Joint -> Joint;
  (** [nh.param<T>(key, value, default)] *)
  param_string : string -> string -> string;
  param_double : string -> float -> float;
  (** [readArray<N>(values, name)]; [inl what] when it throws
      [std::invalid_argument]. *)
  readArray : nat -> string -> string -> string + list float;
  (** [franka_hw::FrankaHW::getCollisionThresholds(name, nh, defaults)] *)
  getCollisionThresholds : string -> list float -> list float;
  (** [physics->GetType()] *)
  physics_type : string
}.

Inductive severity : Type := Debug | Info | Warn | Error.

Section FrankaHWSim.

Context (E : Env).

(** The object, together with the ROS log and the [SetForce] calls received
    by Gazebo (joint, axis index, force), both in the order they happen. *)
#[projections(primitive)]
Record FrankaHWSim : Type := mkFrankaHWSim {
  arm_id_ : string;
  robot_ : ModelPtr;
  joints_ : JointMap;
  robot_state_ : RobotState;
  model_ : option (ModelKDL E);
  eji_ : list string;
  jsi_ : list string;
  fsi_ : list string;
  fmi_ : list string;
  interfaces_ : list string;
  rosout : list (severity * string);
  gazebo_forces : list (JointPtr * nat * float)
}.

Definition set_arm_id_ (v : string) (s : FrankaHWSim) : FrankaHWSim :=
  let '(mkFrankaHWSim _ b c d e f g h i j k l) := s in mkFrankaHWSim v b c d e f g h i j k l.
Definition set_robot_ (v : ModelPtr) (s : FrankaHWSim) : FrankaHWSim :=
  let '(mkFrankaHWSim a _ c d e f g h i j k l) := s in mkFrankaHWSim a v c d e f g h i j k l.
Definition set_joints_ (v : JointMap) (s : FrankaHWSim) : FrankaHWSim :=
  let '(mkFrankaHWSim a b _ d e f g h i j k l) := s in mkFrankaHWSim a b v d e f g h i j k l.
Definition set_robot_state_ (v : RobotState) (s : FrankaHWSim) : FrankaHWSim :=
  let '(mkFrankaHWSim a b c _ e f g h i j k l) := s in mkFrankaHWSim a b c v e f g h i j k l.
Definition set_model_ (v : option (ModelKDL E)) (s : FrankaHWSim) : FrankaHWSim :=
  let '(mkFrankaHWSim a b c d _ f g h i j k l) := s in mkFrankaHWSim a b c d v f g h i j k l.
Definition set_eji_ (v : list string) (s : FrankaHWSim) : FrankaHWSim :=
  let '(mkFrankaHWSim a b c d e _ g h i j k l) := s in mkFrankaHWSim a b c d e v g h i j k l.
Definition set_jsi_ (v : list string) (s : FrankaHWSim) : FrankaHWSim :=
  let '(mkFrankaHWSim a b c d e f _ h i j k l) := s in mkFrankaHWSim a b c d e f v h i j k l.
Definition set_fsi_ (v : list string) (s : FrankaHWSim) : FrankaHWSim :=
  let '(mkFrankaHWSim a b c d e f g _ i j k l) := s in mkFrankaHWSim a b c d e f g v i j k l.
Definition set_fmi_ (v : list string) (s : FrankaHWSim) : FrankaHWSim :=
  let '(mkFrankaHWSim a b c d e f g h _ j k l) := s in mkFrankaHWSim a b c d e f g h v j k l.
Definition set_interfaces_ (v : list string) (s : FrankaHWSim) : FrankaHWSim :=
  let '(mkFrankaHWSim a b c d e f g h i _ k l) := s in mkFrankaHWSim a b c d e f g h i v k l.
Definition set_rosout (v : list (severity * string)) (s : FrankaHWSim) : FrankaHWSim :=
  let '(mkFrankaHWSim a b c d e f g h i j _ l) := s in mkFrankaHWSim a b c d e f g h i j v l.
Definition set_gazebo_forces (v : list (JointPtr * nat * float)) (s : FrankaHWSim)
  : FrankaHWSim :=
  let '(mkFrankaHWSim a b c d e f g h i j k _) := s in mkFrankaHWSim a b c d e f g h i j k v.

(** ** The monad of member functions *)

Definition M (A : Type) : Type := FrankaHWSim -> outcome A * FrankaHWSim.

Definition ret {A} (a : A) : M A := fun s => (Ret a, s).
Definition throw {A} (e : exn) : M A := fun s => (Throw e, s).
Definition abort {A} (f : fault) : M A := fun s => (Fault f, s).
Definition lift {A} (o : outcome A) : M A := fun s => (o, s).

Definition bind {A B} (m : M A) (k : A -> M B) : M B :=
  fun s =>
    match m s with
    | (Ret a, s') => k a s'
    | (Throw e, s') => (Throw e, s')
    | (Fault f, s') => (Fault f, s')
    end.

Definition get : M FrankaHWSim := fun s => (Ret s, s).
Definition modify (f : FrankaHWSim -> FrankaHWSim) : M unit := fun s => (Ret tt, f s).

(** [try { m } catch (const std::invalid_argument& e) { h e.what() }] *)
Definition catch_invalid_argument {A} (m : M A) (h : string -> M A) : M A :=
  fun s =>
    match m s with
    | (Throw (invalid_argument what), s') => h what s'
    | r => r
    end.

(** [p->...] on a pointer that may be null. *)
Definition deref {A} (p : option A) : M A :=
  match p with
  | Some a => ret a
  | None => abort null_dereference
  end.

Definition assert (b : bool) : M unit :=
  if b then ret tt else abort assertion_failed.

Notation "x <- m ;; k" := (bind m (fun x => k))
  (at level 61, m at next level, right associativity).
Notation "m ;; k" := (bind m (fun _ => k))
  (at level 61, right associativity).

(** A loop whose body may leave the function with [return v] ([Some v]);
    [continue] ends the body with [None]. *)
Fixpoint for_each {A R} (l : list A) (body : A -> M (option R)) : M (option R) :=
  match l with
  | [] => ret None
  | x :: l' =>
      r <- body x ;;
      match r with
      | Some v => ret (Some v)
      | None => for_each l' body
      end
  end.

(** A loop without [return]. *)
Fixpoint for_each_ {A} (l : list A) (body : A -> M unit) : M unit :=
  match l with
  | [] => ret tt
  | x :: l' => body x ;; for_each_ l' body
  end.

Definition ROS_LOG (sev : severity) (msg : string) : M unit :=
  modify (fun s => set_rosout (push_back (rosout s) (sev, msg)) s).

(** [handle->SetForce(index, force)] *)
Definition SetForce (h : JointPtr) (index : nat) (force : float) : M unit :=
  modify (fun s => set_gazebo_forces (push_back (gazebo_forces s) (h, index, force)) s).

Definition modify_robot_state (f : RobotState -> RobotState) : M unit :=
  modify (fun s => set_robot_state_ (f (robot_state_ s)) s).

(** [this->joints_.at(name)] *)
Definition joints_at (k : string) : M (option Joint) :=
  s <- get ;;
  match map_find k (joints_ s) with
  | Some p => ret p
  | None => throw (out_of_range "map::at")
  end.

(** [this->joints_[name]]: a missing key is inserted with a null pointer. *)
Definition joints_index (k : string) : M (option Joint) :=
  s <- get ;;
  match map_find k (joints_ s) with
  | Some p => ret p
  | None => modify (fun s => set_joints_ (map_emplace k None (joints_ s)) s) ;; ret None
  end.

(** ** [FrankaHWSim::writeSim] *)

(** The command of one joint after the gravity compensation, which
    applies to the joints named after the arm. *)
Definition effective_command (arm_id : string) (g : list float) (key : string)
    (command : float) : outcome float :=
  let prefix := arm_id ++ "_joint" in
  match rfind key prefix 0 with
  | Some _ =>
      match substr key (String.length prefix) with
      | Ret suffix =>
          match stoi suffix with
          | Ret n =>
              let i := int_sub n 1 in
              match array_at 7 g i with
              | Ret gi => Ret (command + gi)%float
              | Throw e => Throw e
              | Fault f => Fault f
              end
          | Throw e => Throw e
          | Fault f => Fault f
          end
      | Throw e => Throw e
      | Fault f => Fault f
      end
  | None => Ret command
  end.

(** The body of the loop over [joints_]. *)
Definition writeSim_joint (g : list float) (pair : string * option Joint) : M unit :=
  joint <- deref (snd pair) ;;
  s <- get ;;
  command <- lift (effective_command (arm_id_ s) g (fst pair) (command joint)) ;;
  if PrimFloat.is_nan command then
    ROS_LOG Warn ("Command for " ++ name joint ++ "is NaN, won't send to robot")
  else
    SetForce (handle joint) 0 command.

Definition writeSim (_ : Time) (_ : ros_Duration) : M unit :=
  s <- get ;;
  model <- deref (model_ s) ;;
  let g := gravity E model (robot_state_ s) in
  for_each_ (joints_ s) (writeSim_joint g).

(** ** [FrankaHWSim::initSim] and its helpers *)

Definition SimpleTransmission : string := "transmission_interface/SimpleTransmission".
Definition EffortJointInterface : string := "hardware_interface/EffortJointInterface".
Definition FrankaStateInterface : string := "franka_hw/FrankaStateInterface".
Definition FrankaModelInterface : string := "franka_hw/FrankaModelInterface".

(** The body of the first loop of [initSim]: "Generate a list of
    franka_gazebo::Joint to store all relevant information". *)
Definition collectJoint (parent : ModelPtr) (urdf : option urdf.Model)
    (transmission : TransmissionInfo.t) : M (option bool) :=
  if negb (TransmissionInfo.type_ transmission =? SimpleTransmission) then ret None
  else
    match TransmissionInfo.joints_ transmission with
    | [] =>
        ROS_LOG Warn ("Transmission " ++ TransmissionInfo.name_ transmission
                      ++ " has no associated joints.") ;;
        ret (Some false)
    | joint0 :: _ =>
        if (1 <? List.length (TransmissionInfo.joints_ transmission))%nat then
          ROS_LOG Warn ("Transmission " ++ TransmissionInfo.name_ transmission
                        ++ " has more than one joint. Currently the franka robot hardware simulation "
                        ++ " interface only supports one.") ;;
          ret (Some false)
        else
          let joint_name := JointInfo.name_ joint0 in
          match urdf with
          | None =>
              ROS_LOG Error
                "Could not find any URDF model. Was it loaded on the parameter server?" ;;
              ret (Some false)
          | Some u =>
              match urdf.getJoint u joint_name with
              | None =>
                  ROS_LOG Error ("Could not get joint '" ++ joint_name ++ "' from URDF") ;;
                  ret (Some false)
              | Some urdf_joint =>
                  match GetJoint parent joint_name with
                  | None =>
                      ROS_LOG Error ("This robot has a joint named '" ++ joint_name
                                     ++ "' which is not in the gazebo model.") ;;
                      ret (Some false)
                  | Some h =>
                      let j0 := Joint_new E in
                      let joint :=
                        mkJoint joint_name (urdf.type urdf_joint) (urdf.axis urdf_joint) h
                          (position j0) (velocity j0) (effort j0) (command j0)
                          (acceleration j0) (jerk j0)
                          (contact_threshold j0) (collision_threshold j0) in
                      modify (fun s =>
                        set_joints_ (map_emplace (name joint) (Some joint) (joints_ s)) s) ;;
                      ret None
                  end
              end
          end
    end.

Definition initJointStateHandle (joint : option Joint) : M unit :=
  j <- deref joint ;;
  modify (fun s => set_jsi_ (push_back (jsi_ s) (name j)) s).

(** [jsi_.getHandle] throws when no handle of that name is registered. *)
Definition initEffortCommandHandle (joint : option Joint) : M unit :=
  j <- deref joint ;;
  s <- get ;;
  if existsb (String.eqb (name j)) (jsi_ s) then
    modify (fun s => set_eji_ (push_back (eji_ s) (name j)) s)
  else
    throw (HardwareInterfaceException
             ("Could not find resource '" ++ name j
              ++ "' in 'hardware_interface::JointStateInterface'.")).

Definition initFrankaStateHandle (robot : string) (urdf : urdf.Model)
    (transmission : TransmissionInfo.t) : M unit :=
  if negb (List.length (TransmissionInfo.joints_ transmission) =? 7)%nat then
    throw (invalid_argument
             ("Cannot create franka_hw/FrankaStateInterface for robot '" ++ robot
              ++ "_robot' because "
              ++ to_string (List.length (TransmissionInfo.joints_ transmission))
              ++ " joints were found beneath the <transmission> tag, but 7 are required."))
  else
    for_each_ (TransmissionInfo.joints_ transmission) (fun joint =>
      match urdf.getJoint urdf (JointInfo.name_ joint) with
      | None =>
          throw (invalid_argument
                   ("Cannot create franka_hw/FrankaStateInterface for robot '" ++ robot
                    ++ "_robot' because the specified joint '" ++ JointInfo.name_ joint
                    ++ "' in the <transmission> tag cannot be found in the URDF"))
      | Some _ =>
          ROS_LOG Debug ("Found joint " ++ JointInfo.name_ joint
                         ++ " to belong to a Panda robot")
      end) ;;
    modify (fun s => set_fsi_ (push_back (fsi_ s) (robot ++ "_robot")) s).

Definition has_role (role : string) (i : JointInfo.t) : bool :=
  JointInfo.role_ i =? role.

Definition initFrankaModelHandle (robot : string) (urdf : urdf.Model)
    (transmission : TransmissionInfo.t) : M unit :=
  if negb (List.length (TransmissionInfo.joints_ transmission) =? 2)%nat then
    throw (invalid_argument
             ("Cannot create franka_hw/FrankaModelInterface for robot '" ++ robot
              ++ "_model' because "
              ++ to_string (List.length (TransmissionInfo.joints_ transmission))
              ++ " joints were found beneath the <transmission> tag, but 2 are required."))
  else
    for_each_ (TransmissionInfo.joints_ transmission) (fun joint =>
      match urdf.getJoint urdf (JointInfo.name_ joint) with
      | None =>
          throw (invalid_argument
                   ("Cannot create franka_hw/FrankaModelInterface for robot '" ++ robot
                    ++ "_model' because the specified joint '" ++ JointInfo.name_ joint
                    ++ "' in the <transmission> tag cannot be found in the URDF"))
      | Some _ =>
          match find (has_role "root") (TransmissionInfo.joints_ transmission) with
          | None =>
              throw (invalid_argument
                       ("Cannot create franka_hw/FrankaModelInterface for robot '" ++ robot
                        ++ "_model' because no <joint> with <role>root</root> can be found "
                        ++ "in the <transmission>"))
          | Some root =>
              match find (has_role "tip") (TransmissionInfo.joints_ transmission) with
              | None =>
                  throw (invalid_argument
                           ("Cannot create franka_hw/FrankaModelInterface for robot '" ++ robot
                            ++ "_model' because no <joint> with <role>tip</role> can be found "
                            ++ "in the <transmission>"))
              | Some tip =>
                  catch_invalid_argument
                    (root_joint <- deref (urdf.getJoint urdf (JointInfo.name_ root)) ;;
                     let root_link := urdf.parent_link_name root_joint in
                     tip_joint <- deref (urdf.getJoint urdf (JointInfo.name_ tip)) ;;
                     let tip_link := urdf.child_link_name tip_joint in
                     match ModelKDL_new E urdf root_link tip_link with
                     | inl what => throw (invalid_argument what)
                     | inr model => modify (set_model_ (Some model))
                     end)
                    (fun what =>
                       throw (invalid_argument
                                ("Cannot create franka_hw/FrankaModelInterface for robot '"
                                 ++ robot ++ "_model'. " ++ what))) ;;
                  modify (fun s => set_fmi_ (push_back (fmi_ s) (robot ++ "_model")) s)
              end
          end
      end).

(** [transmission.joints_[0]]: undefined on an empty vector. *)
Definition joints_front (transmission : TransmissionInfo.t) : M JointInfo.t :=
  match TransmissionInfo.joints_ transmission with
  | joint0 :: _ => ret joint0
  | [] => abort undefined_behaviour
  end.

(** The body of the inner loop of "Register all supported command
    interfaces", for one [k_interface] of the first joint of a transmission. *)
Definition registerCommandInterface (urdf : option urdf.Model)
    (transmission : TransmissionInfo.t) (k_interface : string) : M (option bool) :=
  joint0 <- joints_front transmission ;;
  joint <- joints_index (JointInfo.name_ joint0) ;;
  continue <-
    (if TransmissionInfo.type_ transmission =? SimpleTransmission then
       j <- deref joint ;;
       ROS_LOG Info ("Found transmission interface of joint '" ++ name j ++ "': "
                     ++ k_interface) ;;
       if k_interface =? EffortJointInterface then
         initEffortCommandHandle joint ;; ret true
       else ret false
     else ret false) ;;
  if continue : bool then ret None
  else if TransmissionInfo.type_ transmission =? FrankaStateInterface then
    ROS_LOG Info ("Found transmission interface '" ++ TransmissionInfo.type_ transmission
                  ++ "'") ;;
    catch_invalid_argument
      (s <- get ;;
       u <- deref urdf ;;
       initFrankaStateHandle (arm_id_ s) u transmission ;;
       ret None)
      (fun what => ROS_LOG Error what ;; ret (Some false))
  else if TransmissionInfo.type_ transmission =? FrankaModelInterface then
    ROS_LOG Info ("Found transmission interface '" ++ TransmissionInfo.type_ transmission
                  ++ "'") ;;
    catch_invalid_argument
      (s <- get ;;
       u <- deref urdf ;;
       initFrankaModelHandle (arm_id_ s) u transmission ;;
       ret None)
      (fun what => ROS_LOG Error what ;; ret (Some false))
  else
    j <- deref joint ;;
    ROS_LOG Warn ("Unsupported transmission interface of joint '" ++ name j ++ "': "
                  ++ k_interface) ;;
    ret None.

Definition registerCommandInterfaces (urdf : option urdf.Model)
    (transmission : TransmissionInfo.t) : M (option bool) :=
  joint0 <- joints_front transmission ;;
  for_each (JointInfo.hardware_interfaces_ joint0)
    (registerCommandInterface urdf transmission).

Definition registerInterface (interface : string) : M unit :=
  modify (fun s => set_interfaces_ (push_back (interfaces_ s) interface) s).

(** ** [FrankaHWSim::readParameters] *)

Definition readArray_ (N : nat) (values name : string) : M (list float) :=
  match readArray E N values name with
  | inl what => throw (invalid_argument what)
  | inr a => ret a
  end.

Definition nominal_thresholds : list float :=
  [20; 20; 18; 18; 16; 14; 12]%float.

(** [this->joints_[name]->field = value]: the right-hand side is evaluated
    first, then the key is looked up (and inserted when missing). *)
Definition assign_threshold (set : float -> Joint -> Joint) (key : string)
    (value : outcome float) : M unit :=
  v <- lift value ;;
  p <- joints_index key ;;
  j <- deref p ;;
  modify (fun s => set_joints_ (map_store key (set v j) (joints_ s)) s).

Definition readParameters : M bool :=
  modify_robot_state (set_m_ee (param_double E "m_ee" 0.73)) ;;
  ok <-
    catch_invalid_argument
      (a <- readArray_ 9 (param_string E "I_ee" "0.001 0 0 0 0.0025 0 0 0 0.0017") "I_ee" ;;
       modify_robot_state (set_I_ee a) ;;
       modify_robot_state (set_m_load (param_double E "m_load" 0)) ;;
       a <- readArray_ 9 (param_string E "I_load" "0 0 0 0 0 0 0 0 0") "I_load" ;;
       modify_robot_state (set_I_load a) ;;
       a <- readArray_ 3 (param_string E "F_x_Cload" "0 0 0") "F_x_Cload" ;;
       modify_robot_state (set_F_x_Cload a) ;;
       a <- readArray_ 16
              (param_string E "F_T_NE"
                 "0.7071 -0.7071 0 0 0.7071 0.7071 0 0 0 0 1 0 0 0 0.1034 1") "F_T_NE" ;;
       modify_robot_state (set_F_T_NE a) ;;
       a <- readArray_ 16 (param_string E "NE_T_EE" "1 0 0 0 0 1 0 0 0 0 1 0 0 0 0 1")
              "NE_T_EE" ;;
       modify_robot_state (set_NE_T_EE a) ;;
       a <- readArray_ 16 (param_string E "EE_T_K" "1 0 0 0 0 1 0 0 0 0 1 0 0 0 0 1")
              "EE_T_K" ;;
       modify_robot_state (set_EE_T_K a) ;;
       let lower_torque_thresholds :=
         getCollisionThresholds E "lower_torque_thresholds_nominal" nominal_thresholds in
       let upper_torque_thresholds :=
         getCollisionThresholds E "upper_torque_thresholds_nominal" nominal_thresholds in
       for_each_ (seq 0 7) (fun i =>
         s <- get ;;
         let name := arm_id_ s ++ "_joint" ++ to_string (i + 1) in
         assign_threshold set_contact_threshold name (vector_at lower_torque_thresholds i) ;;
         assign_threshold set_collision_threshold name
           (vector_at upper_torque_thresholds i)) ;;
       ret true)
      (fun what => ROS_LOG Error what ;; ret false) ;;
  if ok : bool then
    modify_robot_state (fun rs => set_m_total (m_ee rs + m_load rs)%float rs) ;;
    modify_robot_state (fun rs => set_F_T_EE (Matrix4d_mul (F_T_NE rs) (NE_T_EE rs)) rs) ;;
    modify_robot_state (fun rs =>
      set_I_total (shiftInertiaTensor (I_ee rs) (m_ee rs) (F_x_Cload rs)) rs) ;;
    ret true
  else ret false.

(** The beginning of [initSim]: the arm identifier, the Gazebo model, the
    physics engine. *)
Definition initSim_begin (robot_namespace : string) (parent : ModelPtr) : M unit :=
  modify (set_arm_id_ (param_string E "arm_id" robot_namespace)) ;;
  s <- get ;;
  (if negb (arm_id_ s =? robot_namespace) then
     ROS_LOG Warn ("Caution: Robot names differ! Read 'arm_id: " ++ arm_id_ s
                   ++ "' from parameter server but URDF defines '<robotNamespace>"
                   ++ robot_namespace ++ "</robotNamespace>'. Will use '" ++ arm_id_ s
                   ++ "'!")
   else ret tt) ;;
  modify (set_robot_ parent) ;;
  ROS_LOG Info ("Using physics type " ++ physics_type E).

(** [initSim] up to the registration of the joint state handles. *)
Definition initSim_joints (robot_namespace : string) (parent : ModelPtr)
    (urdf : option urdf.Model) (transmissions : list TransmissionInfo.t)
  : M (option bool) :=
  initSim_begin robot_namespace parent ;;
  r <- for_each transmissions (collectJoint parent urdf) ;;
  match r with
  | Some b => ret (Some b)
  | None =>
      s <- get ;;
      for_each_ (joints_ s) (fun pair => initJointStateHandle (snd pair)) ;;
      ret None
  end.

Definition initSim (robot_namespace : string) (parent : ModelPtr)
    (urdf : option urdf.Model) (transmissions : list TransmissionInfo.t) : M bool :=
  r <- initSim_joints robot_namespace parent urdf transmissions ;;
  match r with
  | Some b => ret b
  | None =>
      r <- for_each transmissions (registerCommandInterfaces urdf) ;;
      match r with
      | Some b => ret b
      | None =>
          registerInterface "eji_" ;;
          registerInterface "jsi_" ;;
          registerInterface "fsi_" ;;
          registerInterface "fmi_" ;;
          readParameters
      end
  end.

(** ** [FrankaHWSim::updateRobotState] and [FrankaHWSim::readSim] *)

Definition updateRobotState_joint (i : nat) : M unit :=
  s <- get ;;
  let name := arm_id_ s ++ "_joint" ++ to_string (i + 1) in
  p <- joints_at name ;;
  joint <- deref p ;;
  modify_robot_state (fun rs => set_q (array_set i (position joint) (q rs)) rs) ;;
  modify_robot_state (fun rs => set_dq (array_set i (velocity joint) (dq rs)) rs) ;;
  modify_robot_state (fun rs => set_tau_J (array_set i (effort joint) (tau_J rs)) rs) ;;
  modify_robot_state (fun rs => set_dtau_J (array_set i (jerk joint) (dtau_J rs)) rs) ;;
  modify_robot_state (fun rs => set_q_d (array_set i (position joint) (q_d rs)) rs) ;;
  modify_robot_state (fun rs => set_dq_d (array_set i (velocity joint) (dq_d rs)) rs) ;;
  modify_robot_state (fun rs => set_ddq_d (array_set i (acceleration joint) (ddq_d rs)) rs) ;;
  modify_robot_state (fun rs => set_tau_J_d (array_set i (command joint) (tau_J_d rs)) rs) ;;
  modify_robot_state (fun rs => set_theta (array_set i (position joint) (theta rs)) rs) ;;
  modify_robot_state (fun rs => set_dtheta (array_set i (velocity joint) (dtheta rs)) rs) ;;
  modify_robot_state (fun rs =>
    set_tau_ext_hat_filtered
      (array_set i (effort joint - command joint)%float (tau_ext_hat_filtered rs)) rs) ;;
  modify_robot_state (fun rs =>
    set_joint_contact
      (array_set i (double_of_bool (isInContact joint)) (joint_contact rs)) rs) ;;
  modify_robot_state (fun rs =>
    set_joint_collision
      (array_set i (double_of_bool (isInCollision joint)) (joint_collision rs)) rs).

Definition updateRobotState (time : Time) : M unit :=
  s <- get ;;
  assert (List.length (joints_ s) =? 7)%nat ;;
  for_each_ (seq 0 7) updateRobotState_joint ;;
  modify_robot_state (set_control_command_success_rate 1%float) ;;
  modify_robot_state (set_time (franka_Duration time)) ;;
  s <- get ;;
  model <- deref (model_ s) ;;
  modify_robot_state (set_O_T_EE (pose_kEndEffector E model (robot_state_ s))).

Definition readSim (time : Time) (period : ros_Duration) : M unit :=
  s <- get ;;
  for_each_ (joints_ s) (fun pair =>
    joint <- deref (snd pair) ;;
    modify (fun s =>
      set_joints_ (map_store (fst pair) (Joint_update E period joint) (joints_ s)) s)) ;;
  updateRobotState time.

End FrankaHWSim.

Arguments mkFrankaHWSim {E}.
Arguments arm_id_ {E}.
Arguments robot_ {E}.
Arguments joints_ {E}.
Arguments robot_state_ {E}.
Arguments model_ {E}.
Arguments eji_ {E}.
Arguments jsi_ {E}.
Arguments fsi_ {E}.
Arguments fmi_ {E}.
Arguments interfaces_ {E}.
Arguments rosout {E}.
Arguments gazebo_forces {E}.
Arguments set_joints_ {E}.
Arguments set_robot_state_ {E}.
Arguments set_rosout {E}.
Arguments set_gazebo_forces {E}.

(** ** A concrete environment and a concrete robot

    The Panda arm as its description declares it: seven arm joints, each
    with a simple effort transmission, the state and the model transmission. *)

Module Panda.

(** *** Parsing of the calibration arrays *)

Fixpoint tokens_aux (s : string) (cur : string) : list string :=
  match s with
  | EmptyString => if (String.length cur =? 0)%nat then [] else [cur]
  | String c s' =>
      if isspace c then
        (if (String.length cur =? 0)%nat then tokens_aux s' ""
         else cur :: tokens_aux s' "")
      else tokens_aux s' (cur ++ String c "")
  end.

Definition tokens (s : string) : list string := tokens_aux s "".

Fixpoint all_digits (s : string) : bool :=
  match s with
  | EmptyString => true
  | String c s' => match digit_of c with Some _ => all_digits s' | None => false end
  end.

Fixpoint split_dot (s : string) (cur : string) : string * option string :=
  match s with
  | EmptyString => (cur, None)
  | String "."%char s' => (cur, Some s')
  | String c s' => split_dot s' (cur ++ String c "")
  end.

Definition double_of_Z (z : Z) : float := PrimFloat.of_uint63 (Uint63.of_Z z).

(** A decimal numeral [-ddd.ddd]: the quotient of two integers that a
    binary64 holds exactly, so the result is the nearest binary64. *)
Definition parse_double (tok : string) : option float :=
  let '(neg, body) :=
    match tok with
    | String "-"%char r => (true, r)
    | _ => (false, tok)
    end in
  let '(int_part, frac) := split_dot body "" in
  let frac_part := match frac with Some f => f | None => "" end in
  if all_digits int_part && all_digits frac_part
     && negb (String.length (int_part ++ frac_part) =? 0)%nat then
    let num := read_digits (int_part ++ frac_part) 0%Z in
    let den := (10 ^ Z.of_nat (String.length frac_part))%Z in
    let v := (double_of_Z num / double_of_Z den)%float in
    Some (if neg then (- v)%float else v)
  else None.

Fixpoint parse_all (l : list string) : option (list float) :=
  match l with
  | [] => Some []
  | tok :: l' =>
      match parse_double tok, parse_all l' with
      | Some v, Some vs => Some (v :: vs)
      | _, _ => None
      end
  end.

(** Modelled from the spec: [readArray<N>] is defined in the header of the
    class.  "Each flattened numeric parameter must parse to the exact
    expected element count; a mismatch fails with a descriptive error
    identifying the parameter name." *)
Definition read_array (N : nat) (values name : string) : string + list float :=
  let toks := tokens values in
  if negb (List.length toks =? N)%nat then
    inl ("Expected parameter '" ++ name ++ "' to have exactly " ++ to_string N
         ++ " numbers separated by spaces, but found " ++ to_string (List.length toks))
  else
    match parse_all toks with
    | Some a => inr a
    | None => inl ("Parameter '" ++ name ++ "' holds a value that is not a number")
    end.

(** *** The environment: an empty parameter server and a fixed model *)

Definition zero_joint : Joint :=
  mkJoint "" 0%Z (0, 0, 0)%float 0%nat 0 0 0 0 0 0 infinity infinity.

Definition env : Env :=
  {| ModelKDL := string * string;
     ModelKDL_new := fun _ root tip => inr (root, tip);
     gravity := fun _ _ => [0.5; 1; 1.5; 2; 2.5; 3; 3.5]%float;
     pose_kEndEffector := fun _ rs => F_T_EE rs;
     Joint_new := zero_joint;
     Joint_update := fun _ j => j;
     param_string := fun _ default => default;
     param_double := fun _ default => default;
     readArray := read_array;
     getCollisionThresholds := fun _ defaults => defaults;
     physics_type := "ode" |}.

(** *** The robot description *)

Definition arm_joint_names : list string :=
  map (fun i => "panda_joint" ++ to_string i) (seq 1 7).

Definition urdf_joint (i : nat) : string * urdf.Joint :=
  ("panda_joint" ++ to_string i,
   urdf.mkJoint 1 (0, 0, 1)%float ("panda_link" ++ to_string (i - 1))
     ("panda_link" ++ to_string i)).

Definition finger : string := "panda_finger_joint1".

Definition urdf_model : urdf.Model :=
  List.app (map urdf_joint (seq 1 8))
    [(finger, urdf.mkJoint 3 (0, 1, 0)%float "panda_hand" "panda_leftfinger")].

Definition gazebo_model : ModelPtr :=
  List.app (map (fun i => ("panda_joint" ++ to_string i, (100 + i)%nat)) (seq 1 7))
    [(finger, 108%nat)].

Definition effort_transmission (joint : string) : TransmissionInfo.t :=
  TransmissionInfo.mk (joint ++ "_transmission") SimpleTransmission
    [JointInfo.mk joint [EffortJointInterface] ""].

Definition state_transmission (joints : list string) : TransmissionInfo.t :=
  TransmissionInfo.mk "panda_franka_state" FrankaStateInterface
    (map (fun j => JointInfo.mk j [FrankaStateInterface] "") joints).

Definition model_transmission (joints : list (string * string)) : TransmissionInfo.t :=
  TransmissionInfo.mk "panda_franka_model" FrankaModelInterface
    (map (fun jr => JointInfo.mk (fst jr) [FrankaModelInterface] (snd jr)) joints).

Definition transmissions : list TransmissionInfo.t :=
  List.app (map effort_transmission arm_joint_names)
    [state_transmission arm_joint_names;
     model_transmission [("panda_joint1", "root"); ("panda_joint8", "tip")]].

Definition zeros (n : nat) : list float := repeat 0%float n.

(** The robot state of a freshly constructed object. *)
Definition RobotState_new : RobotState :=
  mkRobotState (zeros 7) (zeros 7) (zeros 7) (zeros 7) (zeros 7) (zeros 7) (zeros 7)
    (zeros 7) (zeros 7) (zeros 7) (zeros 7) (zeros 7) (zeros 7)
    0 0 0 (zeros 9) (zeros 9) (zeros 9) (zeros 3)
    (zeros 16) (zeros 16) (zeros 16) (zeros 16) (zeros 16) 0 0%Z.

Definition new : FrankaHWSim env :=
  mkFrankaHWSim "" [] [] RobotState_new None [] [] [] [] [] [] [].

(** *** Initialised states *)

Definition init (gazebo : ModelPtr) (description : urdf.Model)
    (ts : list TransmissionInfo.t) : outcome bool * FrankaHWSim env :=
  initSim env "panda" gazebo (Some description) ts new.

Definition ready : FrankaHWSim env := snd (init gazebo_model urdf_model transmissions).

(** The model that initialisation builds: from the parent link of the root
    joint to the child link of the tip joint. *)
Definition model : ModelKDL env := ("panda_link0", "panda_link8").

(** The record stored under [k]. *)
Definition joint_of (k : string) (s : FrankaHWSim env) : Joint :=
  match map_find k (joints_ s) with
  | Some (Some j) => j
  | _ => zero_joint
  end.

(** The controller writes [v] as the command of joint [k]. *)
Definition commanded (k : string) (v : float) (s : FrankaHWSim env) : FrankaHWSim env :=
  match map_find k (joints_ s) with
  | Some (Some j) => set_joints_ (map_store k (set_command v j) (joints_ s)) s
  | _ => s
  end.

(** *** Variations of the description *)

(** A gripper declared as one simple transmission over both fingers. *)
Definition gripper_transmission : TransmissionInfo.t :=
  TransmissionInfo.mk "panda_gripper" SimpleTransmission
    [JointInfo.mk "panda_finger_joint1" [EffortJointInterface] "";
     JointInfo.mk "panda_finger_joint2" [EffortJointInterface] ""].

(** The arm with one finger actuated through its own simple transmission. *)
Definition transmissions_with_finger : list TransmissionInfo.t :=
  List.app transmissions [effort_transmission finger].

(** A model transmission that lists the tip joint only. *)
Definition transmissions_without_root : list TransmissionInfo.t :=
  List.app (map effort_transmission arm_joint_names)
    [state_transmission arm_joint_names; model_transmission [("panda_joint8", "tip")]].

(** A model transmission whose two joints lack the root role. *)
Definition transmissions_unmarked_root : list TransmissionInfo.t :=
  List.app (map effort_transmission arm_joint_names)
    [state_transmission arm_joint_names;
     model_transmission [("panda_joint1", ""); ("panda_joint8", "tip")]].

(** A state transmission that lists six joints. *)
Definition transmissions_six_joints : list TransmissionInfo.t :=
  List.app (map effort_transmission arm_joint_names)
    [state_transmission (firstn 6 arm_joint_names);
     model_transmission [("panda_joint1", "root"); ("panda_joint8", "tip")]].








(** *** A calibrated tool

    The parameter server of an arm that carries a tool and a load: the
    flange frame is turned about [z] and raised, the tool frame is turned
    about [x] and moved aside, and the centre of mass of the load is off the
    flange. *)
Definition tool_parameters (key default : string) : string :=
  if key =? "I_ee" then "0.5 0 0 0 0.25 0 0 0 0.125"
  else if key =? "F_x_Cload" then "0.5 0.25 0.125"
  else if key =? "F_T_NE" then "0 1 0 0 -1 0 0 0 0 0 1 0 0 0 0.125 1"
  else if key =? "NE_T_EE" then "1 0 0 0 0 0 1 0 0 -1 0 0 0.5 0.25 0 1"
  else default.

Definition tool_masses (key : string) (default : float) : float :=
  if key =? "m_ee" then 2%float
  else if key =? "m_load" then 0.5%float
  else default.

Definition env_with_tool : Env :=
  {| ModelKDL := string * string;
     ModelKDL_new := fun _ root tip => inr (root, tip);
     gravity := fun _ _ => [0.5; 1; 1.5; 2; 2.5; 3; 3.5]%float;
     pose_kEndEffector := fun _ rs => F_T_EE rs;
     Joint_new := zero_joint;
     Joint_update := fun _ j => j;
     param_string := tool_parameters;
     param_double := tool_masses;
     readArray := read_array;
     getCollisionThresholds := fun _ defaults => defaults;
     physics_type := "ode" |}.

Definition new_with_tool : FrankaHWSim env_with_tool :=
  mkFrankaHWSim "" [] [] RobotState_new None [] [] [] [] [] [] [].

Definition ready_with_tool : FrankaHWSim env_with_tool :=
  snd (initSim env_with_tool "panda" gazebo_model (Some urdf_model) transmissions
         new_with_tool).

End Panda.


(** * The vocabulary of the properties *)

(** The number that follows the prefix in a joint name, as the writer reads
    it: [std::stoi(key.substr(prefix.size()))]. *)
Definition joint_number (arm_id key : string) : outcome Z :=
  stoi (string_drop (String.length (arm_id ++ "_joint")) key).

Section Vocabulary.

Context {E : Env}.

Local Abbreviation Sim := (FrankaHWSim E).

(** What a run of the writer adds to the world: forces applied in Gazebo and
    lines in the log.  Nothing else of the object changes. *)
Definition effects (s : Sim) (forces : list (JointPtr * nat * float))
    (lines : list (severity * string)) : Sim :=
  set_gazebo_forces (gazebo_forces s ++ forces)%list (set_rosout (rosout s ++ lines)%list s).

Definition nan_warning (j : Joint) : severity * string :=
  (Warn, "Command for " ++ name j ++ "is NaN, won't send to robot").



(** A key is fit for the writer when it does not start with the prefix, or
    when [std::stoi] reads a number between 1 and 7 after the prefix. *)
Definition joint_name_ok (arm_id key : string) : bool :=
  if String.prefix (arm_id ++ "_joint") key then
    match joint_number arm_id key with
    | Ret n => ((1 <=? n) && (n <=? 7))%Z
    | _ => false
    end
  else true.

Definition all_names_ok (arm_id : string) (l : JointMap) : bool :=
  forallb (fun pair => joint_name_ok arm_id (fst pair)) l.

Definition not_null (pair : string * option Joint) : bool :=
  match snd pair with
  | Some _ => true
  | None => false
  end.

Definition no_null (l : JointMap) : Prop := forallb not_null l = true.

(** The name under which the synthesizer looks up the joint of index [i]. *)
Definition joint_name (arm_id : string) (i : nat) : string :=
  arm_id ++ "_joint" ++ to_string (i + 1).

(** The calibration part of the robot state, which only [readParameters]
    writes. *)
Definition calibration (rs : RobotState) :=
  (m_ee rs, m_load rs, m_total rs, I_ee rs, I_load rs, I_total rs, F_x_Cload rs,
   F_T_NE rs, NE_T_EE rs, EE_T_K rs, F_T_EE rs).

(** The three estimates the synthesizer derives for the joint of index [i]. *)
Definition estimates (rs : RobotState) (i : nat) : float * float * float :=
  (nth i (tau_ext_hat_filtered rs) 0%float,
   nth i (joint_contact rs) 0%float,
   nth i (joint_collision rs) 0%float).

Definition estimate_sizes (rs : RobotState) : nat * nat * nat :=
  (List.length (tau_ext_hat_filtered rs), List.length (joint_contact rs),
   List.length (joint_collision rs)).

(** [preserves R m]: however [m] ends, the state it leaves is related by [R]
    to the state it started from. *)
Definition preserves {A} (R : Sim -> Sim -> Prop) (m : M E A) : Prop :=
  forall s o s', m s = (o, s') -> R s s'.

(** [same f]: the part [f] of the state is unchanged. *)
Definition same {B} (f : Sim -> B) (s s' : Sim) : Prop := f s' = f s.

(** The relation between the derived and the read calibration values. *)
Definition calibrated (rs : RobotState) : Prop :=
  m_total rs = (m_ee rs + m_load rs)%float /\
  F_T_EE rs = Matrix4d_mul (F_T_NE rs) (NE_T_EE rs) /\
  I_total rs = shiftInertiaTensor (I_ee rs) (m_ee rs) (F_x_Cload rs).

Definition calibration_of (s : Sim) := calibration (robot_state_ s).

(** [post m Q]: when [m] returns, the value it returns satisfies [Q]. *)
Definition post {A} (m : M E A) (Q : A -> Prop) : Prop :=
  forall s a s', m s = (Ret a, s') -> Q a.

(** A loop body or an initialisation step never asks for [return true]. *)
Definition no_true (r : option bool) : Prop := r <> Some true.

(** One step of the control flow: a refresh of the joint records followed by
    the synthesizer, a command the controller writes through an effort
    handle, or the command writer. *)
Inductive cycle_step : Sim -> Sim -> Prop :=
| step_readSim (t : Time) (p : ros_Duration) (s s' : Sim) :
    readSim E t p s = (Ret tt, s') -> cycle_step s s'
| step_command (k : string) (v : float) (j : Joint) (s : Sim) :
    In k (eji_ s) -> map_find k (joints_ s) = Some (Some j) ->
    cycle_step s (set_joints_ (map_store k (set_command v j) (joints_ s)) s)
| step_writeSim (t : Time) (p : ros_Duration) (s s' : Sim) :
    writeSim E t p s = (Ret tt, s') -> cycle_step s s'.

(** The states of a run: those that follow a successful initialisation. *)
Inductive running (ns : string) (parent : ModelPtr) (u : option urdf.Model)
    (ts : list TransmissionInfo.t) (s0 : Sim) : Sim -> Prop :=
| running_init (s : Sim) :
    initSim E ns parent u ts s0 = (Ret true, s) -> running ns parent u ts s0 s
| running_step (s s' : Sim) :
    running ns parent u ts s0 s -> cycle_step s s' -> running ns parent u ts s0 s'.

(** What initialisation registers and builds: the model, the handles of the
    four interfaces, the interfaces themselves, and the robot state. *)
Definition registered (s : Sim) :=
  (model_ s, eji_ s, jsi_ s, fsi_ s, fmi_ s, interfaces_ s, robot_state_ s).

Definition multi_joint_warning (t : TransmissionInfo.t) : severity * string :=
  (Warn, "Transmission " ++ TransmissionInfo.name_ t
         ++ " has more than one joint. Currently the franka robot hardware simulation "
         ++ " interface only supports one.").

Definition found_interface (t : TransmissionInfo.t) : severity * string :=
  (Info, "Found transmission interface '" ++ TransmissionInfo.type_ t ++ "'").

Definition state_count_error (robot : string) (t : TransmissionInfo.t) : string :=
  "Cannot create franka_hw/FrankaStateInterface for robot '" ++ robot
  ++ "_robot' because " ++ to_string (List.length (TransmissionInfo.joints_ t))
  ++ " joints were found beneath the <transmission> tag, but 7 are required.".

Definition model_count_error (robot : string) (t : TransmissionInfo.t) : string :=
  "Cannot create franka_hw/FrankaModelInterface for robot '" ++ robot
  ++ "_model' because " ++ to_string (List.length (TransmissionInfo.joints_ t))
  ++ " joints were found beneath the <transmission> tag, but 2 are required.".

Definition model_urdf_error (robot joint : string) : string :=
  "Cannot create franka_hw/FrankaModelInterface for robot '" ++ robot
  ++ "_model' because the specified joint '" ++ joint
  ++ "' in the <transmission> tag cannot be found in the URDF".

Definition model_root_error (robot : string) : string :=
  "Cannot create franka_hw/FrankaModelInterface for robot '" ++ robot
  ++ "_model' because no <joint> with <role>root</root> can be found "
  ++ "in the <transmission>".

Definition model_tip_error (robot : string) : string :=
  "Cannot create franka_hw/FrankaModelInterface for robot '" ++ robot
  ++ "_model' because no <joint> with <role>tip</role> can be found "
  ++ "in the <transmission>".

(** The error with which [initFrankaModelHandle] rejects a transmission that
    lacks the root or the tip role: the checks come in the order count, first
    joint in the URDF, root, tip. *)
Definition model_role_error (robot : string) (u : urdf.Model) (t : TransmissionInfo.t)
  : string :=
  match TransmissionInfo.joints_ t with
  | [joint0; _] =>
      match urdf.getJoint u (JointInfo.name_ joint0) with
      | None => model_urdf_error robot (JointInfo.name_ joint0)
      | Some _ =>
          match find (has_role "root") (TransmissionInfo.joints_ t) with
          | None => model_root_error robot
          | Some _ => model_tip_error robot
          end
      end
  | _ => model_count_error robot t
  end.

End Vocabulary.

(** ** The vocabulary of the properties of whole cycles *)

Definition keys (m : JointMap) : list string := map fst m.

(** The ten arrays of the robot state that the synthesizer fills with
    measurements, and what it takes from a joint record for each, in the
    order of the assignments. *)
Definition measured_arrays (rs : RobotState) : list (list float) :=
  [q rs; dq rs; tau_J rs; dtau_J rs; q_d rs; dq_d rs; ddq_d rs; tau_J_d rs;
   theta rs; dtheta rs].

Definition measured_fields : list (Joint -> float) :=
  [position; velocity; effort; jerk; position; velocity; acceleration; command;
   position; velocity].

Definition measured_values (j : Joint) : list float := map (fun f => f j) measured_fields.

(** [a[i] = v] in each array, with its own value. *)
Definition set_each (i : nat) (vs : list float) (arrays : list (list float))
  : list (list float) :=
  map (fun va => array_set i (fst va) (snd va)) (combine vs arrays).

(** The element of index [i] of each array. *)
Definition each_nth (i : nat) (arrays : list (list float)) : list float :=
  map (fun a => nth i a 0%float) arrays.

(** What [Joint::update] does to an entry of the joint map. *)
Definition refreshed (update : Joint -> Joint) (pair : string * option Joint)
  : string * option Joint :=
  (fst pair, option_map update (snd pair)).

(** The joint of a transmission is declared in the URDF. *)
Definition in_urdf (u : urdf.Model) (joint : JointInfo.t) : bool :=
  match urdf.getJoint u (JointInfo.name_ joint) with
  | Some _ => true
  | None => false
  end.

(** What the writer may hand to Gazebo in the turn of one joint: nothing, or
    one force, on the handle of the record of that joint, on the first axis,
    and a number. *)
Definition turn_forces (pair : string * option Joint)
    (forces : list (JointPtr * nat * float)) : Prop :=
  forces = [] \/
  exists j c,
    snd pair = Some j /\ PrimFloat.is_nan c = false /\ forces = [(handle j, 0%nat, c)].

(** The six arrays [readParameters] reads: size, parameter name, default and
    the member of the robot state that receives the array. *)
Definition calibration_parameters
  : list (nat * string * string * (RobotState -> list float)) :=
  [(9%nat, "I_ee", "0.001 0 0 0 0.0025 0 0 0 0.0017", I_ee);
   (9%nat, "I_load", "0 0 0 0 0 0 0 0 0", I_load);
   (3%nat, "F_x_Cload", "0 0 0", F_x_Cload);
   (16%nat, "F_T_NE", "0.7071 -0.7071 0 0 0.7071 0.7071 0 0 0 0 1 0 0 0 0.1034 1", F_T_NE);
   (16%nat, "NE_T_EE", "1 0 0 0 0 1 0 0 0 0 1 0 0 0 0 1", NE_T_EE);
   (16%nat, "EE_T_K", "1 0 0 0 0 1 0 0 0 0 1 0 0 0 0 1", EE_T_K)].

(** What [readParameters] reads into the robot state. *)
Definition calibration_inputs (rs : RobotState) :=
  (m_ee rs, m_load rs, I_ee rs, I_load rs, F_x_Cload rs, F_T_NE rs, NE_T_EE rs, EE_T_K rs).

(** [readArray<N>] on the value of the parameter. *)
Definition read_parameter (E : Env)
    (p : nat * string * string * (RobotState -> list float)) : string + list float :=
  readArray E (fst (fst (fst p))) (param_string E (snd (fst (fst p))) (snd (fst p)))
    (snd (fst (fst p))).

(** Anything but [std::invalid_argument]. *)
Definition not_invalid_argument (x : exn + fault) : Prop :=
  match x with
  | inl (invalid_argument _) => False
  | _ => True
  end.

(** What [initSim] takes from the descriptions for the record of joint [k]:
    the name, the handle of the Gazebo joint, the type and the axis of the
    URDF joint. *)
Definition wired (parent : ModelPtr) (u : option urdf.Model) (k : string) (j : Joint)
  : Prop :=
  name j = k /\ GetJoint parent k = Some (handle j) /\
  exists um uj,
    u = Some um /\ urdf.getJoint um k = Some uj /\
    type j = urdf.type uj /\ axis j = urdf.axis uj.

(** The part of a record that is set when it is created and never after. *)
Definition wiring (j : Joint) := (name j, type j, axis j, handle j).

(** How an outcome fails, if it does. *)
Definition failure {A} (o : outcome A) : option (exn + fault) :=
  match o with
  | Ret _ => None
  | Throw e => Some (inl e)
  | Fault f => Some (inr f)
  end.

Section Vocabulary2.

Context {E : Env}.

Local Abbreviation Sim := (FrankaHWSim E).

(** Every member but the robot state and the joint records, and the keys of
    the joint map. *)
Definition but_joint_records_and_robot_state (s : Sim) :=
  (arm_id_ s, robot_ s, keys (joints_ s), model_ s, eji_ s, jsi_ s, fsi_ s, fmi_ s,
   interfaces_ s, rosout s, gazebo_forces s).

(** What initialisation sets up and the cycle works with. *)
Definition configuration (s : Sim) :=
  (arm_id_ s, robot_ s, keys (joints_ s), model_ s, eji_ s, jsi_ s, fsi_ s, fmi_ s,
   interfaces_ s).

(** Every entry of the joint map holds a record made from the descriptions. *)
Definition all_wired (parent : ModelPtr) (u : option urdf.Model) (s : Sim) : Prop :=
  forall k v, map_find k (joints_ s) = Some v -> exists j, v = Some j /\ wired parent u k j.

(** [grows s s']: the records of [s] are still in [s'], wired as they were,
    and so are the handles of the four interfaces and the model; the arm
    identifier is the same. *)
Definition grows (s s' : Sim) : Prop :=
  (forall k j, map_find k (joints_ s) = Some (Some j) ->
     exists j', map_find k (joints_ s') = Some (Some j') /\ wiring j' = wiring j) /\
  (forall n, In n (jsi_ s) -> In n (jsi_ s')) /\
  (forall n, In n (eji_ s) -> In n (eji_ s')) /\
  (forall n, In n (fsi_ s) -> In n (fsi_ s')) /\
  (forall n, In n (fmi_ s) -> In n (fmi_ s')) /\
  (model_ s <> None -> model_ s' <> None) /\
  arm_id_ s' = arm_id_ s.

(** [announced s s']: the log of [s'] continues that of [s], and the arm
    identifier and the Gazebo model are the same. *)
Definition announced (s s' : Sim) : Prop :=
  (exists lines, rosout s' = (rosout s ++ lines)%list) /\
  arm_id_ s' = arm_id_ s /\ robot_ s' = robot_ s.

(** The lines with which [initSim] begins. *)
Definition initSim_begin_lines (robot_namespace : string) : list (severity * string) :=
  let arm_id := param_string E "arm_id" robot_namespace in
  List.app
    (if arm_id =? robot_namespace then []
     else [(Warn, "Caution: Robot names differ! Read 'arm_id: " ++ arm_id
                  ++ "' from parameter server but URDF defines '<robotNamespace>"
                  ++ robot_namespace ++ "</robotNamespace>'. Will use '" ++ arm_id
                  ++ "'!")])
    [(Info, "Using physics type " ++ physics_type E)].

(** The joint of every simple transmission has its record, under its name. *)
Definition collected (ts : list TransmissionInfo.t) (s : Sim) : Prop :=
  forall t, In t ts -> TransmissionInfo.type_ t = SimpleTransmission ->
    exists joint0 j,
      TransmissionInfo.joints_ t = [joint0] /\
      map_find (JointInfo.name_ joint0) (joints_ s) = Some (Some j) /\
      name j = JointInfo.name_ joint0.

(** What the loop of the synthesizer reads and does not write. *)
Definition synthesizer_inputs (s : Sim) :=
  (arm_id_ s, joints_ s, model_ s, O_T_EE (robot_state_ s)).

(** [raises P m Q]: when [m] starts in a state of [P] and throws or faults,
    what it raises satisfies [Q]. *)
Definition raises {A} (P : Sim -> Prop) (m : M E A) (Q : exn + fault -> Prop) : Prop :=
  forall s o s' x, P s -> m s = (o, s') -> failure o = Some x -> Q x.

Definition anywhere (_ : Sim) : Prop := True.

(** [hoare P m Q]: when [m] starts in a state of [P] and returns, the value
    and the state it leaves satisfy [Q]. *)
Definition hoare {A} (P : Sim -> Prop) (m : M E A) (Q : A -> Sim -> Prop) : Prop :=
  forall s a s', P s -> m s = (Ret a, s') -> Q a s'.

(** The last line of the log is a warning or an error. *)
Definition explained (s : Sim) : Prop :=
  exists lines sev msg,
    rosout s = (lines ++ [(sev, msg)])%list /\ (sev = Warn \/ sev = Error).

(** Every record of the joint map has a joint state handle of its name. *)
Definition handles_registered (s : Sim) : Prop :=
  forall k j, map_find k (joints_ s) = Some (Some j) ->
    existsb (String.eqb (name j)) (jsi_ s) = true.

(** The thresholds [readParameters] reads, and the joints that have them. *)
Definition lower_torque_thresholds : list float :=
  getCollisionThresholds E "lower_torque_thresholds_nominal" nominal_thresholds.

Definition upper_torque_thresholds : list float :=
  getCollisionThresholds E "upper_torque_thresholds_nominal" nominal_thresholds.

Definition has_thresholds (i : nat) (s : Sim) : Prop :=
  exists j,
    map_find (joint_name (arm_id_ s) i) (joints_ s) = Some (Some j) /\
    nth_error lower_torque_thresholds i = Some (contact_threshold j) /\
    nth_error upper_torque_thresholds i = Some (collision_threshold j).

End Vocabulary2.

Arguments initSim_begin_lines : clear implicits.
Arguments lower_torque_thresholds : clear implicits.
Arguments upper_torque_thresholds : clear implicits.

(** What can leave [initSim]: a threshold vector too short for seven joints,
    a null pointer, the first element of an empty vector. *)
Definition leaves_initSim (x : exn + fault) : Prop :=
  match x with
  | inl (out_of_range what) => what = "vector::_M_range_check"
  | inr null_dereference => True
  | inr undefined_behaviour => True
  | _ => False
  end.

(** What can leave [readSim] and [updateRobotState]: the failed assertion on
    the size of the joint map, an arm joint missing from it, a null
    pointer. *)
Definition leaves_readSim (x : exn + fault) : Prop :=
  match x with
  | inl (out_of_range what) => what = "map::at"
  | inr null_dereference => True
  | inr assertion_failed => True
  | _ => False
  end.

(** * Properties *)

(** ** Strings and indices *)

(** A run is determined by the way it ends and the state it leaves. *)
Lemma run_eq {A S} (r : A * S) (a : A) : fst r = a -> r = (a, snd r).
Proof. destruct r as [a' s]; simpl; intros ->; reflexivity. Qed.

Lemma prefix_length (p s : string) :
  String.prefix p s = true -> (String.length p <= String.length s)%nat.
Proof.
  revert s; induction p as [|a p IH]; intros s H; simpl.
  - lia.
  - destruct s as [|b s]; simpl in H; [discriminate|].
    destruct (ascii_dec a b); [|discriminate].
    simpl; apply IH in H; lia.
Qed.

(** [key.rfind(prefix, 0) != npos] tests whether [key] starts with [prefix]. *)
Lemma rfind_0 (s p : string) :
  rfind s p 0 = if String.prefix p s then Some 0%nat else None.
Proof.
  unfold rfind.
  destruct (String.length s <? String.length p)%nat eqn:Hlt.
  - apply Nat.ltb_lt in Hlt.
    destruct (String.prefix p s) eqn:Hp; [|reflexivity].
    apply prefix_length in Hp; lia.
  - reflexivity.
Qed.

(** What [std::stoi] makes of a few texts. *)
Example stoi_examples :
  stoi "7" = Ret 7%Z /\ stoi "07" = Ret 7%Z /\ stoi "+3" = Ret 3%Z /\
  stoi " 5" = Ret 5%Z /\ stoi "1x" = Ret 1%Z /\ stoi "-2" = Ret (-2)%Z /\
  stoi "" = Throw (invalid_argument "stoi") /\
  stoi "X" = Throw (invalid_argument "stoi") /\
  stoi "4294967297" = Throw (out_of_range "stoi").
Proof. repeat split; reflexivity. Qed.

(** Keys the command writer can and cannot index. *)
Example joint_name_ok_examples :
  joint_name_ok "panda" "panda_joint1" = true /\
  joint_name_ok "panda" "panda_joint7" = true /\
  joint_name_ok "panda" "panda_finger_joint1" = true /\
  joint_name_ok "panda" "panda_joint1x" = true /\
  joint_name_ok "panda" "panda_joint07" = true /\
  joint_name_ok "panda" "panda_joint0" = false /\
  joint_name_ok "panda" "panda_joint8" = false /\
  joint_name_ok "panda" "panda_jointX" = false /\
  joint_name_ok "panda" "panda_joint" = false.
Proof. repeat split; reflexivity. Qed.

(** One and a half milliseconds truncate to one. *)
Example franka_Duration_example : franka_Duration 1500000 = 1%Z.
Proof. reflexivity. Qed.

Lemma int_sub_1 (n : Z) : (1 <= n <= 7)%Z -> int_sub n 1 = (n - 1)%Z.
Proof.
  intros H; unfold int_sub, INT_MIN.
  rewrite Z.mod_small; lia.
Qed.

Lemma effective_command_prefix (arm_id key : string) (g : list float) (c : float) :
  String.prefix (arm_id ++ "_joint") key = true ->
  effective_command arm_id g key c =
    match joint_number arm_id key with
    | Ret n =>
        match array_at 7 g (int_sub n 1) with
        | Ret gi => Ret (c + gi)%float
        | Throw e => Throw e
        | Fault f => Fault f
        end
    | Throw e => Throw e
    | Fault f => Fault f
    end.
Proof.
  intros Hp; unfold effective_command, joint_number.
  rewrite rfind_0, Hp.
  unfold substr.
  apply prefix_length in Hp.
  destruct (String.length key <? String.length (arm_id ++ "_joint"))%nat eqn:Hlt.
  - apply Nat.ltb_lt in Hlt; lia.
  - reflexivity.
Qed.

Lemma effective_command_other (arm_id key : string) (g : list float) (c : float) :
  String.prefix (arm_id ++ "_joint") key = false ->
  effective_command arm_id g key c = Ret c.
Proof.
  intros Hp; unfold effective_command.
  rewrite rfind_0, Hp; reflexivity.
Qed.

Lemma effective_command_numbered (arm_id key : string) (g : list float) (c : float) (n : Z) :
  String.prefix (arm_id ++ "_joint") key = true ->
  joint_number arm_id key = Ret n ->
  (1 <= n <= 7)%Z ->
  effective_command arm_id g key c = Ret (c + nth (Z.to_nat (n - 1)) g 0)%float.
Proof.
  intros Hp Hn Hr.
  rewrite effective_command_prefix, Hn, int_sub_1 by assumption.
  unfold array_at.
  replace ((0 <=? n - 1) && (n - 1 <? Z.of_nat 7))%Z with true; [reflexivity|].
  symmetry; apply andb_true_iff; split; [apply Z.leb_le | apply Z.ltb_lt]; lia.
Qed.

Section Properties.

Context (E : Env).

Local Abbreviation Sim := (FrankaHWSim E).
Notation "x <- m ;; k" := (bind E m (fun x => k))
  (at level 61, m at next level, right associativity).

(** ** Loops *)

Lemma for_each__app {A} (body : A -> M E unit) (l1 l2 : list A) (s : Sim) :
  for_each_ E (l1 ++ l2)%list body s =
    match for_each_ E l1 body s with
    | (Ret _, s1) => for_each_ E l2 body s1
    | r => r
    end.
Proof.
  revert s; induction l1 as [|x l1 IH]; intros s; simpl.
  - reflexivity.
  - unfold bind. destruct (body x s) as [[[]|e|f] s']; try reflexivity.
    apply IH.
Qed.

Lemma for_each_app {A R} (body : A -> M E (option R)) (l1 l2 : list A) (s : Sim) :
  for_each E (l1 ++ l2)%list body s =
    match for_each E l1 body s with
    | (Ret None, s1) => for_each E l2 body s1
    | r => r
    end.
Proof.
  revert s; induction l1 as [|x l1 IH]; intros s; simpl.
  - reflexivity.
  - unfold bind. destruct (body x s) as [[[v|]|e|f] s']; try reflexivity.
    apply IH.
Qed.

(** ** The command writer *)

Lemma effects_nil (s : Sim) : effects s [] [] = s.
Proof.
  unfold effects, set_gazebo_forces, set_rosout; cbn.
  rewrite !app_nil_r. reflexivity.
Qed.

Lemma effects_effects (s : Sim) f1 l1 f2 l2 :
  effects (effects s f1 l1) f2 l2 = effects s (f1 ++ f2)%list (l1 ++ l2)%list.
Proof.
  unfold effects, set_gazebo_forces, set_rosout; cbn.
  rewrite !app_assoc. reflexivity.
Qed.

Lemma writeSim_joint_frame (g : list float) (pair : string * option Joint) (s : Sim) :
  exists o forces lines,
    forall s' : Sim, arm_id_ s' = arm_id_ s ->
      writeSim_joint E g pair s' = (o, effects s' forces lines).
Proof.
  destruct pair as [k [j|]]; unfold writeSim_joint; simpl.
  - destruct (effective_command (arm_id_ s) g k (command j)) as [c|e|f] eqn:Hc.
    + destruct (PrimFloat.is_nan c) eqn:Hnan.
      * exists (Ret tt), [], [(Warn, "Command for " ++ name j ++ "is NaN, won't send to robot")].
        intros s' Ha. unfold bind, get, lift, ret; simpl. rewrite Ha, Hc, Hnan.
        unfold ROS_LOG, modify, effects, push_back, set_gazebo_forces, set_rosout; cbn.
        rewrite app_nil_r. reflexivity.
      * exists (Ret tt), [(handle j, 0%nat, c)], [].
        intros s' Ha. unfold bind, get, lift, ret; simpl. rewrite Ha, Hc, Hnan.
        unfold SetForce, modify, effects, push_back, set_gazebo_forces, set_rosout; cbn.
        rewrite app_nil_r. reflexivity.
    + exists (Throw e), [], []. intros s' Ha.
      unfold bind, get, lift, ret; simpl. rewrite Ha, Hc, effects_nil. reflexivity.
    + exists (Fault f), [], []. intros s' Ha.
      unfold bind, get, lift, ret; simpl. rewrite Ha, Hc, effects_nil. reflexivity.
  - exists (Fault null_dereference), [], []. intros s' _.
    unfold bind, abort; simpl. rewrite effects_nil. reflexivity.
Qed.

Lemma writeSim_loop_frame (g : list float) (l : JointMap) (s : Sim) :
  exists o forces lines,
    forall s' : Sim, arm_id_ s' = arm_id_ s ->
      for_each_ E l (writeSim_joint E g) s' = (o, effects s' forces lines).
Proof.
  induction l as [|pair l IH]; simpl.
  - exists (Ret tt), [], []. intros s' _. unfold ret. rewrite effects_nil. reflexivity.
  - destruct (writeSim_joint_frame g pair s) as (o1 & f1 & l1 & H1).
    destruct IH as (o2 & f2 & l2 & H2).
    destruct o1 as [[]|e|f].
    + exists o2, (f1 ++ f2)%list, (l1 ++ l2)%list. intros s' Ha.
      unfold bind. rewrite (H1 s' Ha), H2 by exact Ha.
      rewrite effects_effects. reflexivity.
    + exists (Throw e), f1, l1. intros s' Ha. unfold bind. rewrite (H1 s' Ha). reflexivity.
    + exists (Fault f), f1, l1. intros s' Ha. unfold bind. rewrite (H1 s' Ha). reflexivity.
Qed.

Lemma writeSim_unfold (t : Time) (p : ros_Duration) (s : Sim) :
  writeSim E t p s =
    match model_ s with
    | Some m => for_each_ E (joints_ s) (writeSim_joint E (gravity E m (robot_state_ s))) s
    | None => (Fault null_dereference, s)
    end.
Proof.
  unfold writeSim, bind, get, deref. destruct (model_ s); reflexivity.
Qed.

Lemma writeSim_frame (t : Time) (p : ros_Duration) (s : Sim) :
  exists o forces lines,
    forall s' : Sim,
      arm_id_ s' = arm_id_ s -> joints_ s' = joints_ s ->
      robot_state_ s' = robot_state_ s -> model_ s' = model_ s ->
      writeSim E t p s' = (o, effects s' forces lines).
Proof.
  destruct (model_ s) as [m|] eqn:Hm.
  - destruct (writeSim_loop_frame (gravity E m (robot_state_ s)) (joints_ s) s)
      as (o & f & l & H).
    exists o, f, l. intros s' Ha Hj Hr Hm'.
    rewrite writeSim_unfold, Hm', Hr, Hj. apply H, Ha.
  - exists (Fault null_dereference), [], []. intros s' Ha Hj Hr Hm'.
    rewrite writeSim_unfold, Hm', effects_nil. reflexivity.
Qed.

(** C9: the command writer keeps no state of its own.  Run twice in a row,
    it returns the same way and hands Gazebo the same forces both times, and
    it leaves the robot state, the joint records, the model and the arm
    identifier as they were. *)
Theorem writeSim_twice_same_forces (t t' : Time) (p p' : ros_Duration) (s : Sim) :
  exists o forces lines,
    writeSim E t p s = (o, effects s forces lines) /\
    writeSim E t' p' (effects s forces lines)
      = (o, effects (effects s forces lines) forces lines) /\
    gazebo_forces (effects s forces lines) = (gazebo_forces s ++ forces)%list /\
    gazebo_forces (effects (effects s forces lines) forces lines)
      = ((gazebo_forces s ++ forces) ++ forces)%list /\
    robot_state_ (effects s forces lines) = robot_state_ s /\
    joints_ (effects s forces lines) = joints_ s /\
    model_ (effects s forces lines) = model_ s /\
    arm_id_ (effects s forces lines) = arm_id_ s.
Proof.
  destruct (writeSim_frame t p s) as (o & f & l & H).
  destruct (writeSim_frame t' p' s) as (o' & f' & l' & H').
  pose proof (H s eq_refl eq_refl eq_refl eq_refl) as H1.
  pose proof (H' s eq_refl eq_refl eq_refl eq_refl) as H1'.
  assert (Hsame : (o', f', l') = (o, f, l)).
  { rewrite writeSim_unfold in H1, H1'. rewrite H1 in H1'.
    pose proof (f_equal fst H1') as Ho.
    pose proof (f_equal (fun r => gazebo_forces (snd r)) H1') as Hf.
    pose proof (f_equal (fun r => rosout (snd r)) H1') as Hl.
    cbn in Ho, Hf, Hl. apply app_inv_head in Hf, Hl. congruence. }
  injection Hsame as -> -> ->.
  exists o, f, l. repeat split; try reflexivity.
  - exact H1.
  - apply H'; reflexivity.
Qed.

(** The writer at the turn of one joint. *)

Lemma writeSim_joint_some (g : list float) (k : string) (j : Joint) (s : Sim) :
  writeSim_joint E g (k, Some j) s =
    match effective_command (arm_id_ s) g k (command j) with
    | Ret c =>
        if PrimFloat.is_nan c
        then (Ret tt, set_rosout (push_back (rosout s) (nan_warning j)) s)
        else (Ret tt, set_gazebo_forces (push_back (gazebo_forces s) (handle j, 0%nat, c)) s)
    | Throw e => (Throw e, s)
    | Fault f => (Fault f, s)
    end.
Proof.
  unfold writeSim_joint, bind, get, lift, deref, ret; simpl.
  destruct (effective_command (arm_id_ s) g k (command j)) as [c|e|f]; try reflexivity.
  destruct (PrimFloat.is_nan c); reflexivity.
Qed.

Lemma writeSim_loop_arm_id (g : list float) (l : JointMap) (s s1 : Sim) (o : outcome unit) :
  for_each_ E l (writeSim_joint E g) s = (o, s1) -> arm_id_ s1 = arm_id_ s.
Proof.
  intros H.
  destruct (writeSim_loop_frame g l s) as (o' & f & ls & Hf).
  rewrite (Hf s eq_refl) in H.
  pose proof (f_equal (fun r => arm_id_ (snd r)) H) as Ha. cbn in Ha.
  symmetry; exact Ha.
Qed.

Lemma writeSim_at (t : Time) (p : ros_Duration) (s s1 : Sim) (m : ModelKDL E)
    (l1 l2 : JointMap) (pair : string * option Joint) :
  model_ s = Some m ->
  joints_ s = (l1 ++ pair :: l2)%list ->
  for_each_ E l1 (writeSim_joint E (gravity E m (robot_state_ s))) s = (Ret tt, s1) ->
  writeSim E t p s =
    match writeSim_joint E (gravity E m (robot_state_ s)) pair s1 with
    | (Ret _, s2) => for_each_ E l2 (writeSim_joint E (gravity E m (robot_state_ s))) s2
    | r => r
    end.
Proof.
  intros Hm Hj H1.
  rewrite writeSim_unfold, Hm, Hj, for_each__app, H1. simpl. unfold bind.
  destruct (writeSim_joint E (gravity E m (robot_state_ s)) pair s1) as [[[]|e|f] s2];
    reflexivity.
Qed.

(** C1 (amended): at the turn of a joint whose key starts with
    ["<arm_id>_joint"] and is followed by a number [n] between 1 and 7, the
    writer hands Gazebo exactly one force for that joint,
    [command + gravity[n - 1]], unless that sum is NaN; at the turn of a
    joint whose key does not start with the prefix it hands Gazebo the raw
    command, unless that is NaN.  In both cases it then does with the joints
    that remain what it does with them from the state the earlier joints
    left. *)
Theorem writeSim_applies_compensated_command (t : Time) (p : ros_Duration) (s s1 : Sim)
    (m : ModelKDL E) (l1 l2 : JointMap) (k : string) (j : Joint) :
  model_ s = Some m ->
  joints_ s = (l1 ++ (k, Some j) :: l2)%list ->
  for_each_ E l1 (writeSim_joint E (gravity E m (robot_state_ s))) s = (Ret tt, s1) ->
  let g := gravity E m (robot_state_ s) in
  let applies force :=
    exists o forces lines,
      writeSim E t p s
        = (o, effects
                (set_gazebo_forces (push_back (gazebo_forces s1) (handle j, 0%nat, force)) s1)
                forces lines) /\
      for_each_ E l2 (writeSim_joint E g) s1 = (o, effects s1 forces lines) in
  (String.prefix (arm_id_ s ++ "_joint") k = true ->
   forall n : Z,
     joint_number (arm_id_ s) k = Ret n -> (1 <= n <= 7)%Z ->
     PrimFloat.is_nan (command j + nth (Z.to_nat (n - 1)) g 0)%float = false ->
     applies (command j + nth (Z.to_nat (n - 1)) g 0)%float)
  /\
  (String.prefix (arm_id_ s ++ "_joint") k = false ->
   PrimFloat.is_nan (command j) = false ->
   applies (command j)).
Proof.
  intros Hm Hj H1 g applies.
  pose proof (writeSim_loop_arm_id _ _ _ _ _ H1) as Ha.
  destruct (writeSim_loop_frame g l2 s1) as (o & f & ls & Hf).
  split.
  - intros Hp n Hn Hr Hnan.
    exists o, f, ls. split; [|apply Hf; reflexivity].
    rewrite (writeSim_at t p s s1 m l1 l2 _ Hm Hj H1), writeSim_joint_some, Ha.
    rewrite (effective_command_numbered _ _ _ _ n Hp Hn Hr).
    fold g. rewrite Hnan. apply Hf; reflexivity.
  - intros Hp Hnan.
    exists o, f, ls. split; [|apply Hf; reflexivity].
    rewrite (writeSim_at t p s s1 m l1 l2 _ Hm Hj H1), writeSim_joint_some, Ha.
    rewrite (effective_command_other _ _ _ _ Hp), Hnan. apply Hf; reflexivity.
Qed.

(** *** Joint names the writer can index *)




Lemma array_at_out_of_range (g : list float) (n : Z) :
  (INT_MIN <= n <= INT_MAX)%Z -> ~ (1 <= n <= 7)%Z ->
  array_at 7 g (int_sub n 1) = Throw (out_of_range "array::at").
Proof.
  intros Hr Hn. unfold array_at.
  replace ((0 <=? int_sub n 1) && (int_sub n 1 <? Z.of_nat 7))%Z with false; [reflexivity|].
  symmetry; apply andb_false_iff.
  unfold int_sub, INT_MIN, INT_MAX in *.
  destruct (Z.eq_dec n (- 2 ^ 31)) as [->|Hne].
  - right. vm_compute. reflexivity.
  - rewrite Z.mod_small by lia.
    destruct (Z_lt_dec n 1); [left; apply Z.leb_gt | right; apply Z.ltb_ge]; simpl; lia.
Qed.

Lemma effective_command_ok (arm_id key : string) (g : list float) (c : float) :
  joint_name_ok arm_id key = true -> exists c', effective_command arm_id g key c = Ret c'.
Proof.
  unfold joint_name_ok.
  destruct (String.prefix (arm_id ++ "_joint") key) eqn:Hp.
  - destruct (joint_number arm_id key) as [n|e|f] eqn:Hn; try discriminate.
    intros Hr. apply andb_true_iff in Hr; destruct Hr as [H1 H2].
    apply Z.leb_le in H1, H2.
    eexists. apply (effective_command_numbered _ _ _ _ n Hp Hn); lia.
  - intros _. eexists. apply effective_command_other, Hp.
Qed.


Lemma writeSim_loop_ok (g : list float) (l : JointMap) (s : Sim) :
  no_null l -> all_names_ok (arm_id_ s) l = true ->
  exists s1, for_each_ E l (writeSim_joint E g) s = (Ret tt, s1).
Proof.
  unfold no_null.
  revert s; induction l as [|[k [j|]] l IH]; intros s Hnn Hok.
  - eexists; reflexivity.
  - simpl in Hok. apply andb_true_iff in Hok; destruct Hok as [Hk Hl].
    destruct (effective_command_ok _ _ g (command j) Hk) as [c Hc].
    simpl in Hnn.
    simpl. unfold bind. rewrite writeSim_joint_some, Hc.
    destruct (PrimFloat.is_nan c); apply IH; assumption.
  - simpl in Hnn. discriminate.
Qed.








(** ** The state synthesizer *)

Lemma array_set_length (i : nat) (v : float) (a : list float) :
  List.length (array_set i v a) = List.length a.
Proof.
  revert i; induction a as [|x a IH]; intros [|i]; simpl; auto.
Qed.

Lemma nth_array_set_eq (i : nat) (v d : float) (a : list float) :
  (i < List.length a)%nat -> nth i (array_set i v a) d = v.
Proof.
  revert i; induction a as [|x a IH]; intros [|i] H; simpl in *; try lia; auto.
  apply IH; lia.
Qed.

Lemma nth_array_set_neq (i k : nat) (v d : float) (a : list float) :
  i <> k -> nth i (array_set k v a) d = nth i a d.
Proof.
  revert i k; induction a as [|x a IH]; intros [|i] [|k] H; simpl; auto; try lia.
Qed.

Lemma updateRobotState_joint_ret (i : nat) (s s' : Sim) :
  updateRobotState_joint E i s = (Ret tt, s') ->
  exists j,
    map_find (joint_name (arm_id_ s) i) (joints_ s) = Some (Some j) /\
    arm_id_ s' = arm_id_ s /\ joints_ s' = joints_ s /\
    tau_ext_hat_filtered (robot_state_ s')
      = array_set i (effort j - command j)%float (tau_ext_hat_filtered (robot_state_ s)) /\
    joint_contact (robot_state_ s')
      = array_set i (double_of_bool (isInContact j)) (joint_contact (robot_state_ s)) /\
    joint_collision (robot_state_ s')
      = array_set i (double_of_bool (isInCollision j)) (joint_collision (robot_state_ s)).
Proof.
  unfold updateRobotState_joint, joints_at, joint_name, bind, get; simpl.
  destruct (map_find _ (joints_ s)) as [[j|]|]; simpl; try discriminate.
  intros H. injection H as <-.
  exists j. repeat split; reflexivity.
Qed.

Lemma updateRobotState_loop (n a : nat) (s s' : Sim) :
  for_each_ E (seq a n) (updateRobotState_joint E) s = (Ret tt, s') ->
  arm_id_ s' = arm_id_ s /\ joints_ s' = joints_ s /\
  estimate_sizes (robot_state_ s') = estimate_sizes (robot_state_ s) /\
  (forall i, (i < a)%nat -> estimates (robot_state_ s') i = estimates (robot_state_ s) i) /\
  (forall i, (a <= i < a + n)%nat ->
     (i < List.length (tau_ext_hat_filtered (robot_state_ s)))%nat ->
     (i < List.length (joint_contact (robot_state_ s)))%nat ->
     (i < List.length (joint_collision (robot_state_ s)))%nat ->
     exists j,
       map_find (joint_name (arm_id_ s) i) (joints_ s) = Some (Some j) /\
       estimates (robot_state_ s') i
         = ((effort j - command j)%float,
            double_of_bool (isInContact j), double_of_bool (isInCollision j))).
Proof.
  revert a s; induction n as [|n IH]; intros a s; simpl.
  - intros H. injection H as <-. repeat split; auto. intros i Hi; lia.
  - unfold bind.
    destruct (updateRobotState_joint E a s) as [[[]|e|f] s1] eqn:H1; try discriminate.
    intros H2.
    destruct (updateRobotState_joint_ret _ _ _ H1) as (j & Hj & Ha & Hjs & Ht & Hc & Hk).
    destruct (IH _ _ H2) as (Ha' & Hjs' & Hlen & Hlow & Hhigh).
    assert (Hsz : estimate_sizes (robot_state_ s1) = estimate_sizes (robot_state_ s)).
    { unfold estimate_sizes. rewrite Ht, Hc, Hk, !array_set_length. reflexivity. }
    repeat split.
    + congruence.
    + congruence.
    + congruence.
    + intros i Hi. rewrite Hlow by lia.
      unfold estimates. rewrite Ht, Hc, Hk, !nth_array_set_neq by lia. reflexivity.
    + intros i Hi L1 L2 L3.
      destruct (Nat.eq_dec i a) as [->|Hne].
      * exists j. split; [exact Hj|].
        rewrite Hlow by lia.
        unfold estimates. rewrite Ht, Hc, Hk, !nth_array_set_eq by assumption. reflexivity.
      * unfold estimate_sizes in Hsz. injection Hsz as S1 S2 S3.
        destruct (Hhigh i) as (j' & Hj' & He); try lia.
        exists j'. split; [|exact He]. rewrite <- Ha, <- Hjs. exact Hj'.
Qed.

Lemma updateRobotState_unfold (t : Time) (s : Sim) :
  updateRobotState E t s =
    if (List.length (joints_ s) =? 7)%nat then
      match for_each_ E (seq 0 7) (updateRobotState_joint E) s with
      | (Ret _, s1) =>
          let rs := set_time (franka_Duration t)
                      (set_control_command_success_rate 1 (robot_state_ s1)) in
          match model_ s1 with
          | Some model =>
              (Ret tt, set_robot_state_ (set_O_T_EE (pose_kEndEffector E model rs) rs) s1)
          | None => (Fault null_dereference, set_robot_state_ rs s1)
          end
      | (Throw e, s1) => (Throw e, s1)
      | (Fault f, s1) => (Fault f, s1)
      end
    else (Fault assertion_failed, s).
Proof.
  unfold updateRobotState, bind, get, assert.
  destruct (List.length (joints_ s) =? 7)%nat; [|reflexivity].
  unfold ret at 1.
  destruct (for_each_ E (seq 0 7) (updateRobotState_joint E) s) as [[[]|e|f] s1];
    try reflexivity.
  destruct s1 as [? ? ? ? model ? ? ? ? ? ? ?].
  unfold modify_robot_state, modify, deref; cbn.
  destruct model; reflexivity.
Qed.

Lemma updateRobotState_ret (t : Time) (s s' : Sim) :
  updateRobotState E t s = (Ret tt, s') ->
  List.length (joints_ s) = 7%nat /\
  exists s1,
    for_each_ E (seq 0 7) (updateRobotState_joint E) s = (Ret tt, s1) /\
    estimates (robot_state_ s') = estimates (robot_state_ s1).
Proof.
  rewrite updateRobotState_unfold.
  destruct (List.length (joints_ s) =? 7)%nat eqn:Hlen; [|discriminate].
  destruct (for_each_ E (seq 0 7) (updateRobotState_joint E) s) as [[[]|e|f] s1] eqn:H1;
    try discriminate.
  destruct (model_ s1) as [m|]; [|discriminate].
  intros H.
  pose proof (f_equal (fun r => robot_state_ (snd r)) H) as Hr. cbn in Hr.
  split; [apply Nat.eqb_eq, Hlen|].
  exists s1. split; [reflexivity|]. rewrite <- Hr. reflexivity.
Qed.

Lemma updateRobotState_estimates (t : Time) (s s' : Sim) (i : nat) :
  updateRobotState E t s = (Ret tt, s') ->
  estimate_sizes (robot_state_ s) = (7, 7, 7)%nat ->
  (i < 7)%nat ->
  exists j,
    map_find (joint_name (arm_id_ s) i) (joints_ s) = Some (Some j) /\
    estimates (robot_state_ s') i
      = ((effort j - command j)%float,
         double_of_bool (isInContact j), double_of_bool (isInCollision j)).
Proof.
  intros H Hsz Hi.
  destruct (updateRobotState_ret _ _ _ H) as (_ & s1 & H1 & He).
  destruct (updateRobotState_loop _ _ _ _ H1) as (_ & _ & _ & _ & Hhigh).
  unfold estimate_sizes in Hsz. injection Hsz as S1 S2 S3.
  destruct (Hhigh i) as (j & Hj & Hest); try lia.
  exists j. split; [exact Hj|]. rewrite He. exact Hest.
Qed.

(** C4: after a cycle of the synthesizer that returns, for every index
    [i < 7], with [j] the record of joint ["<arm_id>_joint<i+1>"]:
    [joint_contact[i]] is 1.0 when [|effort - command| > contact_threshold]
    and 0.0 otherwise, and [joint_collision[i]] is 1.0 when
    [|effort - command| > collision_threshold] and 0.0 otherwise; the values
    are those of the record at the time of the cycle. *)
Theorem updateRobotState_contact_collision (t : Time) (s s' : Sim) (i : nat) :
  updateRobotState E t s = (Ret tt, s') ->
  estimate_sizes (robot_state_ s) = (7, 7, 7)%nat ->
  (i < 7)%nat ->
  exists j,
    map_find (joint_name (arm_id_ s) i) (joints_ s) = Some (Some j) /\
    nth i (joint_contact (robot_state_ s')) 0%float
      = (if (contact_threshold j <? PrimFloat.abs (effort j - command j))%float
         then 1%float else 0%float) /\
    nth i (joint_collision (robot_state_ s')) 0%float
      = (if (collision_threshold j <? PrimFloat.abs (effort j - command j))%float
         then 1%float else 0%float).
Proof.
  intros H Hsz Hi.
  destruct (updateRobotState_estimates t s s' i H Hsz Hi) as (j & Hj & He).
  exists j. split; [exact Hj|].
  unfold estimates in He. injection He as _ Hc Hk.
  split; assumption.
Qed.

(** C5: after a cycle of the synthesizer that returns, for every index
    [i < 7], [tau_ext_hat_filtered[i]] is the difference [effort - command]
    of the record of joint ["<arm_id>_joint<i+1>"] and nothing else: it does
    not depend on the robot state the cycle started from. *)
Theorem updateRobotState_tau_ext_unfiltered (t : Time) (s s' : Sim) (i : nat) :
  updateRobotState E t s = (Ret tt, s') ->
  estimate_sizes (robot_state_ s) = (7, 7, 7)%nat ->
  (i < 7)%nat ->
  exists j,
    map_find (joint_name (arm_id_ s) i) (joints_ s) = Some (Some j) /\
    nth i (tau_ext_hat_filtered (robot_state_ s')) 0%float = (effort j - command j)%float.
Proof.
  intros H Hsz Hi.
  destruct (updateRobotState_estimates t s s' i H Hsz Hi) as (j & Hj & He).
  exists j. split; [exact Hj|].
  unfold estimates in He. injection He as Ht _ _. exact Ht.
Qed.

Lemma updateRobotState_assert (t : Time) (s : Sim) :
  List.length (joints_ s) <> 7%nat ->
  updateRobotState E t s = (Fault assertion_failed, s).
Proof.
  intros H. rewrite updateRobotState_unfold.
  apply Nat.eqb_neq in H. rewrite H. reflexivity.
Qed.

(** ** What a computation leaves unchanged *)

Section Preserves.

Context {B : Type} (f : Sim -> B).

Lemma preserves_ret {A} (a : A) : preserves (same f) (ret E a).
Proof. intros s o s' H. injection H as _ <-. reflexivity. Qed.

Lemma preserves_throw {A} (e : exn) : preserves (same f) (throw E (A := A) e).
Proof. intros s o s' H. injection H as _ <-. reflexivity. Qed.

Lemma preserves_abort {A} (x : fault) : preserves (same f) (abort E (A := A) x).
Proof. intros s o s' H. injection H as _ <-. reflexivity. Qed.

Lemma preserves_lift {A} (o : outcome A) : preserves (same f) (lift E o).
Proof. intros s o' s' H. injection H as _ <-. reflexivity. Qed.

Lemma preserves_get : preserves (same f) (get E).
Proof. intros s o s' H. injection H as _ <-. reflexivity. Qed.

Lemma preserves_deref {A} (p : option A) : preserves (same f) (deref E p).
Proof. destruct p; [apply preserves_ret | apply preserves_abort]. Qed.

Lemma preserves_assert (b : bool) : preserves (same f) (assert E b).
Proof. destruct b; [apply preserves_ret | apply preserves_abort]. Qed.

Lemma preserves_modify (g : Sim -> Sim) :
  (forall s, f (g s) = f s) -> preserves (same f) (modify E g).
Proof. intros Hg s o s' H. injection H as _ <-. apply Hg. Qed.

Lemma preserves_bind {A C} (m : M E A) (k : A -> M E C) :
  preserves (same f) m -> (forall a, preserves (same f) (k a)) ->
  preserves (same f) (bind E m k).
Proof.
  intros Hm Hk s o s' H. unfold bind in H.
  destruct (m s) as [[a|e|x] s1] eqn:H1.
  - apply Hk in H. apply Hm in H1. unfold same in *. congruence.
  - injection H as _ <-. exact (Hm _ _ _ H1).
  - injection H as _ <-. exact (Hm _ _ _ H1).
Qed.

Lemma preserves_catch {A} (m : M E A) (h : string -> M E A) :
  preserves (same f) m -> (forall what, preserves (same f) (h what)) ->
  preserves (same f) (catch_invalid_argument E m h).
Proof.
  intros Hm Hh s o s' H. unfold catch_invalid_argument in H.
  destruct (m s) as [[a|[what|what|what]|x] s1] eqn:H1;
    try (injection H as _ <-; exact (Hm _ _ _ H1)).
  apply Hh in H. apply Hm in H1. unfold same in *. congruence.
Qed.

Lemma preserves_for_each_ {A} (l : list A) (body : A -> M E unit) :
  (forall x, preserves (same f) (body x)) -> preserves (same f) (for_each_ E l body).
Proof.
  intros Hb. induction l as [|x l IH]; simpl.
  - apply preserves_ret.
  - apply preserves_bind; [apply Hb | intros _; exact IH].
Qed.

Lemma preserves_for_each {A R} (l : list A) (body : A -> M E (option R)) :
  (forall x, preserves (same f) (body x)) -> preserves (same f) (for_each E l body).
Proof.
  intros Hb. induction l as [|x l IH]; simpl.
  - apply preserves_ret.
  - apply preserves_bind; [apply Hb | intros [v|]; [apply preserves_ret | exact IH]].
Qed.

End Preserves.

Lemma preserves_ROS_LOG {B} (f : Sim -> B) (sev : severity) (msg : string) :
  (forall v s, f (set_rosout v s) = f s) -> preserves (same f) (ROS_LOG E sev msg).
Proof. intros H. apply preserves_modify. intros s. apply H. Qed.

(** ** The calibration invariant *)

Lemma calibrated_calibration (rs rs' : RobotState) :
  calibration rs' = calibration rs -> calibrated rs -> calibrated rs'.
Proof.
  unfold calibration, calibrated. intros H (H1 & H2 & H3).
  injection H as E1 E2 E3 E4 E5 E6 E7 E8 E9 E10 E11.
  repeat split; congruence.
Qed.

Lemma updateRobotState_joint_calibration (i : nat) :
  preserves (same calibration_of) (updateRobotState_joint E i).
Proof.
  unfold updateRobotState_joint, joints_at.
  apply preserves_bind; [apply preserves_get | intros s0].
  apply preserves_bind.
  { apply preserves_bind; [apply preserves_get | intros s1].
    destruct (map_find _ _); [apply preserves_ret | apply preserves_throw]. }
  intros p0.
  apply preserves_bind; [apply preserves_deref | intros j].
  repeat (apply preserves_bind;
          [apply preserves_modify; intros s1; reflexivity | intros _]).
  apply preserves_modify; intros s1; reflexivity.
Qed.

Lemma updateRobotState_calibration (t : Time) :
  preserves (same calibration_of) (updateRobotState E t).
Proof.
  unfold updateRobotState.
  apply preserves_bind; [apply preserves_get | intros s0].
  apply preserves_bind; [apply preserves_assert | intros _].
  apply preserves_bind;
    [apply preserves_for_each_; intros i; apply updateRobotState_joint_calibration
    | intros _].
  apply preserves_bind; [apply preserves_modify; intros s1; reflexivity | intros _].
  apply preserves_bind; [apply preserves_modify; intros s1; reflexivity | intros _].
  apply preserves_bind; [apply preserves_get | intros s1].
  apply preserves_bind; [apply preserves_deref | intros model].
  apply preserves_modify; intros s2; reflexivity.
Qed.

Lemma readSim_calibration (t : Time) (p : ros_Duration) :
  preserves (same calibration_of) (readSim E t p).
Proof.
  unfold readSim.
  apply preserves_bind; [apply preserves_get | intros s0].
  apply preserves_bind; [|intros _; apply updateRobotState_calibration].
  apply preserves_for_each_. intros pair.
  apply preserves_bind; [apply preserves_deref | intros j].
  apply preserves_modify; intros s1; reflexivity.
Qed.

Lemma writeSim_calibration (t : Time) (p : ros_Duration) :
  preserves (same calibration_of) (writeSim E t p).
Proof.
  intros s o s' H.
  destruct (writeSim_frame t p s) as (o' & fs & ls & Hf).
  rewrite (Hf s eq_refl eq_refl eq_refl eq_refl) in H.
  injection H as _ <-. reflexivity.
Qed.

Lemma bind_unfold {A B} (m : M E A) (k : A -> M E B) (s : Sim) :
  bind E m k s =
    match m s with
    | (Ret a, s') => k a s'
    | (Throw e, s') => (Throw e, s')
    | (Fault f, s') => (Fault f, s')
    end.
Proof. reflexivity. Qed.

Lemma modify_robot_state_run (f : RobotState -> RobotState) (s : Sim) :
  modify_robot_state E f s = (Ret tt, set_robot_state_ (f (robot_state_ s)) s).
Proof. reflexivity. Qed.

Lemma readParameters_true (s s' : Sim) :
  readParameters E s = (Ret true, s') -> calibrated (robot_state_ s').
Proof.
  unfold readParameters.
  rewrite bind_unfold, modify_robot_state_run, bind_unfold.
  match goal with
  | |- context [catch_invalid_argument E ?a ?h ?s0] =>
      destruct (catch_invalid_argument E a h s0) as [[[|]|e|f] s1]
  end; try discriminate.
  intros H.
  pose proof (f_equal (fun r => robot_state_ (snd r)) H) as Hr. cbn in Hr.
  rewrite <- Hr. unfold calibrated; cbn. repeat split; reflexivity.
Qed.

(** ** What a computation may return *)

Lemma post_ret {A} (a : A) (Q : A -> Prop) : Q a -> post (ret E a) Q.
Proof. intros HQ s a' s' H. injection H as <- _. exact HQ. Qed.

Lemma post_throw {A} (e : exn) (Q : A -> Prop) : post (throw E e) Q.
Proof. intros s a s' H. discriminate. Qed.

Lemma post_abort {A} (x : fault) (Q : A -> Prop) : post (abort E x) Q.
Proof. intros s a s' H. discriminate. Qed.

Lemma post_bind {A B} (m : M E A) (k : A -> M E B) (P : A -> Prop) (Q : B -> Prop) :
  post m P -> (forall a, P a -> post (k a) Q) -> post (bind E m k) Q.
Proof.
  intros Hm Hk s b s' H. rewrite bind_unfold in H.
  destruct (m s) as [[a|e|x] s1] eqn:H1; try discriminate.
  exact (Hk a (Hm _ _ _ H1) _ _ _ H).
Qed.

Lemma post_true {A} (m : M E A) : post m (fun _ => True).
Proof. intros s a s' _. exact I. Qed.

Lemma post_seq {A B} (m : M E A) (k : A -> M E B) (Q : B -> Prop) :
  (forall a, post (k a) Q) -> post (bind E m k) Q.
Proof. intros Hk. apply (post_bind m k (fun _ => True)); [apply post_true | auto]. Qed.

Lemma post_catch {A} (m : M E A) (h : string -> M E A) (Q : A -> Prop) :
  post m Q -> (forall what, post (h what) Q) -> post (catch_invalid_argument E m h) Q.
Proof.
  intros Hm Hh s a s' H. unfold catch_invalid_argument in H.
  destruct (m s) as [[a1|[what|what|what]|x] s1] eqn:H1; try discriminate.
  - injection H as <- _. exact (Hm _ _ _ H1).
  - exact (Hh _ _ _ _ H).
Qed.

Lemma post_for_each {A R} (l : list A) (body : A -> M E (option R))
    (Q : option R -> Prop) :
  Q None -> (forall x, post (body x) Q) -> post (for_each E l body) Q.
Proof.
  intros HN Hb. induction l as [|x l IH]; simpl.
  - apply post_ret, HN.
  - apply (post_bind _ _ Q); [apply Hb|].
    intros [v|] Hv; [apply post_ret, Hv | exact IH].
Qed.

Ltac post_steps :=
  repeat first
    [ apply post_ret; discriminate
    | apply post_throw
    | apply post_abort
    | apply post_seq; intros ?
    | apply post_catch; [|intros ?]
    | match goal with
      | |- post (match ?x with _ => _ end) _ => destruct x
      end ].

Lemma collectJoint_no_true (parent : ModelPtr) (u : option urdf.Model)
    (t : TransmissionInfo.t) :
  post (collectJoint E parent u t) no_true.
Proof. unfold collectJoint, no_true. post_steps. Qed.

Lemma registerCommandInterface_no_true (u : option urdf.Model) (t : TransmissionInfo.t)
    (k : string) :
  post (registerCommandInterface E u t k) no_true.
Proof. unfold registerCommandInterface, no_true. post_steps. Qed.

Lemma registerCommandInterfaces_no_true (u : option urdf.Model) (t : TransmissionInfo.t) :
  post (registerCommandInterfaces E u t) no_true.
Proof.
  unfold registerCommandInterfaces. apply post_seq; intros joint0.
  apply post_for_each; [discriminate|].
  intros k. apply registerCommandInterface_no_true.
Qed.

Lemma initSim_joints_no_true (ns : string) (parent : ModelPtr) (u : option urdf.Model)
    (ts : list TransmissionInfo.t) :
  post (initSim_joints E ns parent u ts) no_true.
Proof.
  unfold initSim_joints.
  apply post_seq; intros ?.
  apply (post_bind _ _ no_true).
  - apply post_for_each; [discriminate|]. intros t. apply collectJoint_no_true.
  - intros [b|] Hb.
    + apply post_ret, Hb.
    + unfold no_true. post_steps.
Qed.

(** [initSim] returns [true] only through [readParameters]. *)
Lemma initSim_true (ns : string) (parent : ModelPtr) (u : option urdf.Model)
    (ts : list TransmissionInfo.t) (s s' : Sim) :
  initSim E ns parent u ts s = (Ret true, s') ->
  exists s1, readParameters E s1 = (Ret true, s').
Proof.
  unfold initSim. rewrite bind_unfold.
  destruct (initSim_joints E ns parent u ts s) as [[[b|]|e|x] s1] eqn:H1; try discriminate.
  - intros H. injection H as -> _.
    exfalso. exact (initSim_joints_no_true _ _ _ _ _ _ _ H1 eq_refl).
  - rewrite bind_unfold.
    destruct (for_each E ts (registerCommandInterfaces E u) s1) as [[[b|]|e|x] s2] eqn:H2;
      try discriminate.
    + intros H. injection H as -> _.
      exfalso.
      refine (post_for_each ts _ no_true _ _ _ _ _ H2 eq_refl); [discriminate|].
      intros t. apply registerCommandInterfaces_no_true.
    + intros H. eexists. exact H.
Qed.

(** ** Runs of the component *)

(** C3: after a successful initialisation, and from then on after every
    cycle of the synthesizer (and every other step of a run), the robot
    state has [m_total = m_ee + m_load]; [F_T_EE] is the product of the two
    4x4 matrices [F_T_NE] and [NE_T_EE], with [NE_T_EE] on the right: its
    coefficient in row [i] and column [j] is the sum over [k] of
    [F_T_NE(i, k) * NE_T_EE(k, j)]; and [I_total] is [I_ee] shifted by the
    parallel-axis theorem: its coefficient [(i, j)] is that of [I_ee] plus
    [m_ee] times [|p|^2 - p_i^2] on the diagonal and [- p_i p_j] off it,
    where [p] is [F_x_Cload]. *)
Theorem running_calibrated (ns : string) (parent : ModelPtr) (u : option urdf.Model)
    (ts : list TransmissionInfo.t) (s0 s : Sim) :
  running ns parent u ts s0 s ->
  let rs := robot_state_ s in
  let p := F_x_Cload rs in
  m_total rs = (m_ee rs + m_load rs)%float /\
  F_T_EE rs = Matrix4d_mul (F_T_NE rs) (NE_T_EE rs) /\
  (forall i j, (i < 4)%nat -> (j < 4)%nat ->
     Matrix4d_coeff (F_T_EE rs) i j
     = (Matrix4d_coeff (F_T_NE rs) i 0 * Matrix4d_coeff (NE_T_EE rs) 0 j
        + Matrix4d_coeff (F_T_NE rs) i 1 * Matrix4d_coeff (NE_T_EE rs) 1 j
        + Matrix4d_coeff (F_T_NE rs) i 2 * Matrix4d_coeff (NE_T_EE rs) 2 j
        + Matrix4d_coeff (F_T_NE rs) i 3 * Matrix4d_coeff (NE_T_EE rs) 3 j)%float) /\
  I_total rs = shiftInertiaTensor (I_ee rs) (m_ee rs) p /\
  (forall i j, (i < 3)%nat -> (j < 3)%nat ->
     nth (3 * i + j) (I_total rs) 0%float
     = (nth (3 * i + j) (I_ee rs) 0
        + m_ee rs
          * ((if (i =? j)%nat
              then nth 0 p 0 * nth 0 p 0 + nth 1 p 0 * nth 1 p 0 + nth 2 p 0 * nth 2 p 0
              else 0)
             - nth i p 0 * nth j p 0))%float).
Proof.
  intros Hrun rs p.
  assert (Hcal : calibrated rs).
  { subst rs. induction Hrun as [s Hinit | s s' Hrun IH Hstep].
    - destruct (initSim_true _ _ _ _ _ _ Hinit) as [s1 H1].
      exact (readParameters_true _ _ H1).
    - destruct Hstep as [t q s s' H | k v j s Hk Hj | t q s s' H].
      + apply (calibrated_calibration (robot_state_ s)); [|exact IH].
        exact (readSim_calibration t q _ _ _ H).
      + exact IH.
      + apply (calibrated_calibration (robot_state_ s)); [|exact IH].
        exact (writeSim_calibration t q _ _ _ H). }
  destruct Hcal as (Hm & HT & HI).
  split; [exact Hm|]. split; [exact HT|]. split; [|split; [exact HI|]].
  - intros i j Hi Hj.
    refine (eq_trans (f_equal (fun A => Matrix4d_coeff A i j) HT) _).
    destruct i as [|[|[|[|i]]]]; try lia;
      destruct j as [|[|[|[|j]]]]; try lia; reflexivity.
  - intros i j Hi Hj.
    refine (eq_trans (f_equal (fun A => nth (3 * i + j) A 0%float) HI) _).
    destruct i as [|[|[|i]]]; try lia;
      destruct j as [|[|[|j]]]; try lia; reflexivity.
Qed.

(** ** Initialisation *)

Ltac preserves_steps :=
  repeat first
    [ apply preserves_ret
    | apply preserves_throw
    | apply preserves_abort
    | apply preserves_get
    | apply preserves_deref
    | apply preserves_modify; intros ?; reflexivity
    | apply preserves_bind; [|intros ?]
    | match goal with
      | |- preserves _ (match ?x with _ => _ end) => destruct x
      end ].

Lemma collectJoint_registered (parent : ModelPtr) (u : option urdf.Model)
    (t : TransmissionInfo.t) :
  preserves (same registered) (collectJoint E parent u t).
Proof. unfold collectJoint, ROS_LOG. preserves_steps. Qed.

Lemma initSim_begin_registered (ns : string) (parent : ModelPtr) :
  preserves (same registered) (initSim_begin E ns parent).
Proof. unfold initSim_begin, ROS_LOG. preserves_steps. Qed.

Lemma initSim_begin_returns (ns : string) (parent : ModelPtr) (s : Sim) :
  exists s0, initSim_begin E ns parent s = (Ret tt, s0).
Proof.
  unfold initSim_begin. cbn [bind modify get].
  match goal with
  | |- context [if ?b then _ else _] => destruct b
  end; eexists; reflexivity.
Qed.

Lemma collectJoint_returns (parent : ModelPtr) (u : option urdf.Model)
    (t : TransmissionInfo.t) (s : Sim) :
  exists r s', collectJoint E parent u t s = (Ret r, s').
Proof.
  unfold collectJoint.
  repeat match goal with
         | |- context [match ?x with _ => _ end] => destruct x
         end; eexists; eexists; reflexivity.
Qed.

Lemma collectJoint_multi_joint (parent : ModelPtr) (u : option urdf.Model)
    (t : TransmissionInfo.t) (s : Sim) :
  TransmissionInfo.type_ t = SimpleTransmission ->
  (1 < List.length (TransmissionInfo.joints_ t))%nat ->
  collectJoint E parent u t s
    = (Ret (Some false), set_rosout (push_back (rosout s) (multi_joint_warning t)) s).
Proof.
  intros Ht Hn. unfold collectJoint. rewrite Ht, String.eqb_refl. simpl negb. cbv iota.
  destruct (TransmissionInfo.joints_ t) as [|joint0 joints] eqn:Hj; [simpl in Hn; lia|].
  apply Nat.ltb_lt in Hn. rewrite Hn. reflexivity.
Qed.

Lemma collect_loop_multi_joint (parent : ModelPtr) (u : option urdf.Model)
    (ts : list TransmissionInfo.t) (t : TransmissionInfo.t) (s : Sim) :
  In t ts ->
  TransmissionInfo.type_ t = SimpleTransmission ->
  (1 < List.length (TransmissionInfo.joints_ t))%nat ->
  exists s', for_each E ts (collectJoint E parent u) s = (Ret (Some false), s').
Proof.
  intros Hin Ht Hn. revert s. induction ts as [|x ts IH]; intros s; [contradiction|].
  simpl. rewrite bind_unfold.
  destruct (collectJoint_returns parent u x s) as (r & s1 & H1). rewrite H1.
  destruct r as [[|]|].
  - exfalso. exact (collectJoint_no_true _ _ _ _ _ _ H1 eq_refl).
  - eexists; reflexivity.
  - destruct Hin as [->|Hin].
    + rewrite collectJoint_multi_joint in H1 by assumption. discriminate.
    + apply IH, Hin.
Qed.

(** C6 (amended): when some simple transmission lists more than one joint,
    initialisation returns failure, and it has then registered no handle and
    no interface and built no model.  The warning about that transmission is
    what the first loop logs last when every transmission before it was
    accepted; the entry is not skipped. *)
Theorem initSim_rejects_multi_joint_transmission (ns : string) (parent : ModelPtr)
    (u : option urdf.Model) (ts : list TransmissionInfo.t) (t : TransmissionInfo.t)
    (s : Sim) :
  In t ts ->
  TransmissionInfo.type_ t = SimpleTransmission ->
  (1 < List.length (TransmissionInfo.joints_ t))%nat ->
  (exists s', initSim E ns parent u ts s = (Ret false, s') /\ registered s' = registered s)
  /\
  (forall pre rest s0 s1,
     ts = (pre ++ t :: rest)%list ->
     for_each E pre (collectJoint E parent u) s0 = (Ret None, s1) ->
     for_each E ts (collectJoint E parent u) s0
       = (Ret (Some false), set_rosout (push_back (rosout s1) (multi_joint_warning t)) s1)).
Proof.
  intros Hin Ht Hn. split.
  - destruct (initSim_begin_returns ns parent s) as [s0 H0].
    destruct (collect_loop_multi_joint parent u ts t s0 Hin Ht Hn) as [s1 H1].
    exists s1. split.
    + unfold initSim, initSim_joints.
      rewrite !bind_unfold, H0. cbv beta iota.
      rewrite !bind_unfold, H1. reflexivity.
    + pose proof (initSim_begin_registered ns parent _ _ _ H0) as R0.
      pose proof (preserves_for_each registered ts _
                    (collectJoint_registered parent u) _ _ _ H1) as R1.
      unfold same in *. congruence.
  - intros pre rest s0 s1 -> Hpre.
    rewrite for_each_app, Hpre. simpl. rewrite bind_unfold.
    rewrite collectJoint_multi_joint by assumption. reflexivity.
Qed.

(** *** The Franka state and model transmissions *)

Lemma initFrankaStateHandle_count (robot : string) (u : urdf.Model)
    (t : TransmissionInfo.t) (s : Sim) :
  List.length (TransmissionInfo.joints_ t) <> 7%nat ->
  initFrankaStateHandle E robot u t s
    = (Throw (invalid_argument (state_count_error robot t)), s).
Proof.
  intros H. unfold initFrankaStateHandle.
  apply Nat.eqb_neq in H. rewrite H. reflexivity.
Qed.

Lemma initFrankaModelHandle_role (robot : string) (u : urdf.Model)
    (t : TransmissionInfo.t) (s : Sim) :
  find (has_role "root") (TransmissionInfo.joints_ t) = None \/
  find (has_role "tip") (TransmissionInfo.joints_ t) = None ->
  initFrankaModelHandle E robot u t s
    = (Throw (invalid_argument (model_role_error robot u t)), s).
Proof.
  intros H. unfold initFrankaModelHandle, model_role_error, model_count_error.
  destruct (TransmissionInfo.joints_ t) as [|joint0 [|joint1 [|joint2 joints]]] eqn:Hj;
    try reflexivity.
  cbn [List.length Nat.eqb negb for_each_]. rewrite bind_unfold.
  destruct (urdf.getJoint u (JointInfo.name_ joint0)); [|reflexivity].
  destruct (find (has_role "root") [joint0; joint1]) as [root|]; [|reflexivity].
  destruct (find (has_role "tip") [joint0; joint1]) as [tip|]; [|reflexivity].
  destruct H; discriminate.
Qed.

Lemma joints_index_returns (k : string) (s : Sim) :
  exists p s',
    joints_index E k s = (Ret p, s') /\
    rosout s' = rosout s /\ registered s' = registered s /\ arm_id_ s' = arm_id_ s.
Proof.
  unfold joints_index. cbn [bind get].
  destruct (map_find k (joints_ s)); eexists; eexists; (split; [reflexivity|]); auto.
Qed.

Lemma registerCommandInterface_rejects (u : urdf.Model) (t : TransmissionInfo.t)
    (k : string) (s : Sim) (joint0 : JointInfo.t) (joints : list JointInfo.t)
    (what : string -> string) :
  TransmissionInfo.joints_ t = joint0 :: joints ->
  (TransmissionInfo.type_ t = FrankaStateInterface /\
   forall robot s',
     initFrankaStateHandle E robot u t s' = (Throw (invalid_argument (what robot)), s'))
  \/
  (TransmissionInfo.type_ t = FrankaModelInterface /\
   forall robot s',
     initFrankaModelHandle E robot u t s' = (Throw (invalid_argument (what robot)), s')) ->
  exists s',
    registerCommandInterface E (Some u) t k s = (Ret (Some false), s') /\
    rosout s' = (rosout s ++ [found_interface t; (Error, what (arm_id_ s))])%list /\
    registered s' = registered s.
Proof.
  intros Hj Hcase.
  unfold registerCommandInterface, joints_front. rewrite Hj.
  rewrite bind_unfold. cbn [ret]. rewrite bind_unfold.
  destruct (joints_index_returns (JointInfo.name_ joint0) s) as (p & s1 & H1 & L1 & R1 & A1).
  rewrite H1.
  destruct Hcase as [[Ht Hthrow]|[Ht Hthrow]]; rewrite Ht.
  - change (FrankaStateInterface =? SimpleTransmission) with false.
    change (FrankaStateInterface =? FrankaStateInterface) with true.
    cbv iota. rewrite bind_unfold. cbn [ret]. cbv iota.
    rewrite bind_unfold. cbn [ROS_LOG modify].
    unfold catch_invalid_argument. rewrite bind_unfold. cbn [get].
    rewrite bind_unfold. cbn [deref ret]. rewrite bind_unfold.
    rewrite Hthrow.
    eexists. split; [reflexivity|]. split; [|exact R1].
    rewrite <- L1, <- A1. unfold push_back, found_interface.
    rewrite Ht. simpl. rewrite <- app_assoc. reflexivity.
  - change (FrankaModelInterface =? SimpleTransmission) with false.
    change (FrankaModelInterface =? FrankaStateInterface) with false.
    change (FrankaModelInterface =? FrankaModelInterface) with true.
    cbv iota. rewrite bind_unfold. cbn [ret]. cbv iota.
    rewrite bind_unfold. cbn [ROS_LOG modify].
    unfold catch_invalid_argument. rewrite bind_unfold. cbn [get].
    rewrite bind_unfold. cbn [deref ret]. rewrite bind_unfold.
    rewrite Hthrow.
    eexists. split; [reflexivity|]. split; [|exact R1].
    rewrite <- L1, <- A1. unfold push_back, found_interface.
    rewrite Ht. simpl. rewrite <- app_assoc. reflexivity.
Qed.

Lemma initSim_rejects_at (ns : string) (parent : ModelPtr) (u : urdf.Model)
    (ts pre rest : list TransmissionInfo.t) (t : TransmissionInfo.t) (s s1 s2 : Sim)
    (joint0 : JointInfo.t) (joints : list JointInfo.t) (k : string) (ks : list string)
    (what : string -> string) :
  ts = (pre ++ t :: rest)%list ->
  initSim_joints E ns parent (Some u) ts s = (Ret None, s1) ->
  for_each E pre (registerCommandInterfaces E (Some u)) s1 = (Ret None, s2) ->
  TransmissionInfo.joints_ t = joint0 :: joints ->
  JointInfo.hardware_interfaces_ joint0 = k :: ks ->
  (TransmissionInfo.type_ t = FrankaStateInterface /\
   forall robot s',
     initFrankaStateHandle E robot u t s' = (Throw (invalid_argument (what robot)), s'))
  \/
  (TransmissionInfo.type_ t = FrankaModelInterface /\
   forall robot s',
     initFrankaModelHandle E robot u t s' = (Throw (invalid_argument (what robot)), s')) ->
  exists s',
    initSim E ns parent (Some u) ts s = (Ret false, s') /\
    rosout s' = (rosout s2 ++ [found_interface t; (Error, what (arm_id_ s2))])%list /\
    registered s' = registered s2.
Proof.
  intros Hts H1 H2 Hj Hk Hcase.
  destruct (registerCommandInterface_rejects u t k s2 joint0 joints what Hj Hcase)
    as (s' & Hr & Hl & Hreg).
  exists s'. split; [|split; assumption].
  unfold initSim. rewrite bind_unfold, H1. cbv iota. rewrite bind_unfold.
  rewrite Hts, for_each_app, H2. cbn [for_each]. rewrite bind_unfold.
  unfold registerCommandInterfaces at 1. unfold joints_front. rewrite Hj.
  rewrite bind_unfold. cbn [ret]. rewrite Hk. cbn [for_each].
  rewrite bind_unfold, Hr. reflexivity.
Qed.

(** C7 (amended): let initialisation reach a Franka state or model
    transmission [t] (the joints were collected, the transmissions before [t]
    were registered, there is a URDF) whose first joint lists a hardware
    interface.  If [t] is a state transmission that does not list 7 joints,
    initialisation returns failure and the error logged says that 7 are
    required.  If [t] is a model transmission without a "root" or without a
    "tip" joint, initialisation returns failure; the error logged names the
    missing role (root before tip) when [t] lists two joints of which the
    first is in the URDF, and otherwise reports the joint count or the joint
    that the URDF lacks.  In each case nothing is registered for [t]. *)
Theorem initSim_rejects_malformed_franka_transmission (ns : string) (parent : ModelPtr)
    (u : urdf.Model) (ts pre rest : list TransmissionInfo.t) (t : TransmissionInfo.t)
    (s s1 s2 : Sim) (joint0 : JointInfo.t) (joints : list JointInfo.t)
    (k : string) (ks : list string) :
  ts = (pre ++ t :: rest)%list ->
  initSim_joints E ns parent (Some u) ts s = (Ret None, s1) ->
  for_each E pre (registerCommandInterfaces E (Some u)) s1 = (Ret None, s2) ->
  TransmissionInfo.joints_ t = joint0 :: joints ->
  JointInfo.hardware_interfaces_ joint0 = k :: ks ->
  let fails what :=
    exists s',
      initSim E ns parent (Some u) ts s = (Ret false, s') /\
      rosout s' = (rosout s2 ++ [found_interface t; (Error, what)])%list /\
      registered s' = registered s2 in
  let root := find (has_role "root") (TransmissionInfo.joints_ t) in
  let tip := find (has_role "tip") (TransmissionInfo.joints_ t) in
  let in_urdf := urdf.getJoint u (JointInfo.name_ joint0) in
  (TransmissionInfo.type_ t = FrankaStateInterface ->
   List.length (TransmissionInfo.joints_ t) <> 7%nat ->
   fails (state_count_error (arm_id_ s2) t))
  /\
  (TransmissionInfo.type_ t = FrankaModelInterface ->
   root = None \/ tip = None ->
   (List.length (TransmissionInfo.joints_ t) <> 2%nat ->
    fails (model_count_error (arm_id_ s2) t)) /\
   (List.length (TransmissionInfo.joints_ t) = 2%nat -> in_urdf = None ->
    fails (model_urdf_error (arm_id_ s2) (JointInfo.name_ joint0))) /\
   (List.length (TransmissionInfo.joints_ t) = 2%nat -> in_urdf <> None -> root = None ->
    fails (model_root_error (arm_id_ s2))) /\
   (List.length (TransmissionInfo.joints_ t) = 2%nat -> in_urdf <> None -> root <> None ->
    fails (model_tip_error (arm_id_ s2)))).
Proof.
  intros Hts H1 H2 Hj Hk fails root tip in_urdf. split.
  - intros Ht Hn.
    apply (initSim_rejects_at ns parent u ts pre rest t s s1 s2 joint0 joints k ks
             (fun robot => state_count_error robot t)); try assumption.
    left. split; [exact Ht|]. intros robot s'. apply initFrankaStateHandle_count, Hn.
  - intros Ht Hrole.
    assert (Hfails : fails (model_role_error (arm_id_ s2) u t)).
    { apply (initSim_rejects_at ns parent u ts pre rest t s s1 s2 joint0 joints k ks
               (fun robot => model_role_error robot u t)); try assumption.
      right. split; [exact Ht|]. intros robot s'. apply initFrankaModelHandle_role, Hrole. }
    unfold model_role_error in Hfails. rewrite Hj in Hfails.
    unfold root, in_urdf. clear Hrole. clearbody fails. rewrite Hj.
    repeat split.
    + intros Hn. destruct joints as [|joint1 [|joint2 joints]]; try exact Hfails.
      simpl in Hn. lia.
    + intros Hn Hu. destruct joints as [|joint1 [|joint2 joints]]; try discriminate.
      rewrite Hu in Hfails. exact Hfails.
    + intros Hn Hu Hroot. destruct joints as [|joint1 [|joint2 joints]]; try discriminate.
      destruct (urdf.getJoint u (JointInfo.name_ joint0)); [|congruence].
      rewrite Hroot in Hfails. exact Hfails.
    + intros Hn Hu Hroot. destruct joints as [|joint1 [|joint2 joints]]; try discriminate.
      destruct (urdf.getJoint u (JointInfo.name_ joint0)); [|congruence].
      destruct (find (has_role "root") [joint0; joint1]); [exact Hfails | congruence].
Qed.

End Properties.

(** * The properties on the Panda description *)

Local Abbreviation gz := Panda.gazebo_model.
Local Abbreviation description := Panda.urdf_model.

(** C1, as stated, fails: joint [panda_joint1] is commanded NaN; its key
    starts with the prefix and continues with 1, the writer returns, and
    Gazebo receives a force for every arm joint but that one (address 101). *)
Lemma writeSim_nan_command_not_applied :
  let s := Panda.commanded "panda_joint1" nan Panda.ready in
  String.prefix (arm_id_ s ++ "_joint") "panda_joint1" = true /\
  joint_number (arm_id_ s) "panda_joint1" = Ret 1%Z /\
  handle (Panda.joint_of "panda_joint1" s) = 101%nat /\
  fst (writeSim Panda.env 0%Z 0%Z s) = Ret tt /\
  gazebo_forces (snd (writeSim Panda.env 0%Z 0%Z s))
    = [(102%nat, 0%nat, 1%float); (103%nat, 0%nat, 1.5%float); (104%nat, 0%nat, 2%float);
       (105%nat, 0%nat, 2.5%float); (106%nat, 0%nat, 3%float); (107%nat, 0%nat, 3.5%float)].
Proof. vm_compute. repeat split; reflexivity. Qed.

Lemma writeSim_applies_compensated_command_witness :
  let s := Panda.commanded "panda_joint2" 4%float Panda.ready in
  let g := gravity Panda.env Panda.model (robot_state_ s) in
  let l1 := firstn 1 (joints_ s) in
  let l2 := skipn 2 (joints_ s) in
  let s1 := snd (for_each_ Panda.env l1 (writeSim_joint Panda.env g) s) in
  let j := Panda.joint_of "panda_joint2" s in
  exists o forces lines,
    writeSim Panda.env 0%Z 0%Z s
      = (o, effects
              (set_gazebo_forces
                 (push_back (gazebo_forces s1)
                    (handle j, 0%nat, (command j + nth (Z.to_nat (2 - 1)) g 0)%float)) s1)
              forces lines) /\
    for_each_ Panda.env l2 (writeSim_joint Panda.env g) s1 = (o, effects s1 forces lines).
Proof.
  intros s g l1 l2 s1 j.
  assert (Hm : model_ s = Some Panda.model) by (vm_compute; reflexivity).
  assert (Hj : joints_ s = (l1 ++ ("panda_joint2", Some j) :: l2)%list)
    by (vm_compute; reflexivity).
  assert (H1 : for_each_ Panda.env l1
                 (writeSim_joint Panda.env (gravity Panda.env Panda.model (robot_state_ s))) s
               = (Ret tt, s1)).
  { refine (run_eq (for_each_ Panda.env l1 (writeSim_joint Panda.env g) s) (Ret tt) _).
    vm_compute; reflexivity. }
  destruct (writeSim_applies_compensated_command Panda.env 0%Z 0%Z s s1 Panda.model
              l1 l2 "panda_joint2" j Hm Hj H1) as [H _].
  apply (H eq_refl 2%Z eq_refl).
  - lia.
  - vm_compute; reflexivity.
Defined.



Lemma running_calibrated_witness :
  let s1 := snd (readSim Panda.env_with_tool 1000000%Z 1000000%Z Panda.ready_with_tool) in
  let s2 := snd (writeSim Panda.env_with_tool 1000000%Z 1000000%Z s1) in
  let rs := robot_state_ s2 in
  let p := F_x_Cload rs in
  m_total rs = (m_ee rs + m_load rs)%float /\
  F_T_EE rs = Matrix4d_mul (F_T_NE rs) (NE_T_EE rs) /\
  (forall i j, (i < 4)%nat -> (j < 4)%nat ->
     Matrix4d_coeff (F_T_EE rs) i j
     = (Matrix4d_coeff (F_T_NE rs) i 0 * Matrix4d_coeff (NE_T_EE rs) 0 j
        + Matrix4d_coeff (F_T_NE rs) i 1 * Matrix4d_coeff (NE_T_EE rs) 1 j
        + Matrix4d_coeff (F_T_NE rs) i 2 * Matrix4d_coeff (NE_T_EE rs) 2 j
        + Matrix4d_coeff (F_T_NE rs) i 3 * Matrix4d_coeff (NE_T_EE rs) 3 j)%float) /\
  I_total rs = shiftInertiaTensor (I_ee rs) (m_ee rs) p /\
  (forall i j, (i < 3)%nat -> (j < 3)%nat ->
     nth (3 * i + j) (I_total rs) 0%float
     = (nth (3 * i + j) (I_ee rs) 0
        + m_ee rs
          * ((if (i =? j)%nat
              then nth 0 p 0 * nth 0 p 0 + nth 1 p 0 * nth 1 p 0 + nth 2 p 0 * nth 2 p 0
              else 0)
             - nth i p 0 * nth j p 0))%float) /\
  F_T_NE rs = [0; 1; 0; 0; -1; 0; 0; 0; 0; 0; 1; 0; 0; 0; 0.125; 1]%float /\
  NE_T_EE rs = [1; 0; 0; 0; 0; 0; 1; 0; 0; -1; 0; 0; 0.5; 0.25; 0; 1]%float /\
  F_T_EE rs = [0; 1; 0; 0; 0; 0; 1; 0; 1; 0; 0; 0; -0.25; 0.5; 0.125; 1]%float /\
  I_total rs = [0.65625; -0.25; -0.125; -0.25; 0.78125; -0.0625; -0.125; -0.0625; 0.75]%float.
Proof.
  intros s1 s2 rs p.
  assert (Hrun : running "panda" gz (Some description) Panda.transmissions
                   Panda.new_with_tool s2).
  { apply (running_step _ _ _ _ _ s1 s2).
    - apply (running_step _ _ _ _ _ Panda.ready_with_tool s1).
      + apply running_init.
        refine (run_eq (initSim Panda.env_with_tool "panda" gz (Some description)
                          Panda.transmissions Panda.new_with_tool) (Ret true) _).
        vm_compute; reflexivity.
      + apply (step_readSim 1000000%Z 1000000%Z).
        refine (run_eq (readSim Panda.env_with_tool 1000000%Z 1000000%Z
                          Panda.ready_with_tool) (Ret tt) _).
        vm_compute; reflexivity.
    - apply (step_writeSim 1000000%Z 1000000%Z).
      refine (run_eq (writeSim Panda.env_with_tool 1000000%Z 1000000%Z s1) (Ret tt) _).
      vm_compute; reflexivity. }
  destruct (running_calibrated Panda.env_with_tool "panda" gz (Some description)
              Panda.transmissions Panda.new_with_tool s2 Hrun)
    as (Hm & HT & HTij & HI & HIij).
  split; [exact Hm|]. split; [exact HT|]. split; [exact HTij|].
  split; [exact HI|]. split; [exact HIij|].
  repeat split; vm_compute; reflexivity.
Defined.

Lemma updateRobotState_contact_collision_witness :
  let s := Panda.commanded "panda_joint3" 19%float Panda.ready in
  let s' := snd (updateRobotState Panda.env 0%Z s) in
  exists j,
    map_find (joint_name (arm_id_ s) 2) (joints_ s) = Some (Some j) /\
    nth 2 (joint_contact (robot_state_ s')) 0%float
      = (if (contact_threshold j <? PrimFloat.abs (effort j - command j))%float
         then 1%float else 0%float) /\
    nth 2 (joint_collision (robot_state_ s')) 0%float
      = (if (collision_threshold j <? PrimFloat.abs (effort j - command j))%float
         then 1%float else 0%float).
Proof.
  intros s s'.
  apply (updateRobotState_contact_collision Panda.env 0%Z s s' 2).
  - refine (run_eq (updateRobotState Panda.env 0%Z s) (Ret tt) _).
    vm_compute; reflexivity.
  - vm_compute; reflexivity.
  - lia.
Defined.

Lemma updateRobotState_tau_ext_unfiltered_witness :
  let s := Panda.commanded "panda_joint3" 19%float Panda.ready in
  let s' := snd (updateRobotState Panda.env 0%Z s) in
  exists j,
    map_find (joint_name (arm_id_ s) 2) (joints_ s) = Some (Some j) /\
    nth 2 (tau_ext_hat_filtered (robot_state_ s')) 0%float = (effort j - command j)%float.
Proof.
  intros s s'.
  apply (updateRobotState_tau_ext_unfiltered Panda.env 0%Z s s' 2).
  - refine (run_eq (updateRobotState Panda.env 0%Z s) (Ret tt) _).
    vm_compute; reflexivity.
  - vm_compute; reflexivity.
  - lia.
Defined.

(** C6, as stated, fails: the arm alone initialises; with the gripper
    transmission added, which lists two joints, initialisation logs the
    warning and returns failure instead of skipping the entry. *)
Lemma initSim_aborts_on_gripper_transmission :
  let ts := List.app Panda.transmissions [Panda.gripper_transmission] in
  fst (Panda.init gz description Panda.transmissions) = Ret true /\
  TransmissionInfo.type_ Panda.gripper_transmission = SimpleTransmission /\
  List.length (TransmissionInfo.joints_ Panda.gripper_transmission) = 2%nat /\
  fst (Panda.init gz description ts) = Ret false /\
  rosout (snd (Panda.init gz description ts))
    = [(Info, "Using physics type ode");
       (Warn, "Transmission panda_gripper has more than one joint. Currently the franka robot hardware simulation  interface only supports one.")].
Proof. vm_compute. repeat split; reflexivity. Qed.

Lemma initSim_rejects_multi_joint_transmission_witness :
  let ts := List.app Panda.transmissions [Panda.gripper_transmission] in
  exists s',
    initSim Panda.env "panda" gz (Some description) ts Panda.new = (Ret false, s') /\
    registered s' = registered Panda.new.
Proof.
  intros ts.
  apply (initSim_rejects_multi_joint_transmission Panda.env "panda" gz (Some description)
           ts Panda.gripper_transmission Panda.new).
  - vm_compute. repeat (first [left; reflexivity | right]).
  - reflexivity.
  - vm_compute; lia.
Defined.

(** C7, as stated, fails: a model transmission that lists the tip joint
    only lacks the root role; initialisation returns failure, but the error
    logged reports the joint count and names no role. *)
Lemma initSim_count_error_names_no_role :
  let t := Panda.model_transmission [("panda_joint8", "tip")] in
  let r := Panda.init gz description Panda.transmissions_without_root in
  let what := "Cannot create franka_hw/FrankaModelInterface for robot 'panda_model' because 1 joints were found beneath the <transmission> tag, but 2 are required." in
  In t Panda.transmissions_without_root /\
  find (has_role "root") (TransmissionInfo.joints_ t) = None /\
  fst r = Ret false /\
  last (rosout (snd r)) (Info, "") = (Error, what) /\
  contains "root" what = false.
Proof.
  vm_compute. repeat split; try reflexivity.
  repeat (first [left; reflexivity | right]).
Qed.

Lemma initSim_rejects_malformed_franka_transmission_witness :
  let pre := map Panda.effort_transmission Panda.arm_joint_names in
  (let ts := Panda.transmissions_six_joints in
   let t := Panda.state_transmission (firstn 6 Panda.arm_joint_names) in
   let s2 := snd (for_each Panda.env pre
                    (registerCommandInterfaces Panda.env (Some description))
                    (snd (initSim_joints Panda.env "panda" gz (Some description) ts
                            Panda.new))) in
   exists s',
     initSim Panda.env "panda" gz (Some description) ts Panda.new = (Ret false, s') /\
     rosout s'
       = (rosout s2 ++ [found_interface t; (Error, state_count_error (arm_id_ s2) t)])%list /\
     registered s' = registered s2)
  /\
  (let ts := Panda.transmissions_unmarked_root in
   let t := Panda.model_transmission [("panda_joint1", ""); ("panda_joint8", "tip")] in
   let s2 := snd (for_each Panda.env
                    (pre ++ [Panda.state_transmission Panda.arm_joint_names])%list
                    (registerCommandInterfaces Panda.env (Some description))
                    (snd (initSim_joints Panda.env "panda" gz (Some description) ts
                            Panda.new))) in
   exists s',
     initSim Panda.env "panda" gz (Some description) ts Panda.new = (Ret false, s') /\
     rosout s'
       = (rosout s2 ++ [found_interface t; (Error, model_root_error (arm_id_ s2))])%list /\
     registered s' = registered s2).
Proof.
  intros pre. split.
  - intros ts t s2.
    set (s1 := snd (initSim_joints Panda.env "panda" gz (Some description) ts Panda.new)).
    refine (proj1 (initSim_rejects_malformed_franka_transmission Panda.env "panda" gz
                     description ts pre
                     [Panda.model_transmission
                        [("panda_joint1", "root"); ("panda_joint8", "tip")]]
                     t Panda.new s1 s2
                     (JointInfo.mk "panda_joint1" [FrankaStateInterface] "")
                     (map (fun j => JointInfo.mk j [FrankaStateInterface] "")
                        (skipn 1 (firstn 6 Panda.arm_joint_names)))
                     FrankaStateInterface [] _ _ _ _ _) _ _).
    + vm_compute; reflexivity.
    + refine (run_eq (initSim_joints Panda.env "panda" gz (Some description) ts Panda.new)
                (Ret None) _).
      vm_compute; reflexivity.
    + refine (run_eq (for_each Panda.env pre
                        (registerCommandInterfaces Panda.env (Some description)) s1)
                (Ret None) _).
      vm_compute; reflexivity.
    + vm_compute; reflexivity.
    + vm_compute; reflexivity.
    + vm_compute; reflexivity.
    + vm_compute; lia.
  - intros ts t s2.
    set (s1 := snd (initSim_joints Panda.env "panda" gz (Some description) ts Panda.new)).
    set (pre' := (pre ++ [Panda.state_transmission Panda.arm_joint_names])%list).
    refine (proj1 (proj2 (proj2 (proj2
              (initSim_rejects_malformed_franka_transmission Panda.env "panda" gz
                 description ts pre' [] t Panda.new s1 s2
                 (JointInfo.mk "panda_joint1" [FrankaModelInterface] "")
                 [JointInfo.mk "panda_joint8" [FrankaModelInterface] "tip"]
                 FrankaModelInterface [] _ _ _ _ _) _ _))) _ _ _).
    + vm_compute; reflexivity.
    + refine (run_eq (initSim_joints Panda.env "panda" gz (Some description) ts Panda.new)
                (Ret None) _).
      vm_compute; reflexivity.
    + refine (run_eq (for_each Panda.env pre'
                        (registerCommandInterfaces Panda.env (Some description)) s1)
                (Ret None) _).
      vm_compute; reflexivity.
    + vm_compute; reflexivity.
    + vm_compute; reflexivity.
    + vm_compute; reflexivity.
    + left. vm_compute; reflexivity.
    + vm_compute; reflexivity.
    + vm_compute; discriminate.
    + vm_compute; reflexivity.
Defined.

(** C8: the arm with one finger actuated through a simple transmission of
    its own.  The state transmission lists 7 joints and initialisation
    succeeds, yet the joint map holds 8 records and the assertion of the
    synthesizer fails in the first cycle. *)
Theorem updateRobotState_assert_fails_after_init :
  let r := Panda.init gz description Panda.transmissions_with_finger in
  In (Panda.state_transmission Panda.arm_joint_names) Panda.transmissions_with_finger /\
  List.length (TransmissionInfo.joints_ (Panda.state_transmission Panda.arm_joint_names))
    = 7%nat /\
  fst r = Ret true /\
  List.length (joints_ (snd r)) = 8%nat /\
  fst (updateRobotState Panda.env 0%Z (snd r)) = Fault assertion_failed /\
  fst (readSim Panda.env 0%Z 1000000%Z (snd r)) = Fault assertion_failed.
Proof.
  vm_compute. repeat split; try reflexivity.
  repeat (first [left; reflexivity | right]).
Qed.



(** ** Joint names and the numbers read back from them *)

Lemma append_assoc (a b c : string) : (a ++ b) ++ c = a ++ (b ++ c).
Proof. induction a as [|x a IH]; simpl; [reflexivity | rewrite IH; reflexivity]. Qed.

Lemma prefix_append (p x : string) : String.prefix p (p ++ x) = true.
Proof.
  induction p as [|a p IH]; simpl.
  - destruct x; reflexivity.
  - destruct (ascii_dec a a); [exact IH | congruence].
Qed.

Lemma string_drop_append (p x : string) : string_drop (String.length p) (p ++ x) = x.
Proof. induction p as [|a p IH]; simpl; [reflexivity | exact IH]. Qed.

Lemma digit_of_not_sign (c : ascii) (d : Z) :
  digit_of c = Some d -> isspace c = false /\ c <> "-"%char /\ c <> "+"%char.
Proof.
  destruct c as [[] [] [] [] [] [] [] []]; vm_compute; intros H;
    try discriminate; repeat split; discriminate.
Qed.

Lemma stoi_digits (c : ascii) (r : string) (d : Z) :
  digit_of c = Some d ->
  (INT_MIN <= read_digits (String c r) 0 <= INT_MAX)%Z ->
  stoi (String c r) = Ret (read_digits (String c r) 0).
Proof.
  intros Hd Hr.
  destruct (digit_of_not_sign c d Hd) as (Hs & Hm & Hp).
  unfold stoi. cbn [skip_spaces]. rewrite Hs.
  assert (Hsign : match String c r with
                  | String "-"%char r0 => (true, r0)
                  | String "+"%char r0 => (false, r0)
                  | _ => (false, String c r)
                  end = (false, String c r)).
  { destruct c as [[] [] [] [] [] [] [] []]; try reflexivity; congruence. }
  rewrite Hsign. cbn [starts_with_digit]. rewrite Hd.
  replace ((INT_MIN <=? read_digits (String c r) 0) && (read_digits (String c r) 0 <=? INT_MAX))%Z
    with true; [reflexivity|].
  symmetry. apply andb_true_iff. split; apply Z.leb_le; lia.
Qed.

Lemma read_digits_of_uint (d : Decimal.uint) (acc : nat) :
  read_digits (NilEmpty.string_of_uint d) (Z.of_nat acc) = Z.of_nat (Nat.of_uint_acc d acc).
Proof.
  revert acc. induction d as [|d IH|d IH|d IH|d IH|d IH|d IH|d IH|d IH|d IH|d IH];
    intros acc; cbn [NilEmpty.string_of_uint read_digits Nat.of_uint_acc];
    [reflexivity|..];
    match goal with
    | |- context [digit_of ?c] =>
        let v := eval vm_compute in (digit_of c) in change (digit_of c) with v
    end;
    cbv iota; rewrite <- IH; f_equal; rewrite Nat.tail_mul_spec; lia.
Qed.

Lemma to_string_head (n : nat) :
  exists c r d, to_string n = String c r /\ digit_of c = Some d.
Proof.
  unfold to_string.
  destruct (Nat.to_uint n) as [|d|d|d|d|d|d|d|d|d|d] eqn:Hd;
    cbn [NilZero.string_of_uint NilEmpty.string_of_uint];
    eexists; eexists; eexists; (split; [reflexivity | vm_compute; reflexivity]).
Qed.

Lemma read_digits_to_string (n : nat) : read_digits (to_string n) 0 = Z.of_nat n.
Proof.
  unfold to_string.
  assert (H : read_digits (NilEmpty.string_of_uint (Nat.to_uint n)) 0 = Z.of_nat n).
  { change 0%Z with (Z.of_nat 0). rewrite read_digits_of_uint.
    change (Nat.of_uint_acc (Nat.to_uint n) 0) with (Nat.of_uint (Nat.to_uint n)).
    rewrite Unsigned.of_to. reflexivity. }
  destruct (Nat.to_uint n) eqn:Hd; exact H.
Qed.

(** [std::stoi(std::to_string(n))] gives [n] back. *)
Lemma stoi_to_string (n : nat) :
  (Z.of_nat n <= INT_MAX)%Z -> stoi (to_string n) = Ret (Z.of_nat n).
Proof.
  intros Hn.
  destruct (to_string_head n) as (c & r & d & Hs & Hd).
  pose proof (read_digits_to_string n) as Hr. rewrite Hs in *.
  rewrite (stoi_digits c r d Hd); [rewrite Hr; reflexivity|].
  rewrite Hr. unfold INT_MIN. lia.
Qed.

Lemma joint_name_prefix (arm_id : string) (i : nat) :
  String.prefix (arm_id ++ "_joint") (joint_name arm_id i) = true.
Proof. unfold joint_name. rewrite <- append_assoc. apply prefix_append. Qed.

Lemma joint_number_joint_name (arm_id : string) (i : nat) :
  (Z.of_nat i < INT_MAX)%Z ->
  joint_number arm_id (joint_name arm_id i) = Ret (Z.of_nat i + 1)%Z.
Proof.
  intros Hi. unfold joint_number, joint_name.
  rewrite <- append_assoc, string_drop_append, stoi_to_string by lia.
  f_equal. lia.
Qed.

Lemma joint_name_inj (arm_id : string) (i k : nat) :
  (i < 7)%nat -> (k < 7)%nat -> joint_name arm_id i = joint_name arm_id k -> i = k.
Proof.
  intros Hi Hk H.
  pose proof (joint_number_joint_name arm_id i) as Ni.
  pose proof (joint_number_joint_name arm_id k) as Nk.
  unfold INT_MAX in *.
  rewrite H, Nk in Ni by lia.
  assert (E : Ret (Z.of_nat k + 1)%Z = Ret (Z.of_nat i + 1)%Z) by (apply Ni; lia).
  injection E. lia.
Qed.

Lemma joint_name_ok_joint_name (arm_id : string) (i : nat) :
  (i < 7)%nat -> joint_name_ok arm_id (joint_name arm_id i) = true.
Proof.
  intros Hi. unfold joint_name_ok.
  rewrite joint_name_prefix, joint_number_joint_name by (unfold INT_MAX; lia).
  apply andb_true_iff; split; apply Z.leb_le; lia.
Qed.

(** The joint that the synthesizer and the parameter loader look up for the
    index [i] is the one to which the writer adds [gravity[i]]: the number the
    writer reads back from the name built with [std::to_string(i + 1)] is
    [i + 1].  Past the seventh joint the lookup in the gravity vector throws. *)
Theorem effective_command_joint_name (arm_id : string) (g : list float) (c : float)
    (i : nat) :
  (Z.of_nat i < INT_MAX)%Z ->
  joint_number arm_id (joint_name arm_id i) = Ret (Z.of_nat i + 1)%Z /\
  effective_command arm_id g (joint_name arm_id i) c
    = if (i <? 7)%nat then Ret (c + nth i g 0)%float
      else Throw (out_of_range "array::at").
Proof.
  intros Hi. split; [apply joint_number_joint_name, Hi|].
  rewrite effective_command_prefix by apply joint_name_prefix.
  rewrite joint_number_joint_name by exact Hi.
  destruct (i <? 7)%nat eqn:H7.
  - apply Nat.ltb_lt in H7. rewrite int_sub_1 by lia.
    unfold array_at.
    replace ((0 <=? Z.of_nat i + 1 - 1) && (Z.of_nat i + 1 - 1 <? Z.of_nat 7))%Z with true.
    + replace (Z.to_nat (Z.of_nat i + 1 - 1)) with i by lia. reflexivity.
    + symmetry; apply andb_true_iff; split; [apply Z.leb_le | apply Z.ltb_lt]; lia.
  - apply Nat.ltb_ge in H7.
    rewrite array_at_out_of_range; [reflexivity | unfold INT_MIN, INT_MAX in *; lia | lia].
Qed.

(** * The cycle as a whole *)

(** ** Arrays written index by index *)

Lemma set_each_length (i : nat) (vs : list float) (arrays : list (list float)) :
  List.length vs = List.length arrays ->
  map (@List.length float) (set_each i vs arrays) = map (@List.length float) arrays.
Proof.
  unfold set_each. revert vs; induction arrays as [|a arrays IH]; intros [|v vs] H;
    try discriminate; simpl; [reflexivity|].
  rewrite array_set_length, IH by (simpl in H; lia). reflexivity.
Qed.

Lemma each_nth_set_each_neq (i k : nat) (vs : list float) (arrays : list (list float)) :
  List.length vs = List.length arrays -> i <> k ->
  each_nth k (set_each i vs arrays) = each_nth k arrays.
Proof.
  unfold set_each, each_nth. intros H Hik.
  revert vs H; induction arrays as [|a arrays IH]; intros [|v vs] H;
    try discriminate; simpl; [reflexivity|].
  rewrite nth_array_set_neq, IH by (simpl in H; lia). reflexivity.
Qed.

Lemma each_nth_set_each_eq (i : nat) (vs : list float) (arrays : list (list float)) :
  List.length vs = List.length arrays ->
  Forall (fun a => i < List.length a)%nat arrays ->
  each_nth i (set_each i vs arrays) = vs.
Proof.
  unfold set_each, each_nth. intros H Hlen.
  revert vs H; induction Hlen as [|a arrays Ha Hlen IH]; intros [|v vs] H;
    try discriminate; simpl; [reflexivity|].
  rewrite nth_array_set_eq, IH by (simpl in H; lia || assumption). reflexivity.
Qed.

(** Arrays given column by column are the rows of the records they were
    taken from. *)
Lemma arrays_of_records {A} (d : A) (fields : list (A -> float)) (l : list A) :
  forall arrays : list (list float),
    List.length arrays = List.length fields ->
    Forall (fun a => List.length a = List.length l) arrays ->
    (forall i, (i < List.length l)%nat ->
       each_nth i arrays = map (fun f => f (nth i l d)) fields) ->
    arrays = map (fun f => map f l) fields.
Proof.
  induction fields as [|f fields IH]; intros [|a arrays] Hn Hlen Hrow; try discriminate;
    [reflexivity|].
  inversion Hlen as [|? ? Ha Hlen']; subst.
  simpl. f_equal.
  - apply (nth_ext _ _ 0%float (f d)).
    + rewrite length_map. exact Ha.
    + intros i Hi. rewrite Ha in Hi.
      specialize (Hrow i Hi). unfold each_nth in Hrow. simpl in Hrow.
      injection Hrow as Hrow _. rewrite Hrow.
      rewrite (map_nth f l d i). reflexivity.
  - apply IH; [simpl in Hn; lia | exact Hlen'|].
    intros i Hi. specialize (Hrow i Hi). unfold each_nth in *. simpl in Hrow.
    injection Hrow as _ Hrow. exact Hrow.
Qed.

(** ** The joint map *)

Lemma map_store_keys (k : string) (j : Joint) (m : JointMap) :
  keys (map_store k j m) = keys m.
Proof.
  unfold keys. induction m as [|[k' v] m IH]; simpl; [reflexivity|].
  destruct (String.eqb k' k); simpl; [reflexivity | rewrite IH; reflexivity].
Qed.

Lemma map_find_keys (k : string) (m : JointMap) (v : option Joint) :
  map_find k m = Some v -> In k (keys m).
Proof.
  unfold keys. induction m as [|[k' v'] m IH]; simpl; [discriminate|].
  destruct (String.eqb k' k) eqn:Hk.
  - intros _. left. apply String.eqb_eq, Hk.
  - intros H. right. exact (IH H).
Qed.

Lemma map_find_In (k : string) (m : JointMap) (v v' : option Joint) :
  NoDup (keys m) -> In (k, v) m -> map_find k m = Some v' -> v = v'.
Proof.
  unfold keys. induction m as [|[k' w] m IH]; simpl; [contradiction|].
  intros Hnd [Hin|Hin].
  - injection Hin as -> ->. rewrite String.eqb_refl. congruence.
  - inversion Hnd as [|? ? Hk Hnd']; subst.
    destruct (String.eqb k' k) eqn:Hkk.
    + apply String.eqb_eq in Hkk; subst k'.
      exfalso. apply Hk. exact (in_map fst _ _ Hin).
    + apply IH; assumption.
Qed.

Lemma map_store_app (k : string) (j j' : Joint) (l1 l2 : JointMap) :
  ~ In k (keys l1) ->
  map_store k j' (l1 ++ (k, Some j) :: l2)%list = (l1 ++ (k, Some j') :: l2)%list.
Proof.
  unfold keys. induction l1 as [|[k' v] l1 IH]; simpl; intros Hk.
  - rewrite String.eqb_refl. reflexivity.
  - destruct (String.eqb k' k) eqn:Hkk.
    + apply String.eqb_eq in Hkk. exfalso. apply Hk. left. exact Hkk.
    + rewrite IH by tauto. reflexivity.
Qed.

(** One step of a proof that a computation leaves a part of the state as it
    found it, read off the head of the computation. *)
Ltac frame_step :=
  lazymatch goal with
  | |- preserves _ (bind _ _ _) => apply preserves_bind; [|intros ?]
  | |- preserves _ (ret _ _) => apply preserves_ret
  | |- preserves _ (throw _ _) => apply preserves_throw
  | |- preserves _ (abort _ _) => apply preserves_abort
  | |- preserves _ (get _) => apply preserves_get
  | |- preserves _ (deref _ _) => apply preserves_deref
  | |- preserves _ (assert _ _) => apply preserves_assert
  | |- preserves _ (lift _ _) => apply preserves_lift
  | |- preserves _ (for_each _ _ _) => apply preserves_for_each; intros ?
  | |- preserves _ (for_each_ _ _ _) => apply preserves_for_each_; intros ?
  | |- preserves _ (catch_invalid_argument _ _ _) => apply preserves_catch; [|intros ?]
  | |- preserves _ (modify _ _) => apply preserves_modify; intros ?
  | |- preserves _ (match ?x with _ => _ end) => destruct x
  end.

Ltac unfold_init :=
  unfold initSim, initSim_joints, initSim_begin, collectJoint, initJointStateHandle,
    registerCommandInterfaces, registerCommandInterface, joints_front,
    initEffortCommandHandle, initFrankaStateHandle, initFrankaModelHandle,
    registerInterface, readParameters, assign_threshold, joints_index, readArray_,
    ROS_LOG, modify_robot_state.

Ltac unfold_cycle :=
  unfold readSim, updateRobotState, updateRobotState_joint, joints_at, ROS_LOG,
    modify_robot_state.

Section Cycle.

Context (E : Env).

Local Abbreviation Sim := (FrankaHWSim E).

Lemma initSim_forces (ns : string) (parent : ModelPtr) (u : option urdf.Model)
    (ts : list TransmissionInfo.t) :
  preserves (same gazebo_forces) (initSim E ns parent u ts).
Proof. unfold_init. repeat frame_step; reflexivity. Qed.

Lemma readSim_frame (t : Time) (p : ros_Duration) :
  preserves (same but_joint_records_and_robot_state) (readSim E t p).
Proof.
  unfold_cycle. repeat frame_step; try reflexivity.
  unfold but_joint_records_and_robot_state. cbn. rewrite map_store_keys. reflexivity.
Qed.

Lemma updateRobotState_joint_inputs (i : nat) :
  preserves (same synthesizer_inputs) (updateRobotState_joint E i).
Proof. unfold_cycle. repeat frame_step; reflexivity. Qed.

Lemma updateRobotState_loop_inputs (l : list nat) :
  preserves (same synthesizer_inputs) (for_each_ E l (updateRobotState_joint E)).
Proof. apply preserves_for_each_. intros i. apply updateRobotState_joint_inputs. Qed.

(** The three ways the body of the loop can end, by what [joints_.at] finds. *)
Lemma updateRobotState_joint_cases (i : nat) (s : Sim) :
  match map_find (joint_name (arm_id_ s) i) (joints_ s) with
  | Some (Some j) =>
      exists rs,
        updateRobotState_joint E i s = (Ret tt, set_robot_state_ rs s) /\
        measured_arrays rs
          = set_each i (measured_values j) (measured_arrays (robot_state_ s))
  | Some None => updateRobotState_joint E i s = (Fault null_dereference, s)
  | None => updateRobotState_joint E i s = (Throw (out_of_range "map::at"), s)
  end.
Proof.
  unfold updateRobotState_joint, joints_at, joint_name, bind, get; simpl.
  destruct (map_find _ (joints_ s)) as [[j|]|]; simpl; try reflexivity.
  eexists. split; reflexivity.
Qed.

Lemma updateRobotState_joint_found (i : nat) (s s' : Sim) :
  updateRobotState_joint E i s = (Ret tt, s') ->
  exists j rs,
    map_find (joint_name (arm_id_ s) i) (joints_ s) = Some (Some j) /\
    s' = set_robot_state_ rs s /\
    measured_arrays rs = set_each i (measured_values j) (measured_arrays (robot_state_ s)).
Proof.
  pose proof (updateRobotState_joint_cases i s) as H.
  destruct (map_find _ (joints_ s)) as [[j|]|].
  - destruct H as (rs & Hrun & Hrs). rewrite Hrun. intros Heq.
    exists j, rs. repeat split; [congruence | exact Hrs].
  - rewrite H. discriminate.
  - rewrite H. discriminate.
Qed.

(** The loop of the synthesizer over the indices [a], ..., [a + n - 1]. *)
Lemma updateRobotState_loop_measured (n a : nat) (s s' : Sim) :
  for_each_ E (seq a n) (updateRobotState_joint E) s = (Ret tt, s') ->
  map (@List.length float) (measured_arrays (robot_state_ s'))
    = map (@List.length float) (measured_arrays (robot_state_ s)) /\
  (forall i, (i < a)%nat ->
     each_nth i (measured_arrays (robot_state_ s'))
       = each_nth i (measured_arrays (robot_state_ s))) /\
  (forall i, (a <= i < a + n)%nat ->
     exists j,
       map_find (joint_name (arm_id_ s) i) (joints_ s) = Some (Some j) /\
       (Forall (fun arr => i < List.length arr)%nat (measured_arrays (robot_state_ s)) ->
        each_nth i (measured_arrays (robot_state_ s')) = measured_values j)).
Proof.
  revert a s; induction n as [|n IH]; intros a s; cbn [seq for_each_].
  - intros H. injection H as <-. repeat split; auto. intros i Hi; lia.
  - rewrite bind_unfold.
    destruct (updateRobotState_joint E a s) as [[[]|e|f] s1] eqn:H1; try discriminate.
    intros H2.
    destruct (updateRobotState_joint_found _ _ _ H1) as (j & rs & Hj & -> & Hrs).
    destruct (IH _ _ H2) as (Hlen & Hlow & Hhigh).
    change (robot_state_ (set_robot_state_ rs s)) with rs in *.
    change (arm_id_ (set_robot_state_ rs s)) with (arm_id_ s) in *.
    change (joints_ (set_robot_state_ rs s)) with (joints_ s) in *.
    assert (Hsz : map (@List.length float) (measured_arrays rs)
                  = map (@List.length float) (measured_arrays (robot_state_ s))).
    { rewrite Hrs. apply set_each_length. reflexivity. }
    repeat split.
    + exact (eq_trans Hlen Hsz).
    + intros i Hi. rewrite Hlow by lia.
      rewrite Hrs. apply each_nth_set_each_neq; [reflexivity | lia].
    + intros i Hi.
      destruct (Nat.eq_dec i a) as [->|Hne].
      * exists j. split; [exact Hj|]. intros Hall.
        rewrite Hlow by lia. rewrite Hrs.
        apply each_nth_set_each_eq; [reflexivity | exact Hall].
      * destruct (Hhigh i) as (j' & Hj' & He); [lia|].
        exists j'. split; [exact Hj'|]. intros Hall. apply He.
        apply Forall_forall. intros arr Harr.
        apply (in_map (@List.length float)) in Harr. rewrite Hsz in Harr.
        apply in_map_iff in Harr. destruct Harr as (arr' & Heq & Harr').
        rewrite <- Heq. exact (proj1 (Forall_forall _ _) Hall arr' Harr').
Qed.

Lemma updateRobotState_loop_runs (n a : nat) (s : Sim) :
  (forall i, (a <= i < a + n)%nat ->
     exists j, map_find (joint_name (arm_id_ s) i) (joints_ s) = Some (Some j)) ->
  exists s', for_each_ E (seq a n) (updateRobotState_joint E) s = (Ret tt, s').
Proof.
  revert a s; induction n as [|n IH]; intros a s Hall; cbn [seq for_each_].
  - eexists; reflexivity.
  - rewrite bind_unfold.
    destruct (Hall a) as (j & Hj); [lia|].
    pose proof (updateRobotState_joint_cases a s) as H. rewrite Hj in H.
    destruct H as (rs & -> & _).
    apply IH. intros i Hi. apply Hall. lia.
Qed.

(** When the synthesizer returns: the loop returned, the model is there, and
    the robot state is that of the loop with the three last assignments. *)
Lemma updateRobotState_returns (t : Time) (s s' : Sim) :
  updateRobotState E t s = (Ret tt, s') ->
  List.length (joints_ s) = 7%nat /\
  exists s1 m,
    for_each_ E (seq 0 7) (updateRobotState_joint E) s = (Ret tt, s1) /\
    model_ s = Some m /\
    synthesizer_inputs s1 = synthesizer_inputs s /\
    arm_id_ s' = arm_id_ s /\ joints_ s' = joints_ s /\ model_ s' = model_ s /\
    robot_state_ s'
      = (let rs := set_time (franka_Duration t)
                     (set_control_command_success_rate 1 (robot_state_ s1)) in
         set_O_T_EE (pose_kEndEffector E m rs) rs).
Proof.
  rewrite updateRobotState_unfold.
  destruct (List.length (joints_ s) =? 7)%nat eqn:Hlen; [|discriminate].
  destruct (for_each_ E (seq 0 7) (updateRobotState_joint E) s) as [[[]|e|f] s1] eqn:H1;
    try discriminate.
  pose proof (updateRobotState_loop_inputs _ _ _ _ H1) as Hin.
  unfold same in Hin.
  destruct (model_ s1) as [m|] eqn:Hm; [|discriminate].
  intros H.
  assert (Hs' : s' = set_robot_state_
                       (let rs := set_time (franka_Duration t)
                                    (set_control_command_success_rate 1 (robot_state_ s1)) in
                        set_O_T_EE (pose_kEndEffector E m rs) rs) s1) by congruence.
  pose proof (f_equal (fun x => fst (fst (fst x))) Hin) as Ha.
  pose proof (f_equal (fun x => snd (fst (fst x))) Hin) as Hj.
  pose proof (f_equal (fun x => snd (fst x)) Hin) as Hmod.
  cbn in Ha, Hj, Hmod.
  split; [apply Nat.eqb_eq, Hlen|].
  exists s1, m. rewrite Hs'. cbn.
  repeat split; try assumption; congruence.
Qed.

(** The keys of the joint map of a state in which the synthesizer finds its
    seven records in a map of size seven: the seven arm names, once each,
    none with a null record. *)
Lemma arm_joints_only (s : Sim) :
  List.length (joints_ s) = 7%nat ->
  (forall i, (i < 7)%nat ->
     exists j, map_find (joint_name (arm_id_ s) i) (joints_ s) = Some (Some j)) ->
  NoDup (keys (joints_ s)) /\
  forall k v, In (k, v) (joints_ s) ->
    exists i j, (i < 7)%nat /\ k = joint_name (arm_id_ s) i /\ v = Some j.
Proof.
  intros Hlen Hall.
  set (names := map (joint_name (arm_id_ s)) (seq 0 7)).
  assert (Hnd : NoDup names).
  { apply NoDup_map_NoDup_ForallPairs; [|apply seq_NoDup].
    intros i k Hi Hk. apply in_seq in Hi, Hk. apply joint_name_inj; lia. }
  assert (Hincl : incl names (keys (joints_ s))).
  { intros k Hk. apply in_map_iff in Hk. destruct Hk as (i & <- & Hi).
    apply in_seq in Hi. destruct (Hall i) as (j & Hj); [lia|].
    exact (map_find_keys _ _ _ Hj). }
  assert (Hle : (List.length (keys (joints_ s)) <= List.length names)%nat).
  { unfold keys, names. rewrite !length_map, length_seq, Hlen. lia. }
  assert (Hnd' : NoDup (keys (joints_ s))).
  { revert Hnd Hle Hincl. apply NoDup_incl_NoDup. }
  assert (Hback : incl (keys (joints_ s)) names).
  { revert Hnd Hle Hincl. apply NoDup_length_incl. }
  split; [exact Hnd'|].
  intros k v Hin.
  assert (Hk : In k names) by exact (Hback _ (in_map fst _ _ Hin)).
  apply in_map_iff in Hk. destruct Hk as (i & <- & Hi). apply in_seq in Hi.
  destruct (Hall i) as (j & Hj); [lia|].
  exists i, j. repeat split; [lia|].
  exact (map_find_In _ _ _ _ Hnd' Hin Hj).
Qed.

Lemma updateRobotState_found (t : Time) (s s' : Sim) :
  updateRobotState E t s = (Ret tt, s') ->
  forall i, (i < 7)%nat ->
    exists j, map_find (joint_name (arm_id_ s) i) (joints_ s) = Some (Some j).
Proof.
  intros H i Hi.
  destruct (updateRobotState_returns _ _ _ H) as (_ & s1 & m & H1 & _).
  destruct (updateRobotState_loop_measured _ _ _ _ H1) as (_ & _ & Hhigh).
  destruct (Hhigh i) as (j & Hj & _); [lia|].
  exists j. exact Hj.
Qed.

Lemma updateRobotState_runs (t : Time) (s : Sim) :
  List.length (joints_ s) = 7%nat ->
  (forall i, (i < 7)%nat ->
     exists j, map_find (joint_name (arm_id_ s) i) (joints_ s) = Some (Some j)) ->
  model_ s <> None ->
  exists s', updateRobotState E t s = (Ret tt, s').
Proof.
  intros Hlen Hall Hm.
  destruct (updateRobotState_loop_runs 7 0 s) as [s1 H1].
  { intros i Hi. apply Hall. lia. }
  pose proof (updateRobotState_loop_inputs _ _ _ _ H1) as Hin.
  pose proof (f_equal (fun x => snd (fst x)) Hin) as Hmod. cbn in Hmod.
  rewrite updateRobotState_unfold, H1.
  apply Nat.eqb_eq in Hlen. rewrite Hlen.
  destruct (model_ s1) as [m|]; [|congruence].
  eexists. reflexivity.
Qed.

(** The synthesizer returns exactly when the joint map holds seven entries,
    each of the seven names ["<arm_id>_joint1"], ..., ["<arm_id>_joint7"] is
    found in it with a record, and the model has been built. *)
Theorem updateRobotState_returns_iff (t : Time) (s : Sim) :
  (exists s', updateRobotState E t s = (Ret tt, s'))
  <->
  (List.length (joints_ s) = 7%nat /\
   (forall i, (i < 7)%nat ->
      exists j, map_find (joint_name (arm_id_ s) i) (joints_ s) = Some (Some j)) /\
   model_ s <> None).
Proof.
  split.
  - intros [s' H].
    pose proof (updateRobotState_found _ _ _ H) as Hall.
    destruct (updateRobotState_returns _ _ _ H) as (Hlen & s1 & m & _ & Hm & _).
    repeat split; [exact Hlen | exact Hall | congruence].
  - intros (Hlen & Hall & Hm). apply updateRobotState_runs; assumption.
Qed.

(** After a cycle of the synthesizer that returns, the ten measurement
    arrays are the columns of the seven arm records, in the order of the
    joint numbers: [q], [q_d] and [theta] hold the positions, [dq], [dq_d]
    and [dtheta] the velocities, [tau_J] the efforts, [dtau_J] the jerks,
    [ddq_d] the accelerations and [tau_J_d] the commands.  Nothing of the
    arrays the cycle started from is left. *)
Theorem updateRobotState_measured_arrays (t : Time) (s s' : Sim) :
  updateRobotState E t s = (Ret tt, s') ->
  Forall (fun a => List.length a = 7%nat) (measured_arrays (robot_state_ s)) ->
  exists js,
    Forall2 (fun i j => map_find (joint_name (arm_id_ s) i) (joints_ s) = Some (Some j))
      (seq 0 7) js /\
    measured_arrays (robot_state_ s') = map (fun f => map f js) measured_fields.
Proof.
  intros H Hsz.
  destruct (updateRobotState_returns _ _ _ H) as (_ & s1 & m & H1 & _ & _ & _ & _ & _ & Hrs).
  destruct (updateRobotState_loop_measured _ _ _ _ H1) as (Hlen & _ & Hhigh).
  set (record := fun i => match map_find (joint_name (arm_id_ s) i) (joints_ s) with
                          | Some (Some j) => j
                          | _ => Joint_new E
                          end).
  assert (Hrec : forall i, (i < 7)%nat ->
            map_find (joint_name (arm_id_ s) i) (joints_ s) = Some (Some (record i)) /\
            each_nth i (measured_arrays (robot_state_ s1)) = measured_values (record i)).
  { intros i Hi. destruct (Hhigh i) as (j & Hj & Hrow); [lia|].
    unfold record. rewrite Hj. split; [reflexivity|].
    apply Hrow. revert Hsz. apply Forall_impl. intros a Ha. lia. }
  exists (map record (seq 0 7)). split.
  - assert (Hall : forall l, (forall i, In i l -> (i < 7)%nat) ->
              Forall2 (fun i j => map_find (joint_name (arm_id_ s) i) (joints_ s)
                                  = Some (Some j)) l (map record l)).
    { induction l as [|i l IH]; intros Hl; simpl; constructor.
      - apply Hrec, Hl. left; reflexivity.
      - apply IH. intros k Hk. apply Hl. right; exact Hk. }
    apply Hall. intros i Hi. apply in_seq in Hi. lia.
  - replace (measured_arrays (robot_state_ s')) with (measured_arrays (robot_state_ s1))
      by (rewrite Hrs; reflexivity).
    apply (arrays_of_records (Joint_new E)).
    + reflexivity.
    + rewrite length_map, length_seq.
      apply Forall_forall. intros a Ha.
      apply (in_map (@List.length float)) in Ha. rewrite Hlen in Ha.
      apply in_map_iff in Ha. destruct Ha as (a' & <- & Ha').
      exact (proj1 (Forall_forall _ _) Hsz a' Ha').
    + rewrite length_map, length_seq. intros i Hi.
      destruct (Hrec i Hi) as [_ Hrow]. rewrite Hrow.
      unfold measured_values.
      rewrite (nth_indep _ (Joint_new E) (record 0%nat))
        by (rewrite length_map, length_seq; exact Hi).
      rewrite (map_nth record (seq 0 7) 0%nat i), seq_nth by exact Hi.
      reflexivity.
Qed.

(** After a cycle of the synthesizer that returns, the success rate is 1,
    the time is the given one in milliseconds, and the pose of the end
    effector is the one the model gives for the robot state as the cycle
    leaves it, but for the pose itself, which is still that of the cycle
    before: the pose is computed last, from the measurements of this
    cycle. *)
Theorem updateRobotState_pose (t : Time) (s s' : Sim) :
  updateRobotState E t s = (Ret tt, s') ->
  control_command_success_rate (robot_state_ s') = 1%float /\
  time (robot_state_ s') = franka_Duration t /\
  exists m,
    model_ s = Some m /\
    O_T_EE (robot_state_ s')
      = pose_kEndEffector E m
          (set_O_T_EE (O_T_EE (robot_state_ s)) (robot_state_ s')).
Proof.
  intros H.
  destruct (updateRobotState_returns _ _ _ H)
    as (_ & s1 & m & _ & Hm & Hin & _ & _ & _ & Hrs).
  pose proof (f_equal snd Hin) as Ho. cbn in Ho.
  rewrite Hrs, <- Ho.
  repeat split. exists m. split; [exact Hm | reflexivity].
Qed.

Lemma writeSim_runs (t : Time) (p : ros_Duration) (s : Sim) :
  List.length (joints_ s) = 7%nat ->
  (forall i, (i < 7)%nat ->
     exists j, map_find (joint_name (arm_id_ s) i) (joints_ s) = Some (Some j)) ->
  model_ s <> None ->
  exists s', writeSim E t p s = (Ret tt, s').
Proof.
  intros Hlen Hall Hm.
  destruct (arm_joints_only s Hlen Hall) as [_ Honly].
  rewrite writeSim_unfold. destruct (model_ s) as [m|]; [|congruence].
  apply writeSim_loop_ok.
  - unfold no_null. apply forallb_forall. intros [k v] Hin.
    destruct (Honly k v Hin) as (i & j & _ & _ & ->). reflexivity.
  - unfold all_names_ok. apply forallb_forall. intros [k v] Hin.
    destruct (Honly k v Hin) as (i & j & Hi & -> & _).
    apply joint_name_ok_joint_name. exact Hi.
Qed.

(** A cycle of the synthesizer that returned makes the next command write
    safe: the writer then returns too, whatever the commands are.  The
    joint map then holds the seven arm joints and nothing else, so every key
    has a number the writer can read and a record to read it from. *)
Theorem writeSim_returns_after_updateRobotState (t t' : Time) (p : ros_Duration)
    (s s' : Sim) :
  updateRobotState E t s = (Ret tt, s') ->
  exists s'', writeSim E t' p s' = (Ret tt, s'').
Proof.
  intros H.
  pose proof (updateRobotState_found _ _ _ H) as Hall.
  destruct (updateRobotState_returns _ _ _ H)
    as (Hlen & s1 & m & _ & Hm & _ & Ha & Hj & Hmod & _).
  apply writeSim_runs.
  - rewrite Hj. exact Hlen.
  - rewrite Ha, Hj. exact Hall.
  - rewrite Hmod, Hm. discriminate.
Qed.

(** ** [readSim] *)

Lemma readSim_loop (p : ros_Duration) (s0 : Sim) :
  forall (l2 l1 : JointMap) (s1 : Sim),
    NoDup (keys (l1 ++ l2)%list) ->
    for_each_ E l2
      (fun pair =>
         bind E (deref E (snd pair)) (fun joint =>
           modify E (fun s =>
             set_joints_
               (map_store (fst pair) (Joint_update E p joint) (joints_ s)) s)))
      (set_joints_ (map (refreshed (Joint_update E p)) l1 ++ l2)%list s0) = (Ret tt, s1) ->
    s1 = set_joints_ (map (refreshed (Joint_update E p)) (l1 ++ l2)%list) s0.
Proof.
  induction l2 as [|[k v] l2 IH]; intros l1 s1 Hnd; cbn [for_each_].
  - intros H. injection H as <-. rewrite !app_nil_r. reflexivity.
  - rewrite bind_unfold. destruct v as [j|]; [|discriminate].
    cbn [snd fst deref]. unfold ret at 1. rewrite bind_unfold. unfold modify at 1.
    change (joints_ (set_joints_ ?J s0)) with J.
    rewrite map_store_app.
    + change (set_joints_ ?J (set_joints_ _ s0)) with (set_joints_ J s0).
      replace (map (refreshed (Joint_update E p)) l1
               ++ (k, Some (Joint_update E p j)) :: l2)%list
        with (map (refreshed (Joint_update E p)) (l1 ++ [(k, Some j)]) ++ l2)%list
        by (rewrite map_app, <- app_assoc; reflexivity).
      intros H. apply IH in H.
      * rewrite H, <- app_assoc. reflexivity.
      * rewrite <- app_assoc. exact Hnd.
    + unfold keys in *. rewrite map_map. cbn [refreshed fst].
      rewrite map_app in Hnd. apply NoDup_remove_2 in Hnd.
      intros Hin. apply Hnd. apply in_or_app. left. exact Hin.
Qed.

Lemma readSim_loop_runs (p : ros_Duration) (s0 : Sim) :
  forall (l2 l1 : JointMap),
    no_null l2 -> NoDup (keys (l1 ++ l2)%list) ->
    for_each_ E l2
      (fun pair =>
         bind E (deref E (snd pair)) (fun joint =>
           modify E (fun s =>
             set_joints_
               (map_store (fst pair) (Joint_update E p joint) (joints_ s)) s)))
      (set_joints_ (map (refreshed (Joint_update E p)) l1 ++ l2)%list s0)
    = (Ret tt, set_joints_ (map (refreshed (Joint_update E p)) (l1 ++ l2)%list) s0).
Proof.
  induction l2 as [|[k v] l2 IH]; intros l1 Hnn Hnd; cbn [for_each_].
  - rewrite !app_nil_r. reflexivity.
  - unfold no_null in Hnn. cbn [forallb] in Hnn. apply andb_true_iff in Hnn.
    destruct Hnn as [Hv Hnn]. destruct v as [j|]; [|discriminate].
    rewrite bind_unfold. cbn [snd fst deref]. unfold ret at 1.
    rewrite bind_unfold. unfold modify at 1.
    change (joints_ (set_joints_ ?J s0)) with J.
    rewrite map_store_app.
    + change (set_joints_ ?J (set_joints_ _ s0)) with (set_joints_ J s0).
      replace (map (refreshed (Joint_update E p)) l1
               ++ (k, Some (Joint_update E p j)) :: l2)%list
        with (map (refreshed (Joint_update E p)) (l1 ++ [(k, Some j)]) ++ l2)%list
        by (rewrite map_app, <- app_assoc; reflexivity).
      rewrite IH; [rewrite <- app_assoc; reflexivity | exact Hnn|].
      rewrite <- app_assoc. exact Hnd.
    + unfold keys in *. rewrite map_map. cbn [refreshed fst].
      rewrite map_app in Hnd. apply NoDup_remove_2 in Hnd.
      intros Hin. apply Hnd. apply in_or_app. left. exact Hin.
Qed.

Lemma map_find_refreshed (f : Joint -> Joint) (k : string) (m : JointMap) :
  map_find k (map (refreshed f) m) = option_map (option_map f) (map_find k m).
Proof.
  induction m as [|[k' v] m IH]; simpl; [reflexivity|].
  destruct (String.eqb k' k); [reflexivity | exact IH].
Qed.

Lemma readSim_unfold (t : Time) (p : ros_Duration) (s : Sim) :
  readSim E t p s =
    match for_each_ E (joints_ s)
            (fun pair =>
               bind E (deref E (snd pair)) (fun joint =>
                 modify E (fun s =>
                   set_joints_
                     (map_store (fst pair) (Joint_update E p joint) (joints_ s)) s))) s with
    | (Ret _, s1) => updateRobotState E t s1
    | (Throw e, s1) => (Throw e, s1)
    | (Fault f, s1) => (Fault f, s1)
    end.
Proof. unfold readSim. rewrite bind_unfold. unfold get at 1. apply bind_unfold. Qed.

Lemma readSim_runs (t : Time) (p : ros_Duration) (s : Sim) :
  List.length (joints_ s) = 7%nat ->
  (forall i, (i < 7)%nat ->
     exists j, map_find (joint_name (arm_id_ s) i) (joints_ s) = Some (Some j)) ->
  model_ s <> None ->
  exists s', readSim E t p s = (Ret tt, s').
Proof.
  intros Hlen Hall Hm.
  destruct (arm_joints_only s Hlen Hall) as [Hnd Honly].
  assert (Hnn : no_null (joints_ s)).
  { unfold no_null. apply forallb_forall. intros [k v] Hin.
    destruct (Honly k v Hin) as (i & j & _ & _ & ->). reflexivity. }
  rewrite readSim_unfold.
  change s with (set_joints_ (map (refreshed (Joint_update E p)) [] ++ joints_ s)%list s)
    at 2.
  rewrite (readSim_loop_runs p s (joints_ s) [] Hnn Hnd).
  apply updateRobotState_runs.
  - cbn. rewrite length_map. exact Hlen.
  - intros i Hi. destruct (Hall i Hi) as [j Hj].
    exists (Joint_update E p j).
    refine (eq_trans (map_find_refreshed _ _ _) _).
    exact (f_equal (option_map (option_map (Joint_update E p))) Hj).
  - exact Hm.
Qed.

(** A cycle of [readSim] that returns has refreshed every joint record once,
    with [Joint::update], and has then synthesized the robot state from the
    refreshed records. *)
Theorem readSim_refreshes_then_synthesizes (t : Time) (p : ros_Duration) (s s' : Sim) :
  readSim E t p s = (Ret tt, s') ->
  joints_ s' = map (refreshed (Joint_update E p)) (joints_ s) /\
  updateRobotState E t
    (set_joints_ (map (refreshed (Joint_update E p)) (joints_ s)) s) = (Ret tt, s').
Proof.
  intros H.
  pose proof H as Hrun. rewrite readSim_unfold in Hrun.
  match type of Hrun with
  | match ?loop with _ => _ end = _ => destruct loop as [[[]|e|f] s1] eqn:H1
  end; try discriminate.
  assert (Hkeys : keys (joints_ s1) = keys (joints_ s)).
  { assert (Hp : preserves (same (fun s : Sim => keys (joints_ s)))
                   (for_each_ E (joints_ s)
                      (fun pair =>
                         bind E (deref E (snd pair)) (fun joint =>
                           modify E (fun s =>
                             set_joints_
                               (map_store (fst pair) (Joint_update E p joint) (joints_ s))
                               s))))).
    { repeat frame_step. cbn. apply map_store_keys. }
    exact (Hp _ _ _ H1). }
  pose proof (updateRobotState_found _ _ _ Hrun) as Hall.
  destruct (updateRobotState_returns _ _ _ Hrun) as (Hlen & _ & _ & _ & _ & _ & _ & Hj & _).
  destruct (arm_joints_only s1 Hlen Hall) as [Hnd _].
  rewrite Hkeys in Hnd.
  assert (Hs1 : s1 = set_joints_ (map (refreshed (Joint_update E p)) (joints_ s)) s).
  { apply (readSim_loop p s (joints_ s) [] s1); [exact Hnd|]. exact H1. }
  split.
  - rewrite Hj, Hs1. reflexivity.
  - rewrite <- Hs1. exact Hrun.
Qed.

(** [readSim], however it ends, leaves everything but the joint records and
    the robot state as it found it: the keys of the joint map, the model,
    the handles and interfaces, the log, and the forces applied in Gazebo
    (it applies none and logs nothing). *)
Theorem readSim_changes_records_and_state_only (t : Time) (p : ros_Duration) (s : Sim) :
  but_joint_records_and_robot_state (snd (readSim E t p s))
    = but_joint_records_and_robot_state s.
Proof.
  destruct (readSim E t p s) as [o s'] eqn:H.
  exact (readSim_frame t p _ _ _ H).
Qed.

(** Initialisation, however it ends, applies no force in Gazebo. *)
Theorem initSim_applies_no_force (ns : string) (parent : ModelPtr)
    (u : option urdf.Model) (ts : list TransmissionInfo.t) (s : Sim) :
  gazebo_forces (snd (initSim E ns parent u ts s)) = gazebo_forces s.
Proof.
  destruct (initSim E ns parent u ts s) as [o s'] eqn:H.
  exact (initSim_forces ns parent u ts _ _ _ H).
Qed.

End Cycle.

(** * Initialisation as a whole *)

Section Logic.

Context (E : Env).

Local Abbreviation Sim := (FrankaHWSim E).

(** ** What holds when a computation returns *)

Lemma hoare_conseq {A} (P P' : Sim -> Prop) (R R' : A -> Sim -> Prop) (m : M E A) :
  (forall s, P s -> P' s) -> (forall a s, R' a s -> R a s) ->
  hoare P' m R' -> hoare P m R.
Proof. intros HP HR H s a s' Hs Hrun. apply HR. exact (H s a s' (HP s Hs) Hrun). Qed.

Lemma hoare_any {A} (P : Sim -> Prop) (m : M E A) : hoare P m (fun _ => anywhere).
Proof. intros s a s' _ _. exact I. Qed.

Lemma hoare_ret {A} (P : Sim -> Prop) (a : A) (R : A -> Sim -> Prop) :
  (forall s, P s -> R a s) -> hoare P (ret E a) R.
Proof. intros H s a' s' Hs Hrun. injection Hrun as <- <-. exact (H s Hs). Qed.

Lemma hoare_throw {A} (P : Sim -> Prop) (e : exn) (R : A -> Sim -> Prop) :
  hoare P (throw E e) R.
Proof. intros s a s' _ Hrun. discriminate. Qed.

Lemma hoare_abort {A} (P : Sim -> Prop) (x : fault) (R : A -> Sim -> Prop) :
  hoare P (abort E x) R.
Proof. intros s a s' _ Hrun. discriminate. Qed.

Lemma hoare_get (P : Sim -> Prop) (R : Sim -> Sim -> Prop) :
  (forall s, P s -> R s s) -> hoare P (get E) R.
Proof. intros H s a s' Hs Hrun. injection Hrun as <- <-. exact (H s Hs). Qed.

Lemma hoare_modify (P : Sim -> Prop) (f : Sim -> Sim) (R : unit -> Sim -> Prop) :
  (forall s, P s -> R tt (f s)) -> hoare P (modify E f) R.
Proof. intros H s a s' Hs Hrun. injection Hrun as <- <-. exact (H s Hs). Qed.

Lemma hoare_lift {A} (P : Sim -> Prop) (o : outcome A) (R : A -> Sim -> Prop) :
  (forall a s, o = Ret a -> P s -> R a s) -> hoare P (lift E o) R.
Proof. intros H s a s' Hs Hrun. injection Hrun as -> <-. exact (H a s eq_refl Hs). Qed.

Lemma hoare_deref {A} (P : Sim -> Prop) (p : option A) (R : A -> Sim -> Prop) :
  (forall a s, p = Some a -> P s -> R a s) -> hoare P (deref E p) R.
Proof.
  intros H s a s' Hs Hrun. destruct p as [a0|]; [|discriminate].
  injection Hrun as <- <-. exact (H a0 s eq_refl Hs).
Qed.

Lemma hoare_bind {A B} (P : Sim -> Prop) (m : M E A) (k : A -> M E B)
    (R' : A -> Sim -> Prop) (R : B -> Sim -> Prop) :
  hoare P m R' -> (forall a, hoare (R' a) (k a) R) -> hoare P (bind E m k) R.
Proof.
  intros Hm Hk s b s' Hs Hrun. rewrite bind_unfold in Hrun.
  destruct (m s) as [[a|e|x] s1] eqn:H1; try discriminate.
  exact (Hk a s1 b s' (Hm s a s1 Hs H1) Hrun).
Qed.

Lemma hoare_bind_abort {A B} (P : Sim -> Prop) (f : fault) (k : A -> M E B)
    (R : B -> Sim -> Prop) :
  hoare P (bind E (abort E f) k) R.
Proof. intros s a s' _ Hrun. discriminate. Qed.

Lemma hoare_catch {A} (P : Sim -> Prop) (m : M E A) (h : string -> M E A)
    (R : A -> Sim -> Prop) :
  hoare P m R -> (forall what, hoare anywhere (h what) R) ->
  hoare P (catch_invalid_argument E m h) R.
Proof.
  intros Hm Hh s a s' Hs Hrun. unfold catch_invalid_argument in Hrun.
  destruct (m s) as [[a0|[what|what|what]|x] s1] eqn:H1; try discriminate.
  - injection Hrun as <- <-. exact (Hm s a0 s1 Hs H1).
  - exact (Hh what s1 a s' I Hrun).
Qed.

Lemma hoare_for_each {A B} (Inv : Sim -> Prop) (l : list A) (body : A -> M E (option B))
    (R : option B -> Sim -> Prop) :
  (forall x, hoare Inv (body x)
               (fun r s => match r with Some v => R (Some v) s | None => Inv s end)) ->
  (forall s, Inv s -> R None s) ->
  hoare Inv (for_each E l body) R.
Proof.
  intros Hb Hn. induction l as [|x l IH]; cbn [for_each].
  - apply hoare_ret. exact Hn.
  - eapply hoare_bind; [apply Hb|].
    intros [v|]; [apply hoare_ret; auto | exact IH].
Qed.

Lemma hoare_for_each_ {A} (Inv : Sim -> Prop) (l : list A) (body : A -> M E unit) :
  (forall x, hoare Inv (body x) (fun _ => Inv)) ->
  hoare Inv (for_each_ E l body) (fun _ => Inv).
Proof.
  intros Hb. induction l as [|x l IH]; cbn [for_each_].
  - apply hoare_ret. auto.
  - eapply hoare_bind; [apply Hb | intros ?; exact IH].
Qed.

Lemma hoare_log_ret {A} (P : Sim -> Prop) (sev : severity) (msg : string) (a : A)
    (R : A -> Sim -> Prop) :
  sev = Warn \/ sev = Error -> (forall s, explained s -> R a s) ->
  hoare P (bind E (ROS_LOG E sev msg) (fun _ => ret E a)) R.
Proof.
  intros Hsev HR s a' s' _ Hrun. injection Hrun as <- <-.
  apply HR. exists (rosout s), sev, msg. split; [reflexivity | exact Hsev].
Qed.

Lemma hoare_preserves {A B} (f : Sim -> B) (P R : Sim -> Prop) (m : M E A) :
  preserves (same f) m -> (forall s s', f s' = f s -> P s -> R s') ->
  hoare P m (fun _ => R).
Proof. intros Hm H s a s' Hs Hrun. exact (H s s' (Hm s _ s' Hrun) Hs). Qed.

(** ** What a computation can raise *)

Lemma raises_conseq {A} (P P' : Sim -> Prop) (Q Q' : exn + fault -> Prop) (m : M E A) :
  (forall s, P s -> P' s) -> (forall x, Q' x -> Q x) -> raises P' m Q' -> raises P m Q.
Proof. intros HP HQ H s o s' x Hs Hrun Hx. apply HQ. exact (H s o s' x (HP s Hs) Hrun Hx). Qed.

Lemma raises_ret {A} (P : Sim -> Prop) (a : A) (Q : exn + fault -> Prop) :
  raises P (ret E a) Q.
Proof. intros s o s' x _ Hrun Hx. injection Hrun as <- _. discriminate. Qed.

Lemma raises_get (P : Sim -> Prop) (Q : exn + fault -> Prop) : raises P (get E) Q.
Proof. intros s o s' x _ Hrun Hx. injection Hrun as <- _. discriminate. Qed.

Lemma raises_modify (P : Sim -> Prop) (f : Sim -> Sim) (Q : exn + fault -> Prop) :
  raises P (modify E f) Q.
Proof. intros s o s' x _ Hrun Hx. injection Hrun as <- _. discriminate. Qed.

Lemma raises_throw {A} (P : Sim -> Prop) (e : exn) (Q : exn + fault -> Prop) :
  Q (inl e) -> raises P (throw E (A := A) e) Q.
Proof. intros H s o s' x _ Hrun Hx. injection Hrun as <- _. injection Hx as <-. exact H. Qed.

Lemma raises_abort {A} (P : Sim -> Prop) (f : fault) (Q : exn + fault -> Prop) :
  Q (inr f) -> raises P (abort E (A := A) f) Q.
Proof. intros H s o s' x _ Hrun Hx. injection Hrun as <- _. injection Hx as <-. exact H. Qed.

Lemma raises_deref {A} (P : Sim -> Prop) (p : option A) (Q : exn + fault -> Prop) :
  Q (inr null_dereference) -> raises P (deref E p) Q.
Proof. intros H. destruct p; [apply raises_ret | apply raises_abort, H]. Qed.

Lemma raises_assert (P : Sim -> Prop) (b : bool) (Q : exn + fault -> Prop) :
  Q (inr assertion_failed) -> raises P (assert E b) Q.
Proof. intros H. destruct b; [apply raises_ret | apply raises_abort, H]. Qed.

Lemma raises_lift {A} (P : Sim -> Prop) (o : outcome A) (Q : exn + fault -> Prop) :
  (forall x, failure o = Some x -> Q x) -> raises P (lift E o) Q.
Proof. intros H s o' s' x _ Hrun Hx. injection Hrun as <- _. exact (H x Hx). Qed.

Lemma raises_bind {A B} (P : Sim -> Prop) (m : M E A) (k : A -> M E B)
    (R : A -> Sim -> Prop) (Q : exn + fault -> Prop) :
  raises P m Q -> hoare P m R -> (forall a, raises (R a) (k a) Q) ->
  raises P (bind E m k) Q.
Proof.
  intros Hm HR Hk s o s' x Hs Hrun Hx. rewrite bind_unfold in Hrun.
  destruct (m s) as [[a|e|f] s1] eqn:H1.
  - exact (Hk a s1 o s' x (HR s a s1 Hs H1) Hrun Hx).
  - injection Hrun as <- _. exact (Hm s _ s1 x Hs H1 Hx).
  - injection Hrun as <- _. exact (Hm s _ s1 x Hs H1 Hx).
Qed.

Lemma raises_bind_abort {A B} (P : Sim -> Prop) (f : fault) (k : A -> M E B)
    (Q : exn + fault -> Prop) :
  Q (inr f) -> raises P (bind E (abort E f) k) Q.
Proof. intros H s o s' x _ Hrun Hx. injection Hrun as <- _. injection Hx as <-. exact H. Qed.

Lemma raises_seq {A B} (P : Sim -> Prop) (m : M E A) (k : A -> M E B)
    (Q : exn + fault -> Prop) :
  raises P m Q -> (forall a, raises anywhere (k a) Q) -> raises P (bind E m k) Q.
Proof. intros Hm Hk. exact (raises_bind P m k (fun _ => anywhere) Q Hm (hoare_any P m) Hk). Qed.

Lemma raises_catch {A} (P : Sim -> Prop) (m : M E A) (h : string -> M E A)
    (Q : exn + fault -> Prop) :
  raises P m (fun x => Q x \/ exists what, x = inl (invalid_argument what)) ->
  (forall what, raises anywhere (h what) Q) ->
  raises P (catch_invalid_argument E m h) Q.
Proof.
  intros Hm Hh s o s' x Hs Hrun Hx. unfold catch_invalid_argument in Hrun.
  destruct (m s) as [[a|[what|what|what]|f] s1] eqn:H1.
  - injection Hrun as <- _. discriminate.
  - exact (Hh what s1 o s' x I Hrun Hx).
  - injection Hrun as <- _.
    destruct (Hm s _ s1 x Hs H1 Hx) as [H|[w H]]; [exact H|].
    injection Hx as <-. discriminate.
  - injection Hrun as <- _.
    destruct (Hm s _ s1 x Hs H1 Hx) as [H|[w H]]; [exact H|].
    injection Hx as <-. discriminate.
  - injection Hrun as <- _.
    destruct (Hm s _ s1 x Hs H1 Hx) as [H|[w H]]; [exact H|].
    injection Hx as <-. discriminate.
Qed.

Lemma raises_for_each {A B} (Inv : Sim -> Prop) (l : list A) (body : A -> M E (option B))
    (Q : exn + fault -> Prop) :
  (forall x, raises Inv (body x) Q) ->
  (forall x, hoare Inv (body x) (fun r s => r = None -> Inv s)) ->
  raises Inv (for_each E l body) Q.
Proof.
  intros Hb Hi. induction l as [|x l IH]; cbn [for_each].
  - apply raises_ret.
  - apply (raises_bind _ _ _ (fun r s => r = None -> Inv s)); [apply Hb | apply Hi|].
    intros [v|]; [apply raises_ret|].
    revert IH. apply raises_conseq; auto.
Qed.

Lemma raises_for_each_any {A B} (P : Sim -> Prop) (l : list A)
    (body : A -> M E (option B)) (Q : exn + fault -> Prop) :
  (forall x, raises anywhere (body x) Q) -> raises P (for_each E l body) Q.
Proof.
  intros Hb. apply (raises_conseq _ anywhere _ Q); [intros; exact I | auto|].
  apply raises_for_each; [exact Hb|].
  intros x s a s' _ _ _. exact I.
Qed.

Lemma raises_for_each_ {A} (Inv : Sim -> Prop) (l : list A) (body : A -> M E unit)
    (Q : exn + fault -> Prop) :
  (forall x, raises Inv (body x) Q) -> (forall x, hoare Inv (body x) (fun _ => Inv)) ->
  raises Inv (for_each_ E l body) Q.
Proof.
  intros Hb Hi. induction l as [|x l IH]; cbn [for_each_].
  - apply raises_ret.
  - apply (raises_bind _ _ _ (fun _ => Inv)); [apply Hb | apply Hi|].
    intros _. exact IH.
Qed.

Lemma raises_for_each__any {A} (P : Sim -> Prop) (l : list A) (body : A -> M E unit)
    (Q : exn + fault -> Prop) :
  (forall x, raises anywhere (body x) Q) -> raises P (for_each_ E l body) Q.
Proof.
  intros Hb. apply (raises_conseq _ anywhere _ Q); [intros; exact I | auto|].
  apply raises_for_each_; [exact Hb|].
  intros x. apply hoare_any.
Qed.

End Logic.

(** One step of a proof of what a computation can raise, wherever it
    starts. *)
Ltac leaves :=
  first [ exact I | reflexivity | left; leaves | right; eexists; reflexivity ].

Ltac raises_step :=
  lazymatch goal with
  | |- raises _ (bind _ _ _) _ => apply raises_seq; [|intros ?]
  | |- raises _ (ret _ _) _ => apply raises_ret
  | |- raises _ (get _) _ => apply raises_get
  | |- raises _ (modify _ _) _ => apply raises_modify
  | |- raises _ (throw _ _) _ => apply raises_throw; leaves
  | |- raises _ (abort _ _) _ => apply raises_abort; leaves
  | |- raises _ (deref _ _) _ => apply raises_deref; leaves
  | |- raises _ (assert _ _) _ => apply raises_assert; leaves
  | |- raises _ (lift _ (vector_at _ _)) _ =>
      let x := fresh "x" in
      let Hx := fresh "Hx" in
      apply raises_lift; unfold vector_at; intros x Hx;
      destruct (nth_error _ _); [discriminate | injection Hx as <-; leaves]
  | |- raises _ (catch_invalid_argument _ _ _) _ => apply raises_catch; [|intros ?]
  | |- raises _ (for_each _ _ _) _ => apply raises_for_each_any; intros ?
  | |- raises _ (for_each_ _ _ _) _ => apply raises_for_each__any; intros ?
  | |- raises _ (match ?x with _ => _ end) _ => destruct x
  end.

(** One step of a proof that a computation that returns keeps what held
    when it started. *)
Ltac keeps_step :=
  lazymatch goal with
  | |- hoare ?P (bind _ _ _) _ => apply (hoare_bind _ _ _ _ (fun _ => P)); [|intros ?]
  | |- hoare _ (ret _ _) _ =>
      let H := fresh "H" in
      apply hoare_ret; intros ? H; first [exact H | intros _; exact H | discriminate]
  | |- hoare _ (get _) _ => let H := fresh "H" in apply hoare_get; intros ? H; exact H
  | |- hoare _ (modify _ _) _ =>
      let H := fresh "H" in apply hoare_modify; intros ? H; exact H
  | |- hoare _ (throw _ _) _ => apply hoare_throw
  | |- hoare _ (abort _ _) _ => apply hoare_abort
  | |- hoare _ (deref _ _) _ =>
      let H := fresh "H" in apply hoare_deref; intros ? ? _ H; exact H
  | |- hoare _ (lift _ _) _ =>
      let H := fresh "H" in apply hoare_lift; intros ? ? _ H; exact H
  | |- hoare _ (catch_invalid_argument _ _ _) _ => apply hoare_catch; [|intros ?]
  | |- hoare _ (for_each_ _ _ _) _ => apply hoare_for_each_; intros ?
  | |- hoare _ (match ?x with _ => _ end) _ => destruct x
  end.

Section Initialisation.

Context (E : Env).

Local Abbreviation Sim := (FrankaHWSim E).

(** ** What can leave the cycle *)

(** [readSim] (and with it [updateRobotState]) ends in one of four ways: it
    returns, the assertion on the size of the joint map fails, an arm joint
    is missing from the map ([std::out_of_range] from [map::at]), or a null
    pointer is dereferenced (a record or the model).  It throws nothing
    else. *)
Theorem readSim_failures (t : Time) (p : ros_Duration) (s : Sim) (x : exn + fault) :
  failure (fst (readSim E t p s)) = Some x -> leaves_readSim x.
Proof.
  assert (H : raises anywhere (readSim E t p) leaves_readSim).
  { unfold readSim, updateRobotState, updateRobotState_joint, joints_at,
      modify_robot_state.
    repeat raises_step. }
  destruct (readSim E t p s) as [o s'] eqn:Hrun.
  exact (H s o s' x I Hrun).
Qed.


(** ** What can leave initialisation *)

Lemma map_find_In_entry (k : string) (m : JointMap) (v : option Joint) :
  map_find k m = Some v -> In (k, v) m.
Proof.
  induction m as [|[k' v'] m IH]; simpl; [discriminate|].
  destruct (String.eqb k' k) eqn:Hk.
  - intros H. injection H as <-. apply String.eqb_eq in Hk. subst k'. left. reflexivity.
  - intros H. right. exact (IH H).
Qed.

Lemma map_find_emplace_null (k k' : string) (m : JointMap) (j : Joint) :
  map_find k' (map_emplace k None m) = Some (Some j) -> map_find k' m = Some (Some j).
Proof.
  induction m as [|[k0 v0] m IH]; simpl.
  - destruct (String.eqb k k'); discriminate.
  - destruct (String.compare k k0); simpl.
    + auto.
    + destruct (String.eqb k k'); [discriminate | auto].
    + destruct (String.eqb k0 k'); auto.
Qed.

Lemma handles_registered_same (s s' : Sim) :
  (joints_ s', jsi_ s') = (joints_ s, jsi_ s) ->
  handles_registered s -> handles_registered s'.
Proof.
  intros H Hs k j. injection H as Hj Hi.
  unfold handles_registered in Hs. rewrite Hj, Hi. apply Hs.
Qed.

(** The loop that registers the joint state handles. *)
Lemma initJointStateHandle_loop (l : JointMap) (s s' : Sim) :
  for_each_ E l (fun pair => initJointStateHandle E (snd pair)) s = (Ret tt, s') ->
  joints_ s' = joints_ s /\
  (forall n, In n (jsi_ s) -> In n (jsi_ s')) /\
  (forall k j, In (k, Some j) l -> In (name j) (jsi_ s')).
Proof.
  revert s; induction l as [|[k v] l IH]; intros s; cbn [for_each_].
  - intros H. injection H as <-. repeat split; auto. intros k j [].
  - rewrite bind_unfold. destruct v as [j|]; [|discriminate].
    unfold initJointStateHandle at 1. cbn [snd deref]. rewrite bind_unfold.
    unfold ret at 1, modify at 1.
    intros H. destruct (IH _ H) as (Hj & Hmono & Hall).
    repeat split.
    + rewrite Hj. reflexivity.
    + intros n Hn. apply Hmono. cbn. unfold push_back. apply in_or_app. left. exact Hn.
    + intros k' j' [Heq|Hin].
      * injection Heq as _ <-. apply Hmono. cbn. unfold push_back.
        apply in_or_app. right. left. reflexivity.
      * exact (Hall k' j' Hin).
Qed.

Lemma initSim_joints_registered (ns : string) (parent : ModelPtr) (u : option urdf.Model)
    (ts : list TransmissionInfo.t) :
  hoare anywhere (initSim_joints E ns parent u ts) (fun r s => r = None -> handles_registered s).
Proof.
  unfold initSim_joints.
  apply (hoare_bind _ _ _ _ (fun _ => anywhere)); [apply hoare_any | intros _].
  apply (hoare_bind _ _ _ _ (fun _ => anywhere)); [apply hoare_any | intros [b|]].
  - apply hoare_ret. discriminate.
  - intros s r s' _ Hrun _.
    rewrite bind_unfold in Hrun. unfold get at 1 in Hrun. rewrite bind_unfold in Hrun.
    destruct (for_each_ E (joints_ s) (fun pair => initJointStateHandle E (snd pair)) s)
      as [[[]|e|f] s1] eqn:H1; try discriminate.
    injection Hrun as _ <-.
    destruct (initJointStateHandle_loop _ _ _ H1) as (Hj & _ & Hall).
    intros k j Hf. rewrite Hj in Hf.
    apply existsb_exists. exists (name j). split; [|apply String.eqb_refl].
    exact (Hall k j (map_find_In_entry _ _ _ Hf)).
Qed.

Lemma joints_index_registered (k : string) :
  hoare handles_registered (joints_index E k)
    (fun joint s =>
       handles_registered s /\
       forall j, joint = Some j -> existsb (String.eqb (name j)) (jsi_ s) = true).
Proof.
  intros s joint s' Hs Hrun. unfold joints_index in Hrun.
  rewrite bind_unfold in Hrun. unfold get at 1 in Hrun.
  destruct (map_find k (joints_ s)) as [p|] eqn:Hf.
  - injection Hrun as <- <-. split; [exact Hs|]. intros j ->. exact (Hs k j Hf).
  - rewrite bind_unfold in Hrun. unfold modify at 1 in Hrun. injection Hrun as <- <-.
    split; [|discriminate].
    intros k' j Hf'. cbn in Hf'. apply map_find_emplace_null in Hf'. exact (Hs k' j Hf').
Qed.

Lemma initEffortCommandHandle_raises (j : Joint) (Q : exn + fault -> Prop) :
  raises (fun s => existsb (String.eqb (name j)) (jsi_ s) = true)
    (initEffortCommandHandle E (Some j)) Q.
Proof.
  intros s o s' x Hs Hrun Hx. unfold initEffortCommandHandle in Hrun.
  cbn [deref] in Hrun. rewrite bind_unfold in Hrun. unfold ret at 1 in Hrun.
  rewrite bind_unfold in Hrun. unfold get at 1 in Hrun. rewrite Hs in Hrun.
  injection Hrun as <- _. discriminate.
Qed.

Ltac unfold_register :=
  unfold initEffortCommandHandle, initFrankaStateHandle, initFrankaModelHandle, ROS_LOG.

Lemma registerCommandInterface_keeps (u : option urdf.Model) (t : TransmissionInfo.t)
    (k : string) :
  hoare handles_registered (registerCommandInterface E u t k)
    (fun r s => r = None -> handles_registered s).
Proof.
  unfold registerCommandInterface.
  apply (hoare_bind _ _ _ _ (fun _ => handles_registered)).
  { unfold joints_front. repeat keeps_step. }
  intros joint0.
  apply (hoare_bind _ _ _ _ (fun _ => handles_registered)).
  { generalize (joints_index_registered (JointInfo.name_ joint0)).
    apply hoare_conseq; [auto | intros a s [H _]; exact H]. }
  intros joint. unfold_register. repeat keeps_step.
Qed.

Lemma registerCommandInterface_raises (u : option urdf.Model) (t : TransmissionInfo.t)
    (k : string) :
  raises handles_registered (registerCommandInterface E u t k) leaves_initSim.
Proof.
  unfold registerCommandInterface.
  apply (raises_bind _ _ _ _ (fun _ => handles_registered)).
  { unfold joints_front. repeat raises_step. }
  { unfold joints_front. repeat keeps_step. }
  intros joint0.
  apply (raises_bind _ _ _ _
           (fun joint s =>
              handles_registered s /\
              forall j, joint = Some j -> existsb (String.eqb (name j)) (jsi_ s) = true)).
  { unfold joints_index. repeat raises_step. }
  { apply joints_index_registered. }
  intros joint. apply raises_seq.
  - destruct (TransmissionInfo.type_ t =? SimpleTransmission)%string; [|apply raises_ret].
    destruct joint as [j|]; cbn [deref]; [|apply raises_bind_abort; exact I].
    apply (raises_bind _ _ _ _
             (fun _ s => existsb (String.eqb (name j)) (jsi_ s) = true)).
    { apply raises_ret. }
    { apply hoare_ret. intros s [_ H]. apply H. reflexivity. }
    intros j'.
    apply (raises_bind _ _ _ _
             (fun _ s => existsb (String.eqb (name j)) (jsi_ s) = true)).
    { unfold ROS_LOG. apply raises_modify. }
    { unfold ROS_LOG. apply hoare_modify. intros s H. exact H. }
    intros _.
    destruct (k =? EffortJointInterface)%string; [|apply raises_ret].
    apply raises_seq; [apply initEffortCommandHandle_raises | intros _; apply raises_ret].
  - intros continue. unfold_register. repeat raises_step.
Qed.

Lemma registerCommandInterfaces_keeps (u : option urdf.Model) (t : TransmissionInfo.t) :
  hoare handles_registered (registerCommandInterfaces E u t)
    (fun r s => r = None -> handles_registered s).
Proof.
  unfold registerCommandInterfaces.
  apply (hoare_bind _ _ _ _ (fun _ => handles_registered)).
  { unfold joints_front. repeat keeps_step. }
  intros joint0. apply hoare_for_each; [|auto].
  intros k. generalize (registerCommandInterface_keeps u t k).
  apply hoare_conseq; [auto|]. intros [b|] s H; [discriminate | auto].
Qed.

Lemma registerCommandInterfaces_raises (u : option urdf.Model) (t : TransmissionInfo.t) :
  raises handles_registered (registerCommandInterfaces E u t) leaves_initSim.
Proof.
  unfold registerCommandInterfaces.
  apply (raises_bind _ _ _ _ (fun _ => handles_registered)).
  { unfold joints_front. repeat raises_step. }
  { unfold joints_front. repeat keeps_step. }
  intros joint0. apply raises_for_each.
  - apply registerCommandInterface_raises.
  - apply registerCommandInterface_keeps.
Qed.

Lemma initSim_raises (ns : string) (parent : ModelPtr) (u : option urdf.Model)
    (ts : list TransmissionInfo.t) :
  raises anywhere (initSim E ns parent u ts) leaves_initSim.
Proof.
  unfold initSim.
  apply (raises_bind _ _ _ _ (fun r s => r = None -> handles_registered s)).
  { unfold initSim_joints, initSim_begin, collectJoint, initJointStateHandle, ROS_LOG.
    repeat raises_step. }
  { apply initSim_joints_registered. }
  intros [b|]; [apply raises_ret|].
  apply (raises_conseq _ _ handles_registered _ leaves_initSim); [auto | auto|].
  apply raises_seq.
  - apply raises_for_each.
    + apply registerCommandInterfaces_raises.
    + apply registerCommandInterfaces_keeps.
  - intros [b|]; [apply raises_ret|].
    unfold registerInterface, readParameters, readArray_, assign_threshold, joints_index,
      modify_robot_state, ROS_LOG.
    repeat raises_step.
Qed.

(** Whatever the descriptions and the state it starts from, initialisation
    lets no [std::invalid_argument] and no exception of the hardware
    interfaces escape.  It ends by returning, by [std::out_of_range] from a
    threshold vector with fewer than seven elements, by a null pointer, or
    by the first element of an empty list of joints. *)
Theorem initSim_failures (ns : string) (parent : ModelPtr) (u : option urdf.Model)
    (ts : list TransmissionInfo.t) (s : Sim) (x : exn + fault) :
  failure (fst (initSim E ns parent u ts s)) = Some x -> leaves_initSim x.
Proof.
  destruct (initSim E ns parent u ts s) as [o s'] eqn:Hrun.
  exact (initSim_raises ns parent u ts s o s' x I Hrun).
Qed.


(** ** Refusals *)

(** One step of a proof that a computation which returns a refusal has
    logged why. *)
Ltac refusal_step :=
  first
    [ apply hoare_log_ret;
        [first [left; reflexivity | right; reflexivity] | intros ? H _; exact H]
    | lazymatch goal with
      | |- hoare _ (bind _ _ _) _ =>
          apply (hoare_bind _ _ _ _ (fun _ => anywhere)); [apply hoare_any | intros ?]
      | |- hoare _ (ret _ _) _ => apply hoare_ret; intros ? _; discriminate
      | |- hoare _ (throw _ _) _ => apply hoare_throw
      | |- hoare _ (abort _ _) _ => apply hoare_abort
      | |- hoare _ (catch_invalid_argument _ _ _) _ => apply hoare_catch; [|intros ?]
      | |- hoare _ (match ?x with _ => _ end) _ => destruct x
      end ].

Lemma collectJoint_explained (parent : ModelPtr) (u : option urdf.Model)
    (t : TransmissionInfo.t) :
  hoare anywhere (collectJoint E parent u t) (fun r s => r = Some false -> explained s).
Proof. unfold collectJoint. repeat refusal_step. Qed.

Lemma registerCommandInterfaces_explained (u : option urdf.Model)
    (t : TransmissionInfo.t) :
  hoare anywhere (registerCommandInterfaces E u t)
    (fun r s => r = Some false -> explained s).
Proof.
  unfold registerCommandInterfaces.
  apply (hoare_bind _ _ _ _ (fun _ => anywhere)); [apply hoare_any | intros joint0].
  apply hoare_for_each; [|discriminate].
  intros k.
  apply (hoare_conseq _ _ anywhere _ (fun r s => r = Some false -> explained s));
    [auto | intros [v|] s H; [exact H | exact I] |].
  unfold registerCommandInterface. repeat refusal_step.
Qed.

Lemma readParameters_explained :
  hoare anywhere (readParameters E) (fun b s => b = false -> explained s).
Proof.
  unfold readParameters.
  apply (hoare_bind _ _ _ _ (fun _ => anywhere)); [apply hoare_any | intros _].
  apply (hoare_bind _ _ _ _ (fun b s => b = false -> explained s)).
  - repeat refusal_step.
  - intros [|].
    + repeat refusal_step.
    + apply hoare_ret. auto.
Qed.

Lemma initSim_explained (ns : string) (parent : ModelPtr) (u : option urdf.Model)
    (ts : list TransmissionInfo.t) :
  hoare anywhere (initSim E ns parent u ts) (fun b s => b = false -> explained s).
Proof.
  unfold initSim.
  apply (hoare_bind _ _ _ _ (fun r s => r = Some false -> explained s)).
  { unfold initSim_joints.
    apply (hoare_bind _ _ _ _ (fun _ => anywhere)); [apply hoare_any | intros _].
    apply (hoare_bind _ _ _ _ (fun r s => r = Some false -> explained s)).
    - apply hoare_for_each; [|discriminate].
      intros t. generalize (collectJoint_explained parent u t).
      apply hoare_conseq; [auto | intros [v|] s H; [exact H | exact I]].
    - intros [b|]; [apply hoare_ret; auto | repeat refusal_step]. }
  intros [b|].
  { apply hoare_ret. intros s H ->. apply H. reflexivity. }
  apply (hoare_conseq _ _ anywhere _ (fun b s => b = false -> explained s));
    [intros; exact I | auto |].
  apply (hoare_bind _ _ _ _ (fun r s => r = Some false -> explained s)).
  { apply hoare_for_each; [|discriminate].
    intros t. generalize (registerCommandInterfaces_explained u t).
    apply hoare_conseq; [auto | intros [v|] s H; [exact H | exact I]]. }
  intros [b|].
  { apply hoare_ret. intros s H ->. apply H. reflexivity. }
  apply (hoare_conseq _ _ anywhere _ (fun b s => b = false -> explained s));
    [intros; exact I | auto |].
  do 4 (apply (hoare_bind _ _ _ _ (fun _ => anywhere)); [apply hoare_any | intros _]).
  apply readParameters_explained.
Qed.

(** Every refusal of initialisation is explained: when [initSim] returns
    [false], the last line it logged is a warning or an error. *)
Theorem initSim_refusal_explained (ns : string) (parent : ModelPtr)
    (u : option urdf.Model) (ts : list TransmissionInfo.t) (s s' : Sim) :
  initSim E ns parent u ts s = (Ret false, s') ->
  exists lines sev msg,
    rosout s' = (lines ++ [(sev, msg)])%list /\ (sev = Warn \/ sev = Error).
Proof. intros H. exact (initSim_explained ns parent u ts s false s' I H eq_refl). Qed.

(** ** The thresholds *)

Lemma map_find_store_eq (k : string) (j : Joint) (m : JointMap) (x : option Joint) :
  map_find k m = Some x -> map_find k (map_store k j m) = Some (Some j).
Proof.
  induction m as [|[k' v'] m IH]; simpl; [discriminate|].
  destruct (String.eqb k' k) eqn:Hk; simpl; rewrite Hk; auto.
Qed.

Lemma map_find_store_neq (k k' : string) (j : Joint) (m : JointMap) :
  k <> k' -> map_find k' (map_store k j m) = map_find k' m.
Proof.
  intros Hne. induction m as [|[k0 v0] m IH]; simpl; [reflexivity|].
  destruct (String.eqb k0 k) eqn:Hk; simpl.
  - apply String.eqb_eq in Hk. subst k0.
    apply String.eqb_neq in Hne. rewrite Hne. reflexivity.
  - destruct (String.eqb k0 k'); [reflexivity | exact IH].
Qed.

Lemma assign_threshold_returns (set : float -> Joint -> Joint) (key : string)
    (value : outcome float) (s s' : Sim) :
  assign_threshold E set key value s = (Ret tt, s') ->
  exists v j,
    value = Ret v /\ map_find key (joints_ s) = Some (Some j) /\
    s' = set_joints_ (map_store key (set v j) (joints_ s)) s.
Proof.
  unfold assign_threshold, joints_index. rewrite bind_unfold. unfold lift at 1.
  destruct value as [v|e|f]; try discriminate.
  rewrite bind_unfold, bind_unfold. unfold get at 1.
  destruct (map_find key (joints_ s)) as [[j|]|] eqn:Hf; try discriminate.
  intros H. injection H as <-. exists v, j. repeat split.
Qed.

Lemma vector_at_nth_error (a : list float) (i : nat) (v : float) :
  vector_at a i = Ret v -> nth_error a i = Some v.
Proof. unfold vector_at. destruct (nth_error a i); [congruence | discriminate]. Qed.

(** One turn of the loop that assigns the thresholds. *)
Lemma readParameters_joint (i : nat) (s s' : Sim) :
  bind E (assign_threshold E set_contact_threshold (joint_name (arm_id_ s) i)
            (vector_at (lower_torque_thresholds E) i))
    (fun _ => assign_threshold E set_collision_threshold (joint_name (arm_id_ s) i)
                (vector_at (upper_torque_thresholds E) i)) s = (Ret tt, s') ->
  arm_id_ s' = arm_id_ s /\
  has_thresholds i s' /\
  forall k, k <> joint_name (arm_id_ s) i ->
    map_find k (joints_ s') = map_find k (joints_ s).
Proof.
  rewrite bind_unfold.
  destruct (assign_threshold E set_contact_threshold _ _ s) as [[[]|e|f] s1] eqn:H1;
    try discriminate.
  intros H2.
  destruct (assign_threshold_returns _ _ _ _ _ H1) as (v1 & j1 & Hv1 & Hf1 & ->).
  destruct (assign_threshold_returns _ _ _ _ _ H2) as (v2 & j2 & Hv2 & Hf2 & ->).
  cbn in Hf2. rewrite (map_find_store_eq _ _ _ _ Hf1) in Hf2. injection Hf2 as <-.
  apply vector_at_nth_error in Hv1, Hv2.
  split; [reflexivity|]. split.
  - exists (set_collision_threshold v2 (set_contact_threshold v1 j1)). cbn.
    split; [|split; assumption].
    eapply map_find_store_eq. eapply map_find_store_eq. exact Hf1.
  - intros k Hk. cbn. rewrite !map_find_store_neq by congruence. reflexivity.
Qed.

Lemma readParameters_loop (n a : nat) (s s' : Sim) :
  for_each_ E (seq a n)
    (fun i =>
       bind E (get E) (fun s =>
         bind E (assign_threshold E set_contact_threshold
                   (arm_id_ s ++ "_joint" ++ to_string (i + 1))
                   (vector_at (lower_torque_thresholds E) i))
           (fun _ => assign_threshold E set_collision_threshold
                       (arm_id_ s ++ "_joint" ++ to_string (i + 1))
                       (vector_at (upper_torque_thresholds E) i)))) s = (Ret tt, s') ->
  (a + n <= 7)%nat ->
  arm_id_ s' = arm_id_ s /\
  (forall i, (i < a)%nat -> has_thresholds i s -> has_thresholds i s') /\
  (forall i, (a <= i < a + n)%nat -> has_thresholds i s').
Proof.
  revert a s; induction n as [|n IH]; intros a s; cbn [seq for_each_].
  - intros H _. injection H as <-. repeat split; auto. intros i Hi; lia.
  - rewrite bind_unfold, bind_unfold. unfold get at 1.
    match goal with
    | |- context [bind E ?m ?k s] =>
        destruct (bind E m k s) as [[[]|e|f] s1] eqn:H1
    end; try discriminate.
    intros H2 Hn.
    destruct (readParameters_joint a s s1 H1) as (Ha & Hthis & Hothers).
    destruct (IH _ _ H2) as (Ha' & Hlow & Hhigh); [lia|].
    assert (Hkeep : forall i, (i < 7)%nat -> i <> a ->
              has_thresholds i s -> has_thresholds i s1).
    { intros i Hi Hne (j & Hf & Hl & Hu). exists j. rewrite Ha.
      split; [|split; assumption].
      rewrite Hothers; [exact Hf|].
      intros Heq. apply Hne. apply (joint_name_inj (arm_id_ s)); [lia | lia | exact Heq]. }
    repeat split.
    + congruence.
    + intros i Hi Hs. apply Hlow; [lia|]. apply Hkeep; [lia | lia | exact Hs].
    + intros i Hi. destruct (Nat.eq_dec i a) as [->|Hne].
      * apply Hlow; [lia | exact Hthis].
      * apply Hhigh. lia.
Qed.

Lemma readParameters_thresholds :
  hoare anywhere (readParameters E)
    (fun b s => b = true -> forall i, (i < 7)%nat -> has_thresholds i s).
Proof.
  unfold readParameters.
  apply (hoare_bind _ _ _ _ (fun _ => anywhere)); [apply hoare_any | intros _].
  apply (hoare_bind _ _ _ _
           (fun b s => b = true -> forall i, (i < 7)%nat -> has_thresholds i s)).
  - apply hoare_catch.
    + do 13 (apply (hoare_bind _ _ _ _ (fun _ => anywhere)); [apply hoare_any | intros ?]).
      apply (hoare_bind _ _ _ _
               (fun _ s => forall i, (i < 7)%nat -> has_thresholds i s)).
      * intros s [] s' _ Hrun i Hi.
        destruct (readParameters_loop 7 0 s s' Hrun) as (_ & _ & Hall); [lia|].
        apply Hall. lia.
      * intros _. apply hoare_ret. auto.
    + intros what. repeat refusal_step.
  - intros [|].
    + unfold modify_robot_state.
      repeat (apply (hoare_bind _ _ _ _
                       (fun _ s => forall i, (i < 7)%nat -> has_thresholds i s));
              [apply hoare_modify; intros s H; try (intros i Hi; exact (H eq_refl i Hi));
               exact H
              | intros _]).
      apply hoare_ret. auto.
    + apply hoare_ret. discriminate.
Qed.

(** After an initialisation that returned [true], each of the seven names
    ["<arm_id>_joint1"], ..., ["<arm_id>_joint7"] has a record in the joint
    map, whose contact threshold is the lower and whose collision threshold
    is the upper nominal torque threshold of its index. *)
Theorem initSim_assigns_thresholds (ns : string) (parent : ModelPtr)
    (u : option urdf.Model) (ts : list TransmissionInfo.t) (s s' : Sim) (i : nat) :
  initSim E ns parent u ts s = (Ret true, s') ->
  (i < 7)%nat ->
  exists j,
    map_find (joint_name (arm_id_ s') i) (joints_ s') = Some (Some j) /\
    nth_error (getCollisionThresholds E "lower_torque_thresholds_nominal"
                 nominal_thresholds) i = Some (contact_threshold j) /\
    nth_error (getCollisionThresholds E "upper_torque_thresholds_nominal"
                 nominal_thresholds) i = Some (collision_threshold j).
Proof.
  intros H Hi.
  destruct (initSim_true _ _ _ _ _ _ _ H) as [s1 H1].
  exact (readParameters_thresholds s1 true s' I H1 eq_refl i Hi).
Qed.

End Initialisation.

Section Handles.

Context (E : Env).

Local Abbreviation Sim := (FrankaHWSim E).

(** ** The state and the model handle *)

Lemma initFrankaStateHandle_loop (robot : string) (u : urdf.Model)
    (l : list JointInfo.t) (s : Sim) :
  fst (for_each_ E l (fun joint =>
         match urdf.getJoint u (JointInfo.name_ joint) with
         | None =>
             throw E (invalid_argument
               ("Cannot create franka_hw/FrankaStateInterface for robot '" ++ robot
                ++ "_robot' because the specified joint '" ++ JointInfo.name_ joint
                ++ "' in the <transmission> tag cannot be found in the URDF"))
         | Some _ =>
             ROS_LOG E Debug ("Found joint " ++ JointInfo.name_ joint
                              ++ " to belong to a Panda robot")
         end) s)
  = if forallb (in_urdf u) l then Ret tt
    else match find (fun joint => negb (in_urdf u joint)) l with
         | Some joint =>
             Throw (invalid_argument
               ("Cannot create franka_hw/FrankaStateInterface for robot '" ++ robot
                ++ "_robot' because the specified joint '" ++ JointInfo.name_ joint
                ++ "' in the <transmission> tag cannot be found in the URDF"))
         | None => Ret tt
         end.
Proof.
  revert s; induction l as [|joint l IH]; intros s; cbn [for_each_ forallb find].
  - reflexivity.
  - rewrite bind_unfold. unfold in_urdf at 1 3.
    destruct (urdf.getJoint u (JointInfo.name_ joint)); cbn [negb andb].
    + unfold ROS_LOG at 1, modify at 1. apply IH.
    + reflexivity.
Qed.

(** [initFrankaStateHandle] accepts a transmission exactly when it lists
    seven joints that the URDF all declares.  It then registers the one
    handle ["<robot>_robot"]; otherwise it throws [std::invalid_argument]
    and registers nothing. *)
Theorem initFrankaStateHandle_accepts (robot : string) (u : urdf.Model)
    (t : TransmissionInfo.t) (s : Sim) :
  let r := initFrankaStateHandle E robot u t s in
  if ((List.length (TransmissionInfo.joints_ t) =? 7)%nat
      && forallb (in_urdf u) (TransmissionInfo.joints_ t))%bool
  then fst r = Ret tt /\ fsi_ (snd r) = push_back (fsi_ s) (robot ++ "_robot")
  else (exists what, fst r = Throw (invalid_argument what)) /\ fsi_ (snd r) = fsi_ s.
Proof.
  cbv zeta. unfold initFrankaStateHandle.
  destruct (List.length (TransmissionInfo.joints_ t) =? 7)%nat; cbn [negb andb].
  2:{ split; [eexists|]; reflexivity. }
  rewrite bind_unfold.
  match goal with
  | |- context [for_each_ E ?l ?body s] =>
      pose proof (initFrankaStateHandle_loop robot u l s) as Ho;
      assert (Hf : preserves (same fsi_) (for_each_ E l body))
        by (unfold ROS_LOG; repeat frame_step; reflexivity);
      specialize (Hf s);
      destruct (for_each_ E l body s) as [o s1]
  end.
  specialize (Hf _ _ eq_refl). unfold same in Hf. cbn [fst] in Ho. subst o.
  destruct (forallb (in_urdf u) (TransmissionInfo.joints_ t)) eqn:Hall.
  - split; [reflexivity|]. exact (f_equal (fun l => push_back l (robot ++ "_robot")) Hf).
  - destruct (find _ _) as [joint|] eqn:Hfind.
    + split; [eexists; reflexivity | exact Hf].
    + exfalso.
      assert (Hnone : forallb (in_urdf u) (TransmissionInfo.joints_ t) = true).
      { apply forallb_forall. intros x Hx.
        pose proof (find_none _ _ Hfind x Hx) as Hn. apply negb_false_iff in Hn. exact Hn. }
      congruence.
Qed.

(** A model transmission whose root or tip joint the URDF does not declare
    crashes [initFrankaModelHandle] on a null pointer when that joint is
    not the first one listed: the links are read through
    [urdf.getJoint(...)->...] in the turn of the first joint, before the
    loop has come to check the second. *)
Theorem initFrankaModelHandle_null_dereference (robot : string) (u : urdf.Model)
    (t : TransmissionInfo.t) (s : Sim) (joint0 joint1 root tip : JointInfo.t) :
  TransmissionInfo.joints_ t = [joint0; joint1] ->
  in_urdf u joint0 = true ->
  find (has_role "root") (TransmissionInfo.joints_ t) = Some root ->
  find (has_role "tip") (TransmissionInfo.joints_ t) = Some tip ->
  in_urdf u root = false \/ in_urdf u tip = false ->
  initFrankaModelHandle E robot u t s = (Fault null_dereference, s).
Proof.
  intros Hj H0 Hroot Htip Hmiss. unfold initFrankaModelHandle.
  rewrite Hroot, Htip, Hj. cbn [List.length Nat.eqb negb for_each_].
  rewrite bind_unfold. unfold in_urdf in H0, Hmiss.
  destruct (urdf.getJoint u (JointInfo.name_ joint0)); [|discriminate].
  rewrite bind_unfold. unfold catch_invalid_argument.
  rewrite bind_unfold.
  destruct (urdf.getJoint u (JointInfo.name_ root)) as [jr|]; [|reflexivity].
  cbn [deref]. unfold ret at 1. rewrite bind_unfold.
  destruct (urdf.getJoint u (JointInfo.name_ tip)) as [jt|]; [|reflexivity].
  destruct Hmiss; discriminate.
Qed.

(** When both joints of a model transmission are declared in the URDF and
    carry the roles, and the model can be built, [initFrankaModelHandle]
    returns with the model built from the parent link of the root joint to
    the child link of the tip joint, and with the handle ["<robot>_model"]
    registered; it changes nothing but the model and the handles of the
    model interface. *)
Theorem initFrankaModelHandle_builds_model (robot : string) (u : urdf.Model)
    (t : TransmissionInfo.t) (s : Sim) (joint0 joint1 root tip : JointInfo.t)
    (jr jt : urdf.Joint) (model : ModelKDL E) :
  TransmissionInfo.joints_ t = [joint0; joint1] ->
  in_urdf u joint0 = true -> in_urdf u joint1 = true ->
  find (has_role "root") (TransmissionInfo.joints_ t) = Some root ->
  find (has_role "tip") (TransmissionInfo.joints_ t) = Some tip ->
  urdf.getJoint u (JointInfo.name_ root) = Some jr ->
  urdf.getJoint u (JointInfo.name_ tip) = Some jt ->
  ModelKDL_new E u (urdf.parent_link_name jr) (urdf.child_link_name jt) = inr model ->
  exists handles,
    initFrankaModelHandle E robot u t s
      = (Ret tt, set_fmi_ E (fmi_ s ++ handles)%list (set_model_ E (Some model) s)) /\
    In (robot ++ "_model") handles.
Proof.
  intros Hj H0 H1 Hroot Htip Hr Ht Hnew. unfold initFrankaModelHandle.
  rewrite Hroot, Htip, Hj. cbn [List.length Nat.eqb negb for_each_].
  unfold in_urdf in H0, H1.
  destruct (urdf.getJoint u (JointInfo.name_ joint0)); [|discriminate].
  destruct (urdf.getJoint u (JointInfo.name_ joint1)); [|discriminate].
  rewrite Hr, Ht. cbn [deref].
  exists [robot ++ "_model"; robot ++ "_model"]. split; [|left; reflexivity].
  unfold bind, catch_invalid_argument, ret. cbn beta iota. rewrite Hnew.
  unfold modify, push_back. cbn.
  rewrite <- app_assoc. reflexivity.
Qed.

(** ** The command writer as a whole *)

Lemma writeSim_joint_forces (g : list float) (pair : string * option Joint) (s : Sim) :
  exists o forces lines,
    writeSim_joint E g pair s = (o, effects s forces lines) /\
    turn_forces pair forces /\
    (o = Ret tt \/ forces = []).
Proof.
  destruct pair as [k [j|]]; unfold writeSim_joint; cbn [fst snd deref].
  - rewrite bind_unfold. unfold ret at 1. rewrite bind_unfold. unfold get at 1.
    rewrite bind_unfold. unfold lift at 1.
    destruct (effective_command (arm_id_ s) g k (command j)) as [c|e|f].
    + destruct (PrimFloat.is_nan c) eqn:Hnan.
      * exists (Ret tt), [], [(Warn, "Command for " ++ name j ++ "is NaN, won't send to robot")].
        split; [|split; left; reflexivity].
        unfold ROS_LOG, modify, effects, set_gazebo_forces, set_rosout; cbn.
        rewrite app_nil_r. reflexivity.
      * exists (Ret tt), [(handle j, 0%nat, c)], [].
        split; [|split; [right; exists j, c; repeat split; exact Hnan | left; reflexivity]].
        unfold SetForce, modify, effects, set_gazebo_forces, set_rosout; cbn.
        rewrite app_nil_r. reflexivity.
    + exists (Throw e), [], []. rewrite effects_nil.
      split; [reflexivity | split; [left | right]; reflexivity].
    + exists (Fault f), [], []. rewrite effects_nil.
      split; [reflexivity | split; [left | right]; reflexivity].
  - exists (Fault null_dereference), [], []. rewrite effects_nil.
    split; [reflexivity | split; [left | right]; reflexivity].
Qed.

Lemma writeSim_loop_forces (g : list float) (l : JointMap) (s : Sim) :
  exists o done rest sent lines,
    l = (done ++ rest)%list /\
    Forall2 turn_forces done sent /\
    for_each_ E l (writeSim_joint E g) s = (o, effects s (List.concat sent) lines) /\
    (o = Ret tt -> rest = []).
Proof.
  revert s; induction l as [|pair l IH]; intros s; cbn [for_each_].
  - exists (Ret tt), [], [], [], []. rewrite effects_nil.
    repeat split; constructor.
  - destruct (writeSim_joint_forces g pair s) as (o1 & f1 & l1 & H1 & Hturn & Hend).
    rewrite bind_unfold, H1.
    destruct o1 as [[]|e|f].
    + destruct (IH (effects s f1 l1)) as (o2 & done & rest & sent & l2 & Hl & Hsent & H2 & Hr).
      exists o2, (pair :: done), rest, (f1 :: sent), (l1 ++ l2)%list.
      rewrite H2, effects_effects, Hl.
      repeat split; [constructor; assumption | exact Hr].
    + destruct Hend as [Hend | ->]; [discriminate|].
      exists (Throw e), [], (pair :: l), [], l1.
      repeat split; [constructor | discriminate].
    + destruct Hend as [Hend | ->]; [discriminate|].
      exists (Fault f), [], (pair :: l), [], l1.
      repeat split; [constructor | discriminate].
Qed.

(** However a cycle of the command writer ends, what it has handed to
    Gazebo is at most one force per joint of the map: the joints it went
    through, the first of the map in their order, have each received nothing
    or one force, on the handle of their own record, on the first axis and
    never NaN; the joints it did not reach have received nothing.  When it
    returns it went through all of them. *)
Theorem writeSim_never_applies_nan (t : Time) (p : ros_Duration) (s : Sim) :
  exists done rest sent,
    joints_ s = (done ++ rest)%list /\
    Forall2 turn_forces done sent /\
    gazebo_forces (snd (writeSim E t p s)) = (gazebo_forces s ++ List.concat sent)%list /\
    (fst (writeSim E t p s) = Ret tt -> rest = []).
Proof.
  rewrite writeSim_unfold. destruct (model_ s) as [m|].
  - destruct (writeSim_loop_forces (gravity E m (robot_state_ s)) (joints_ s) s)
      as (o & done & rest & sent & lines & Hl & Hsent & H & Hr).
    exists done, rest, sent. rewrite H.
    repeat split; assumption.
  - exists [], (joints_ s), []. cbn [fst snd List.concat]. rewrite app_nil_r.
    repeat split; [constructor | discriminate].
Qed.

(** ** Runs *)

Lemma readSim_configuration (t : Time) (p : ros_Duration) :
  preserves (same configuration) (readSim E t p).
Proof.
  unfold_cycle. repeat frame_step; try reflexivity.
  unfold configuration. cbn. rewrite map_store_keys. reflexivity.
Qed.

Lemma cycle_step_keeps (s s' : Sim) :
  cycle_step s s' ->
  configuration s' = configuration s /\
  ((forall i, (i < 7)%nat ->
      exists j, map_find (joint_name (arm_id_ s) i) (joints_ s) = Some (Some j)) ->
   forall i, (i < 7)%nat ->
     exists j, map_find (joint_name (arm_id_ s') i) (joints_ s') = Some (Some j)).
Proof.
  intros [t p s0 s1 H | k v j s0 Hk Hj | t p s0 s1 H].
  - split; [exact (readSim_configuration t p _ _ _ H)|].
    intros _ i Hi.
    rewrite readSim_unfold in H.
    match type of H with
    | match ?loop with _ => _ end = _ => destruct loop as [[[]|e|f] s2]
    end; try discriminate.
    destruct (updateRobotState_returns _ _ _ _ H) as (_ & _ & _ & _ & _ & _ & Ha & Hjs & _).
    rewrite Ha, Hjs. exact (updateRobotState_found _ _ _ _ H i Hi).
  - split.
    + unfold configuration. cbn. rewrite map_store_keys. reflexivity.
    + intros Hall i Hi. cbn.
      destruct (String.eqb k (joint_name (arm_id_ s0) i)) eqn:Heq.
      * apply String.eqb_eq in Heq. subst k.
        eexists. eapply map_find_store_eq. exact Hj.
      * apply String.eqb_neq in Heq. rewrite map_find_store_neq by exact Heq.
        exact (Hall i Hi).
  - destruct (writeSim_frame E t p s0) as (o & forces & lines & Hw).
    rewrite (Hw s0 eq_refl eq_refl eq_refl eq_refl) in H. injection H as _ <-.
    split; [reflexivity|]. intros Hall. exact Hall.
Qed.

Lemma running_arm_joints (ns : string) (parent : ModelPtr) (u : option urdf.Model)
    (ts : list TransmissionInfo.t) (s0 s : Sim) :
  running ns parent u ts s0 s ->
  forall i, (i < 7)%nat ->
    exists j, map_find (joint_name (arm_id_ s) i) (joints_ s) = Some (Some j).
Proof.
  induction 1 as [s Hinit | s s' Hrun IH Hstep].
  - intros i Hi.
    destruct (initSim_true _ _ _ _ _ _ _ Hinit) as [s1 H1].
    destruct (readParameters_thresholds E s1 true s I H1 eq_refl i Hi) as (j & Hj & _).
    exists j. exact Hj.
  - exact (proj2 (cycle_step_keeps _ _ Hstep) IH).
Qed.

(** A step of the cycle (a refresh with the synthesis, a command of the
    controller, a command write) changes nothing of what initialisation has
    set up: the arm identifier, the Gazebo model, the keys of the joint map,
    the model, the handles and the interfaces. *)
Theorem cycle_step_keeps_configuration (s s' : Sim) :
  cycle_step s s' -> configuration s' = configuration s.
Proof. intros H. exact (proj1 (cycle_step_keeps s s' H)). Qed.

(** In a run, that is after an initialisation that returned [true], the
    synthesizer returns exactly when the joint map has seven entries and the
    model has been built: the seven arm joints are always there.  Both
    conditions are settled by the descriptions given to [initSim]. *)
Theorem running_updateRobotState_iff (ns : string) (parent : ModelPtr)
    (u : option urdf.Model) (ts : list TransmissionInfo.t) (s0 s : Sim) (t : Time) :
  running ns parent u ts s0 s ->
  ((exists s', updateRobotState E t s = (Ret tt, s'))
   <-> List.length (joints_ s) = 7%nat /\ model_ s <> None).
Proof.
  intros Hrun. split.
  - intros [s' H].
    destruct (updateRobotState_returns _ _ _ _ H) as (Hlen & _ & m & _ & Hm & _).
    split; [exact Hlen | congruence].
  - intros [Hlen Hm].
    apply updateRobotState_runs; [exact Hlen | | exact Hm].
    exact (running_arm_joints _ _ _ _ _ _ Hrun).
Qed.

End Handles.

Section Parameters.

Context (E : Env).

Local Abbreviation Sim := (FrankaHWSim E).

(** ** The calibration parameters *)

Lemma catch_never {A} (m : M E A) (h : string -> M E A) (s : Sim) :
  raises anywhere m not_invalid_argument -> catch_invalid_argument E m h s = m s.
Proof.
  intros H. unfold catch_invalid_argument.
  destruct (m s) as [[a|[what|what|what]|f] s'] eqn:Hrun; try reflexivity.
  exfalso. exact (H s _ s' (inl (invalid_argument what)) I Hrun eq_refl).
Qed.

Lemma try_bind {A B C} (m : M E A) (k : A -> M E B) (h : string -> M E B)
    (K : B -> M E C) (s s' : Sim) (a : A) :
  m s = (Ret a, s') ->
  bind E (catch_invalid_argument E (bind E m k) h) K s
    = bind E (catch_invalid_argument E (k a) h) K s'.
Proof.
  intros H. rewrite !bind_unfold. unfold catch_invalid_argument.
  rewrite bind_unfold, H. reflexivity.
Qed.

Lemma try_bind_throws {A B C} (m : M E A) (k : A -> M E B) (h : string -> M E B)
    (K : B -> M E C) (s s' : Sim) (what : string) :
  m s = (Throw (invalid_argument what), s') ->
  bind E (catch_invalid_argument E (bind E m k) h) K s = bind E (h what) K s'.
Proof.
  intros H. rewrite !bind_unfold. unfold catch_invalid_argument.
  rewrite bind_unfold, H. reflexivity.
Qed.

Lemma readArray__run (N : nat) (values name : string) (s : Sim) :
  readArray_ E N values name s
    = match readArray E N values name with
      | inl what => (Throw (invalid_argument what), s)
      | inr a => (Ret a, s)
      end.
Proof. unfold readArray_. destruct (readArray E N values name); reflexivity. Qed.

(** The loop over the thresholds throws no [std::invalid_argument]. *)
Lemma thresholds_loop_raises (l : list nat) (b : bool) :
  raises anywhere
    (bind E
       (for_each_ E l
          (fun i =>
             bind E (get E) (fun s =>
               bind E (assign_threshold E set_contact_threshold
                         (arm_id_ s ++ "_joint" ++ to_string (i + 1))
                         (vector_at (lower_torque_thresholds E) i))
                 (fun _ => assign_threshold E set_collision_threshold
                             (arm_id_ s ++ "_joint" ++ to_string (i + 1))
                             (vector_at (upper_torque_thresholds E) i)))))
       (fun _ => ret E b))
    not_invalid_argument.
Proof. unfold assign_threshold, joints_index. repeat raises_step. Qed.

(** One array after the other. *)
Ltac read_next n :=
  match goal with
  | |- context [bind ?E (catch_invalid_argument ?E (bind ?E (readArray_ ?E ?N ?v ?name) ?k) ?h)
                  ?K ?s0] =>
      let H := fresh "Hread" in
      let a := fresh "a" in
      let what := fresh "what" in
      destruct (readArray E N v name) as [what|a] eqn:H;
      [ left;
        exists (nth n calibration_parameters (0%nat, "", "", I_ee)), what;
        split; [cbn; tauto|]; split; [exact H|];
        rewrite (try_bind_throws (readArray_ E N v name) k h K s0 s0 what)
          by (rewrite readArray__run, H; reflexivity);
        reflexivity
      | rewrite (try_bind (readArray_ E N v name) k h K s0 s0 a)
          by (rewrite readArray__run, H; reflexivity) ]
  end.

Ltac modify_next :=
  match goal with
  | |- context [bind ?E (catch_invalid_argument ?E (bind ?E (modify_robot_state ?E ?f) ?k) ?h)
                  ?K ?s0] =>
      rewrite (try_bind (modify_robot_state E f) k h K s0 _ tt
                 (modify_robot_state_run E f s0))
  end.

(** [readParameters], by what the six arrays read as. *)
Lemma readParameters_cases (s : Sim) :
  (exists p what,
     In p calibration_parameters /\ read_parameter E p = inl what /\
     fst (readParameters E s) = Ret false)
  \/
  ((forall p, In p calibration_parameters -> exists a, read_parameter E p = inr a) /\
   fst (readParameters E s) <> Ret false /\
   forall s', readParameters E s = (Ret true, s') ->
     m_ee (robot_state_ s') = param_double E "m_ee" 0.73 /\
     m_load (robot_state_ s') = param_double E "m_load" 0 /\
     forall p, In p calibration_parameters ->
       read_parameter E p = inr (snd p (robot_state_ s'))).
Proof.
  unfold readParameters.
  rewrite bind_unfold, modify_robot_state_run. cbv iota beta.
  read_next 0%nat. modify_next. modify_next.
  read_next 1%nat. modify_next.
  read_next 2%nat. modify_next.
  read_next 3%nat. modify_next.
  read_next 4%nat. modify_next.
  read_next 5%nat. modify_next.
  right.
  match goal with
  | |- context [bind E (catch_invalid_argument E ?m ?h) ?K ?s0] =>
      set (s6 := s0);
      assert (Hin : calibration_inputs (robot_state_ s6)
                    = (param_double E "m_ee" 0.73, param_double E "m_load" 0,
                       a, a0, a1, a2, a3, a4)) by reflexivity;
      clearbody s6;
      assert (Hnever : forall s1,
                catch_invalid_argument E m h s1 = m s1)
        by (intros s1; apply catch_never, thresholds_loop_raises);
      assert (Hframe : preserves (same (fun s1 : Sim => calibration_inputs (robot_state_ s1)))
                (bind E (catch_invalid_argument E m h) K))
        by (unfold assign_threshold, joints_index, modify_robot_state, ROS_LOG;
            repeat frame_step; reflexivity);
      assert (Htrue : hoare anywhere (bind E (catch_invalid_argument E m h) K)
                (fun b _ => b = true));
      [ intros s1 b s2 _ Hrun; rewrite bind_unfold, Hnever, bind_unfold in Hrun;
        match type of Hrun with
        | match (match ?loop with _ => _ end) with _ => _ end = _ =>
            destruct loop as [[[]|e|f] s3]; try discriminate
        end;
        unfold ret at 1 in Hrun; cbv iota beta in Hrun;
        unfold modify_robot_state, bind, modify, ret in Hrun;
        injection Hrun as <- _; reflexivity
      | set (T := bind E (catch_invalid_argument E m h) K) in * ]
  end.
  assert (Hall : forall p, In p calibration_parameters ->
            In (read_parameter E p) [inr a; inr a0; inr a1; inr a2; inr a3; inr a4]).
  { intros p Hp. cbn in Hp.
    repeat (destruct Hp as [<-|Hp];
            [unfold read_parameter; cbn [fst snd];
             first [rewrite Hread | rewrite Hread0 | rewrite Hread1 | rewrite Hread2
                   | rewrite Hread3 | rewrite Hread4];
             cbn; tauto|]).
    contradiction. }
  split; [|split].
  - intros p Hp. specialize (Hall p Hp). cbn in Hall.
    repeat (destruct Hall as [<-|Hall]; [eexists; reflexivity|]). contradiction.
  - intros Hfalse.
    destruct (T s6) as [o s7] eqn:Hrun. cbn [fst] in Hfalse. subst o.
    pose proof (Htrue s6 false s7 I Hrun). discriminate.
  - intros s' Hrun.
    pose proof (Hframe s6 _ s' Hrun) as Hsame. unfold same in Hsame.
    rewrite Hin in Hsame. unfold calibration_inputs in Hsame.
    injection Hsame as H1 H2 H3 H4 H5 H6 H7 H8.
    split; [exact H1|]. split; [exact H2|].
    intros p Hp. cbn in Hp.
    destruct Hp as [<-|Hp]; [exact (eq_trans Hread (f_equal inr (eq_sym H3)))|].
    destruct Hp as [<-|Hp]; [exact (eq_trans Hread0 (f_equal inr (eq_sym H4)))|].
    destruct Hp as [<-|Hp]; [exact (eq_trans Hread1 (f_equal inr (eq_sym H5)))|].
    destruct Hp as [<-|Hp]; [exact (eq_trans Hread2 (f_equal inr (eq_sym H6)))|].
    destruct Hp as [<-|Hp]; [exact (eq_trans Hread3 (f_equal inr (eq_sym H7)))|].
    destruct Hp as [<-|Hp]; [exact (eq_trans Hread4 (f_equal inr (eq_sym H8)))|].
    contradiction.
Qed.

(** [readParameters] refuses exactly when one of the six calibration arrays
    cannot be read from its parameter (or from the default the code gives
    for it).  A threshold vector that is too short or a missing arm joint
    never makes it return [false]. *)
Theorem readParameters_refuses_iff (s : Sim) :
  fst (readParameters E s) = Ret false
  <-> exists p what, In p calibration_parameters /\ read_parameter E p = inl what.
Proof.
  destruct (readParameters_cases s) as [(p & what & Hp & Hread & Hrun) | (Hall & Hrun & _)].
  - split; [intros _; exists p, what; split; assumption | intros _; exact Hrun].
  - split; [intros H; contradiction|].
    intros (p & what & Hp & Hread). destruct (Hall p Hp) as [a Ha]. congruence.
Qed.

(** After an initialisation that returned [true], the robot state holds the
    masses and the six calibration arrays as the parameters give them, each
    array in the member of its name: no later assignment has touched
    them. *)
Theorem initSim_reads_calibration (ns : string) (parent : ModelPtr)
    (u : option urdf.Model) (ts : list TransmissionInfo.t) (s s' : Sim) :
  initSim E ns parent u ts s = (Ret true, s') ->
  m_ee (robot_state_ s') = param_double E "m_ee" 0.73 /\
  m_load (robot_state_ s') = param_double E "m_load" 0 /\
  forall p, In p calibration_parameters ->
    read_parameter E p = inr (snd p (robot_state_ s')).
Proof.
  intros H. destruct (initSim_true _ _ _ _ _ _ _ H) as [s1 H1].
  destruct (readParameters_cases s1) as [(p & what & _ & _ & Hrun) | (_ & _ & Hok)].
  - rewrite H1 in Hrun. discriminate.
  - exact (Hok s' H1).
Qed.

End Parameters.

(** * The joint records *)

(** ** [std::map::emplace] *)

Lemma compare_refl (k : string) : String.compare k k = Eq.
Proof.
  pose proof (String.compare_antisym k k) as H.
  destruct (String.compare k k); simpl in H; congruence.
Qed.

Lemma map_find_emplace_other (k k' : string) (v : option Joint) (m : JointMap) :
  k <> k' -> map_find k' (map_emplace k v m) = map_find k' m.
Proof.
  intros Hne. apply String.eqb_neq in Hne.
  induction m as [|[k0 v0] m IH]; simpl.
  - rewrite Hne. reflexivity.
  - destruct (String.compare k k0); simpl.
    + reflexivity.
    + rewrite Hne. reflexivity.
    + rewrite IH. reflexivity.
Qed.

Lemma map_find_emplace_same (k : string) (v : option Joint) (m : JointMap) :
  map_find k (map_emplace k v m) = Some v \/
  (map_emplace k v m = m /\ exists x, map_find k m = Some x).
Proof.
  induction m as [|[k0 v0] m IH]; simpl.
  - rewrite String.eqb_refl. left. reflexivity.
  - destruct (String.compare k k0) eqn:Hc; simpl.
    + apply String.compare_eq_iff in Hc. subst k0.
      right. split; [reflexivity|]. rewrite String.eqb_refl. eexists; reflexivity.
    + rewrite String.eqb_refl. left. reflexivity.
    + assert (Hne : String.eqb k0 k = false).
      { apply String.eqb_neq. intros ->. rewrite compare_refl in Hc. discriminate. }
      rewrite Hne. destruct IH as [IH|[IH [x Hx]]].
      * left. exact IH.
      * right. rewrite IH. split; [reflexivity|]. exists x. exact Hx.
Qed.

(** ** Computations that relate the state they leave to the one they found *)

Section Related.

Context (E : Env).

Local Abbreviation Sim := (FrankaHWSim E).

Context (R : Sim -> Sim -> Prop).

Hypothesis R_refl : forall s, R s s.

Hypothesis R_trans : forall s1 s2 s3, R s1 s2 -> R s2 s3 -> R s1 s3.

Lemma related_ret {A} (a : A) : preserves R (ret E a).
Proof. intros s o s' H. injection H as _ <-. apply R_refl. Qed.

Lemma related_throw {A} (e : exn) : preserves R (throw E (A := A) e).
Proof. intros s o s' H. injection H as _ <-. apply R_refl. Qed.

Lemma related_abort {A} (x : fault) : preserves R (abort E (A := A) x).
Proof. intros s o s' H. injection H as _ <-. apply R_refl. Qed.

Lemma related_lift {A} (o : outcome A) : preserves R (lift E o).
Proof. intros s o' s' H. injection H as _ <-. apply R_refl. Qed.

Lemma related_get : preserves R (get E).
Proof. intros s o s' H. injection H as _ <-. apply R_refl. Qed.

Lemma related_deref {A} (p : option A) : preserves R (deref E p).
Proof. destruct p; [apply related_ret | apply related_abort]. Qed.

Lemma related_modify (g : Sim -> Sim) : (forall s, R s (g s)) -> preserves R (modify E g).
Proof. intros Hg s o s' H. injection H as _ <-. apply Hg. Qed.

Lemma related_bind {A B} (m : M E A) (k : A -> M E B) :
  preserves R m -> (forall a, preserves R (k a)) -> preserves R (bind E m k).
Proof.
  intros Hm Hk s o s' H. rewrite bind_unfold in H.
  destruct (m s) as [[a|e|x] s1] eqn:H1.
  - exact (R_trans _ _ _ (Hm _ _ _ H1) (Hk a _ _ _ H)).
  - injection H as _ <-. exact (Hm _ _ _ H1).
  - injection H as _ <-. exact (Hm _ _ _ H1).
Qed.

Lemma related_catch {A} (m : M E A) (h : string -> M E A) :
  preserves R m -> (forall what, preserves R (h what)) ->
  preserves R (catch_invalid_argument E m h).
Proof.
  intros Hm Hh s o s' H. unfold catch_invalid_argument in H.
  destruct (m s) as [[a|[what|what|what]|x] s1] eqn:H1;
    try (injection H as _ <-; exact (Hm _ _ _ H1)).
  exact (R_trans _ _ _ (Hm _ _ _ H1) (Hh what _ _ _ H)).
Qed.

Lemma related_for_each_ {A} (l : list A) (body : A -> M E unit) :
  (forall x, preserves R (body x)) -> preserves R (for_each_ E l body).
Proof.
  intros Hb. induction l as [|x l IH]; cbn [for_each_].
  - apply related_ret.
  - apply related_bind; [apply Hb | intros _; exact IH].
Qed.

Lemma related_for_each {A B} (l : list A) (body : A -> M E (option B)) :
  (forall x, preserves R (body x)) -> preserves R (for_each E l body).
Proof.
  intros Hb. induction l as [|x l IH]; cbn [for_each].
  - apply related_ret.
  - apply related_bind; [apply Hb | intros [v|]; [apply related_ret | exact IH]].
Qed.

(** A loop that went through has done, for each element, what its body
    does, when nothing later undoes it. *)
Lemma for_each_done {A B} (Inv : Sim -> Prop) (D : A -> Sim -> Prop) (l : list A)
    (body : A -> M E (option B)) :
  (forall x, preserves R (body x)) ->
  (forall s s', R s s' -> Inv s -> Inv s') ->
  (forall x s s', R s s' -> D x s -> D x s') ->
  (forall x s s', In x l -> Inv s -> body x s = (Ret None, s') -> D x s') ->
  forall s s', Inv s -> for_each E l body s = (Ret None, s') ->
    forall x, In x l -> D x s'.
Proof.
  intros Hb Hinv Hkeep Hdone.
  induction l as [|y l IH]; intros s s' Hs Hrun x Hx; [destruct Hx|].
  cbn [for_each] in Hrun. rewrite bind_unfold in Hrun.
  destruct (body y s) as [[[v|]|e|f] s1] eqn:H1; try discriminate.
  pose proof (Hb y _ _ _ H1) as HR.
  pose proof (related_for_each l body Hb _ _ _ Hrun) as HR'.
  destruct Hx as [<-|Hx].
  - apply (Hkeep y s1 s' HR'). apply (Hdone y s s1); [left; reflexivity | exact Hs | exact H1].
  - apply (IH (fun x s s' Hin => Hdone x s s' (or_intror Hin)) s1 s' (Hinv _ _ HR Hs) Hrun x Hx).
Qed.

End Related.

Section Records.

Context (E : Env).

Local Abbreviation Sim := (FrankaHWSim E).

Lemma grows_refl (s : Sim) : grows s s.
Proof.
  split; [intros k j H; exists j; split; [exact H | reflexivity] | repeat split; auto].
Qed.

Lemma grows_trans (s1 s2 s3 : Sim) : grows s1 s2 -> grows s2 s3 -> grows s1 s3.
Proof.
  intros (H1 & N1 & F1 & S1 & L1 & M1 & A1) (H2 & N2 & F2 & S2 & L2 & M2 & A2).
  split; [|repeat split; auto; congruence].
  intros k j Hj. destruct (H1 k j Hj) as (j' & Hj' & W').
  destruct (H2 k j' Hj') as (j'' & Hj'' & W''). exists j''. split; [exact Hj'' | congruence].
Qed.

Lemma grows_same (s s' : Sim) :
  (joints_ s', jsi_ s', eji_ s', fsi_ s', fmi_ s', model_ s', arm_id_ s')
    = (joints_ s, jsi_ s, eji_ s, fsi_ s, fmi_ s, model_ s, arm_id_ s) ->
  grows s s'.
Proof.
  intros H. injection H as Hj Hn Hf Hs Hl Hm Ha.
  split; [|repeat split].
  - intros k j Hk. exists j. rewrite Hj. split; [exact Hk | reflexivity].
  - intros n Hin. rewrite Hn. exact Hin.
  - intros n Hin. rewrite Hf. exact Hin.
  - intros n Hin. rewrite Hs. exact Hin.
  - intros n Hin. rewrite Hl. exact Hin.
  - rewrite Hm. auto.
  - exact Ha.
Qed.

Lemma grows_records (J : JointMap) (s : Sim) :
  (forall k j, map_find k (joints_ s) = Some (Some j) ->
     exists j', map_find k J = Some (Some j') /\ wiring j' = wiring j) ->
  grows s (set_joints_ J s).
Proof. intros H. split; [exact H | repeat split; auto]. Qed.

Lemma grows_handle (eji fsi fmi : list string) (s : Sim) :
  incl (eji_ s) eji -> incl (fsi_ s) fsi -> incl (fmi_ s) fmi ->
  grows s (set_eji_ E eji (set_fsi_ E fsi (set_fmi_ E fmi s))).
Proof.
  intros He Hs Hm. split; [|repeat split; auto].
  intros k j H. exists j. split; [exact H | reflexivity].
Qed.

Lemma incl_push_back (l : list string) (n : string) : incl l (push_back l n).
Proof. intros x Hx. unfold push_back. apply in_or_app. left. exact Hx. Qed.

Lemma grows_model (m : ModelKDL E) (s : Sim) : grows s (set_model_ E (Some m) s).
Proof.
  split; [|repeat split; auto].
  - intros k j H. exists j. split; [exact H | reflexivity].
  - intros _. discriminate.
Qed.

Lemma joints_index_grows (k : string) : preserves grows (joints_index E k).
Proof.
  intros s o s' Hrun. unfold joints_index in Hrun.
  rewrite bind_unfold in Hrun. unfold get at 1 in Hrun.
  destruct (map_find k (joints_ s)) as [p|] eqn:Hf.
  - injection Hrun as _ <-. apply grows_refl.
  - rewrite bind_unfold in Hrun. unfold modify at 1 in Hrun. injection Hrun as _ <-.
    apply grows_records. intros k' j Hj. exists j. split; [|reflexivity].
    rewrite map_find_emplace_other; [exact Hj|]. intros <-. congruence.
Qed.

Lemma assign_threshold_grows (set : float -> Joint -> Joint) (key : string)
    (value : outcome float) :
  (forall v j, wiring (set v j) = wiring j) ->
  preserves grows (assign_threshold E set key value).
Proof.
  intros Hset s o s' Hrun. unfold assign_threshold in Hrun.
  rewrite bind_unfold in Hrun. unfold lift at 1 in Hrun.
  destruct value as [v|e|f]; try (injection Hrun as _ <-; apply grows_refl).
  rewrite bind_unfold in Hrun.
  destruct (joints_index E key s) as [[p|e|f] s1] eqn:H1;
    try (injection Hrun as _ <-; exact (joints_index_grows key _ _ _ H1)).
  pose proof (joints_index_grows key _ _ _ H1) as Hg.
  apply (grows_trans _ s1); [exact Hg|].
  assert (Hp : map_find key (joints_ s1) = Some p).
  { unfold joints_index in H1. rewrite bind_unfold in H1. unfold get at 1 in H1.
    destruct (map_find key (joints_ s)) as [p'|] eqn:Hf.
    - injection H1 as <- <-. exact Hf.
    - rewrite bind_unfold in H1. unfold modify at 1 in H1. injection H1 as <- <-. cbn.
      destruct (map_find_emplace_same key None (joints_ s)) as [H|[_ [x Hx]]];
        [exact H | congruence]. }
  rewrite bind_unfold in Hrun.
  destruct p as [j|]; [|injection Hrun as _ <-; apply grows_refl].
  cbn [deref] in Hrun. unfold ret at 1, modify at 1 in Hrun. injection Hrun as _ <-.
  apply grows_records. intros k' j' Hj'.
  destruct (String.eqb key k') eqn:Hk.
  - apply String.eqb_eq in Hk. subst k'.
    exists (set v j). split; [exact (map_find_store_eq _ _ _ _ Hp)|].
    rewrite Hset. congruence.
  - apply String.eqb_neq in Hk. exists j'.
    rewrite map_find_store_neq by exact Hk. split; [exact Hj' | reflexivity].
Qed.

(** One step of a proof that a computation only lets the state grow. *)
Ltac grows_step :=
  lazymatch goal with
  | |- preserves _ (joints_index _ _) => apply joints_index_grows
  | |- preserves _ (assign_threshold _ _ _ _) =>
      apply assign_threshold_grows; intros ? ?; reflexivity
  | |- preserves _ (bind _ _ _) =>
      apply (related_bind E grows grows_trans); [|intros ?]
  | |- preserves _ (ret _ _) => apply (related_ret E grows grows_refl)
  | |- preserves _ (throw _ _) => apply (related_throw E grows grows_refl)
  | |- preserves _ (abort _ _) => apply (related_abort E grows grows_refl)
  | |- preserves _ (get _) => apply (related_get E grows grows_refl)
  | |- preserves _ (deref _ _) => apply (related_deref E grows grows_refl)
  | |- preserves _ (lift _ _) => apply (related_lift E grows grows_refl)
  | |- preserves _ (for_each _ _ _) =>
      apply (related_for_each E grows grows_refl grows_trans); intros ?
  | |- preserves _ (for_each_ _ _ _) =>
      apply (related_for_each_ E grows grows_refl grows_trans); intros ?
  | |- preserves _ (catch_invalid_argument _ _ _) =>
      apply (related_catch E grows grows_trans); [|intros ?]
  | |- preserves _ (modify _ _) =>
      apply (related_modify E grows); intros ?;
      first [ apply grows_same; reflexivity
            | apply grows_model
            | apply (grows_handle (push_back (eji_ _) _) (fsi_ _) (fmi_ _));
                [apply incl_push_back | apply incl_refl | apply incl_refl]
            | apply (grows_handle (eji_ _) (push_back (fsi_ _) _) (fmi_ _));
                [apply incl_refl | apply incl_push_back | apply incl_refl]
            | apply (grows_handle (eji_ _) (fsi_ _) (push_back (fmi_ _) _));
                [apply incl_refl | apply incl_refl | apply incl_push_back] ]
  | |- preserves _ (match ?x with _ => _ end) => destruct x
  end.

Lemma registerCommandInterface_grows (u : option urdf.Model) (t : TransmissionInfo.t)
    (k : string) :
  preserves grows (registerCommandInterface E u t k).
Proof.
  unfold registerCommandInterface, joints_front,
    initEffortCommandHandle, initFrankaStateHandle, initFrankaModelHandle, ROS_LOG.
  repeat grows_step.
Qed.

Lemma registerCommandInterfaces_grows (u : option urdf.Model) (t : TransmissionInfo.t) :
  preserves grows (registerCommandInterfaces E u t).
Proof.
  unfold registerCommandInterfaces, joints_front.
  repeat grows_step; apply registerCommandInterface_grows.
Qed.

Lemma grows_model_handle (n : string) (m : M E unit) :
  preserves grows m ->
  hoare (fun s => model_ s <> None /\ In n (fmi_ s)) m
    (fun _ s => model_ s <> None /\ In n (fmi_ s)).
Proof.
  intros Hm s a s' [Hs Hn] Hrun.
  destruct (Hm _ _ _ Hrun) as (_ & _ & _ & _ & L & K & _). split; auto.
Qed.

(** When [initFrankaModelHandle] returns, the model is built and its handle
    registered. *)
Lemma initFrankaModelHandle_model (robot : string) (u : urdf.Model)
    (t : TransmissionInfo.t) :
  hoare anywhere (initFrankaModelHandle E robot u t)
    (fun _ s => model_ s <> None /\ In (robot ++ "_model") (fmi_ s)).
Proof.
  unfold initFrankaModelHandle.
  destruct (TransmissionInfo.joints_ t) as [|joint0 joints].
  { cbn [List.length Nat.eqb negb]. apply hoare_throw. }
  destruct (negb (List.length (joint0 :: joints) =? 2)%nat); [apply hoare_throw|].
  cbn [for_each_].
  apply (hoare_bind _ _ _ _
           (fun _ s => model_ s <> None /\ In (robot ++ "_model") (fmi_ s))).
  - destruct (urdf.getJoint u (JointInfo.name_ joint0)); [|apply hoare_throw].
    destruct (find (has_role "root") (joint0 :: joints)); [|apply hoare_throw].
    destruct (find (has_role "tip") (joint0 :: joints)); [|apply hoare_throw].
    apply (hoare_bind _ _ _ _ (fun _ s => model_ s <> None)).
    + apply hoare_catch; [|intros what; apply hoare_throw].
      apply (hoare_bind _ _ _ _ (fun _ => anywhere)); [apply hoare_any | intros root_joint].
      apply (hoare_bind _ _ _ _ (fun _ => anywhere)); [apply hoare_any | intros tip_joint].
      destruct (ModelKDL_new E u _ _); [apply hoare_throw|].
      apply hoare_modify. intros s _. discriminate.
    + intros _. apply hoare_modify. intros s Hs. split; [exact Hs|].
      cbn. unfold push_back. apply in_or_app. right. left. reflexivity.
  - intros _. apply grows_model_handle.
    repeat grows_step.
Qed.

Lemma initFrankaModelHandle_grows (robot : string) (u : urdf.Model)
    (t : TransmissionInfo.t) :
  preserves grows (initFrankaModelHandle E robot u t).
Proof. unfold initFrankaModelHandle. repeat grows_step. Qed.

Lemma readParameters_grows : preserves grows (readParameters E).
Proof.
  unfold readParameters, readArray_, modify_robot_state, ROS_LOG.
  repeat grows_step.
Qed.

(** What the first loop of [initSim] does with one transmission when it goes
    on to the next. *)
Lemma collectJoint_continues (parent : ModelPtr) (u : option urdf.Model)
    (t : TransmissionInfo.t) (s s' : Sim) :
  collectJoint E parent u t s = (Ret None, s') ->
  (TransmissionInfo.type_ t <> SimpleTransmission /\ s' = s) \/
  (TransmissionInfo.type_ t = SimpleTransmission /\
   exists joint0 j,
     TransmissionInfo.joints_ t = [joint0] /\
     wired parent u (JointInfo.name_ joint0) j /\
     s' = set_joints_ (map_emplace (JointInfo.name_ joint0) (Some j) (joints_ s)) s).
Proof.
  unfold collectJoint.
  destruct (TransmissionInfo.type_ t =? SimpleTransmission) eqn:Ht; cbn [negb].
  2:{ intros H. injection H as <-. left. split; [|reflexivity].
      apply String.eqb_neq. exact Ht. }
  apply String.eqb_eq in Ht.
  destruct (TransmissionInfo.joints_ t) as [|joint0 [|joint1 joints]]; cbn [List.length Nat.ltb Nat.leb];
    try discriminate.
  destruct u as [um|]; [|discriminate].
  destruct (urdf.getJoint um (JointInfo.name_ joint0)) as [uj|] eqn:Hu; [|discriminate].
  destruct (GetJoint parent (JointInfo.name_ joint0)) as [h|] eqn:Hh; [|discriminate].
  intros H. injection H as <-.
  right. split; [exact Ht|].
  eexists. eexists. split; [reflexivity|]. split; [|reflexivity].
  split; [reflexivity|]. split; [exact Hh|].
  exists um, uj. repeat split. exact Hu.
Qed.

Lemma all_wired_emplace (parent : ModelPtr) (u : option urdf.Model) (k : string)
    (j : Joint) (s : Sim) :
  all_wired parent u s -> wired parent u k j ->
  all_wired parent u (set_joints_ (map_emplace k (Some j) (joints_ s)) s) /\
  (exists v, map_find k (map_emplace k (Some j) (joints_ s)) = Some v) /\
  (forall k', (exists v, map_find k' (joints_ s) = Some v) ->
     exists v, map_find k' (map_emplace k (Some j) (joints_ s)) = Some v).
Proof.
  intros Hall Hw.
  destruct (map_find_emplace_same k (Some j) (joints_ s)) as [Hnew | [Hsame [x Hx]]].
  - split; [|split].
    + intros k' v Hf. cbn in Hf.
      destruct (String.eqb k k') eqn:Hk.
      * apply String.eqb_eq in Hk. subst k'. rewrite Hnew in Hf. injection Hf as <-.
        exists j. split; [reflexivity | exact Hw].
      * apply String.eqb_neq in Hk. rewrite map_find_emplace_other in Hf by exact Hk.
        exact (Hall k' v Hf).
    + eexists. exact Hnew.
    + intros k' [v Hv]. destruct (String.eqb k k') eqn:Hk.
      * apply String.eqb_eq in Hk. subst k'. eexists. exact Hnew.
      * apply String.eqb_neq in Hk. rewrite map_find_emplace_other by exact Hk.
        exists v. exact Hv.
  - rewrite Hsame. split; [|split].
    + intros k' v Hf. exact (Hall k' v Hf).
    + exists x. exact Hx.
    + auto.
Qed.

Lemma collectJoint_loop (parent : ModelPtr) (u : option urdf.Model)
    (ts : list TransmissionInfo.t) (s s' : Sim) :
  for_each E ts (collectJoint E parent u) s = (Ret None, s') ->
  all_wired parent u s ->
  all_wired parent u s' /\
  (forall k, (exists v, map_find k (joints_ s) = Some v) ->
     exists v, map_find k (joints_ s') = Some v) /\
  (forall t, In t ts -> TransmissionInfo.type_ t = SimpleTransmission ->
     exists joint0,
       TransmissionInfo.joints_ t = [joint0] /\
       exists v, map_find (JointInfo.name_ joint0) (joints_ s') = Some v).
Proof.
  revert s; induction ts as [|t ts IH]; intros s; cbn [for_each].
  - intros H Hall. injection H as <-. repeat split; auto. intros t [].
  - rewrite bind_unfold.
    destruct (collectJoint E parent u t s) as [[[b|]|e|f] s1] eqn:H1; try discriminate.
    intros H Hall.
    destruct (collectJoint_continues _ _ _ _ _ H1)
      as [[Ht ->] | (Ht & joint0 & j & Hj & Hw & ->)].
    + destruct (IH _ H Hall) as (Hall' & Hmono & Hts).
      repeat split; [exact Hall' | exact Hmono|].
      intros t' [<-|Hin] Ht'; [contradiction | exact (Hts t' Hin Ht')].
    + destruct (all_wired_emplace parent u _ j s Hall Hw) as (Hall1 & Hnew & Hmono1).
      destruct (IH _ H Hall1) as (Hall' & Hmono & Hts).
      repeat split; [exact Hall'| |].
      * intros k Hk. apply Hmono. cbn. apply Hmono1. exact Hk.
      * intros t' [<-|Hin] Ht'; [|exact (Hts t' Hin Ht')].
        exists joint0. split; [exact Hj|]. apply Hmono. exact Hnew.
Qed.

(** [initSim] up to the joint state handles, on an object that has no joint
    yet. *)
Lemma initSim_joints_collects (ns : string) (parent : ModelPtr) (u : option urdf.Model)
    (ts : list TransmissionInfo.t) (s s1 : Sim) :
  initSim_joints E ns parent u ts s = (Ret None, s1) ->
  joints_ s = [] ->
  forall t, In t ts -> TransmissionInfo.type_ t = SimpleTransmission ->
    exists joint0 j,
      TransmissionInfo.joints_ t = [joint0] /\
      map_find (JointInfo.name_ joint0) (joints_ s1) = Some (Some j) /\
      wired parent u (JointInfo.name_ joint0) j /\
      In (name j) (jsi_ s1).
Proof.
  unfold initSim_joints. rewrite bind_unfold.
  pose proof (initSim_begin_registered E ns parent) as Hreg.
  assert (Hb : preserves (same joints_) (initSim_begin E ns parent))
    by (unfold initSim_begin, ROS_LOG; repeat frame_step; reflexivity).
  destruct (initSim_begin E ns parent s) as [[[]|e|f] s0] eqn:H0; try discriminate.
  specialize (Hb _ _ _ H0). unfold same in Hb.
  rewrite bind_unfold.
  destruct (for_each E ts (collectJoint E parent u) s0) as [[[b|]|e|f] s2] eqn:H2;
    try discriminate.
  rewrite bind_unfold. unfold get at 1. rewrite bind_unfold.
  destruct (for_each_ E (joints_ s2) (fun pair => initJointStateHandle E (snd pair)) s2)
    as [[[]|e|f] s3] eqn:H3; try discriminate.
  intros H Hempty. injection H as <-.
  assert (Hall0 : all_wired parent u s0).
  { intros k v Hf.
    pose proof (f_equal (map_find k) (eq_trans Hb Hempty)) as Hn.
    pose proof (eq_trans (eq_sym Hn) Hf) as Hx. discriminate Hx. }
  destruct (collectJoint_loop _ _ _ _ _ H2 Hall0) as (Hall & _ & Hts).
  destruct (initJointStateHandle_loop _ _ _ _ H3) as (Hj & _ & Hjsi).
  intros t Hin Ht.
  destruct (Hts t Hin Ht) as (joint0 & Hjoint & v & Hv).
  destruct (Hall _ _ Hv) as (j & -> & Hw).
  exists joint0, j. rewrite Hj.
  repeat split; [exact Hjoint | exact Hv | apply Hw | apply Hw | apply Hw|].
  exact (Hjsi _ _ (map_find_In_entry _ _ _ Hv)).
Qed.

Lemma registerInterfaces_grows :
  preserves grows
    (bind E (registerInterface E "eji_") (fun _ =>
     bind E (registerInterface E "jsi_") (fun _ =>
     bind E (registerInterface E "fsi_") (fun _ =>
     bind E (registerInterface E "fmi_") (fun _ => readParameters E))))).
Proof.
  unfold registerInterface.
  do 4 (apply (related_bind E grows grows_trans);
        [apply (related_modify E grows); intros ?; apply grows_same; reflexivity
        | intros _]).
  apply readParameters_grows.
Qed.

(** The three phases of an initialisation that returned [true]. *)
Lemma initSim_phases (ns : string) (parent : ModelPtr) (u : option urdf.Model)
    (ts : list TransmissionInfo.t) (s s' : Sim) :
  initSim E ns parent u ts s = (Ret true, s') ->
  exists s1 s2,
    initSim_joints E ns parent u ts s = (Ret None, s1) /\
    for_each E ts (registerCommandInterfaces E u) s1 = (Ret None, s2) /\
    grows s1 s2 /\ grows s2 s'.
Proof.
  unfold initSim. rewrite bind_unfold.
  destruct (initSim_joints E ns parent u ts s) as [[[b|]|e|x] s1] eqn:H1; try discriminate.
  - intros H. injection H as -> _.
    exfalso. exact (initSim_joints_no_true _ _ _ _ _ _ _ _ H1 eq_refl).
  - rewrite bind_unfold.
    destruct (for_each E ts (registerCommandInterfaces E u) s1) as [[[b|]|e|x] s2] eqn:H2;
      try discriminate.
    + intros H. injection H as -> _. exfalso.
      refine (post_for_each E ts _ no_true _ _ _ _ _ H2 eq_refl); [discriminate|].
      intros t. apply registerCommandInterfaces_no_true.
    + intros H. exists s1, s2. split; [reflexivity|]. split; [exact H2|]. split.
      * refine (related_for_each E grows grows_refl grows_trans ts _ _ _ _ _ H2).
        intros t. apply registerCommandInterfaces_grows.
      * exact (registerInterfaces_grows _ _ _ H).
Qed.

Lemma initSim_grows (ns : string) (parent : ModelPtr) (u : option urdf.Model)
    (ts : list TransmissionInfo.t) (s s' : Sim) :
  initSim E ns parent u ts s = (Ret true, s') ->
  exists s1, initSim_joints E ns parent u ts s = (Ret None, s1) /\ grows s1 s'.
Proof.
  intros H. destruct (initSim_phases _ _ _ _ _ _ H) as (s1 & s2 & H1 & _ & G1 & G2).
  exists s1. split; [exact H1 | exact (grows_trans _ _ _ G1 G2)].
Qed.

(** After an initialisation, of an object that had no joint yet, that
    returned [true]: every simple transmission lists exactly one joint, and
    the joint map holds under its name a record with that name, the type and
    the axis the URDF declares for it and the handle of the Gazebo joint of
    that name, for which a joint state handle is registered. *)
Theorem initSim_collects_joints (ns : string) (parent : ModelPtr) (u : option urdf.Model)
    (ts : list TransmissionInfo.t) (s s' : Sim) (t : TransmissionInfo.t) :
  initSim E ns parent u ts s = (Ret true, s') ->
  joints_ s = [] ->
  In t ts -> TransmissionInfo.type_ t = SimpleTransmission ->
  exists joint0 j um uj,
    TransmissionInfo.joints_ t = [joint0] /\
    map_find (JointInfo.name_ joint0) (joints_ s') = Some (Some j) /\
    u = Some um /\ urdf.getJoint um (JointInfo.name_ joint0) = Some uj /\
    name j = JointInfo.name_ joint0 /\
    type j = urdf.type uj /\ axis j = urdf.axis uj /\
    GetJoint parent (JointInfo.name_ joint0) = Some (handle j) /\
    In (name j) (jsi_ s').
Proof.
  intros H Hempty Hin Ht.
  destruct (initSim_grows _ _ _ _ _ _ H) as (s1 & H1 & Hrecords & Hhandles & _).
  destruct (initSim_joints_collects _ _ _ _ _ _ H1 Hempty t Hin Ht)
    as (joint0 & j & Hjoint & Hj & (Hname & Hhandle & um & uj & Hu & Huj & Htype & Haxis)
        & Hjsi).
  destruct (Hrecords _ _ Hj) as (j' & Hj' & Hw).
  unfold wiring in Hw. injection Hw as Wn Wt Wa Wh.
  exists joint0, j', um, uj.
  repeat split; try assumption; try congruence.
  apply Hhandles. rewrite Wn. exact Hjsi.
Qed.

End Records.

Section Interfaces.

Context (E : Env).

Local Abbreviation Sim := (FrankaHWSim E).

(** ** The effort handles *)

Lemma collected_grows (ts : list TransmissionInfo.t) (s s' : Sim) :
  grows s s' -> collected ts s -> collected ts s'.
Proof.
  intros (Hrec & _) Hc t Hin Ht.
  destruct (Hc t Hin Ht) as (joint0 & j & Hj & Hf & Hn).
  destruct (Hrec _ _ Hf) as (j' & Hf' & Hw).
  exists joint0, j'. split; [exact Hj|]. split; [exact Hf'|].
  unfold wiring in Hw. injection Hw as Wn _ _ _. congruence.
Qed.

Lemma joints_index_found (k : string) (p : option Joint) (s : Sim) :
  map_find k (joints_ s) = Some p -> joints_index E k s = (Ret p, s).
Proof.
  intros Hf. unfold joints_index. rewrite bind_unfold. unfold get at 1.
  destruct (map_find k (joints_ s)) as [p'|]; [|discriminate].
  injection Hf as ->. reflexivity.
Qed.

(** The effort interface of the joint of a simple transmission. *)
Lemma registerCommandInterface_effort (u : option urdf.Model) (t : TransmissionInfo.t)
    (joint0 : JointInfo.t) (j : Joint) (s s' : Sim) :
  TransmissionInfo.joints_ t = [joint0] ->
  TransmissionInfo.type_ t = SimpleTransmission ->
  map_find (JointInfo.name_ joint0) (joints_ s) = Some (Some j) ->
  name j = JointInfo.name_ joint0 ->
  registerCommandInterface E u t EffortJointInterface s = (Ret None, s') ->
  In (JointInfo.name_ joint0) (eji_ s').
Proof.
  intros Hj Ht Hf Hn. unfold registerCommandInterface, joints_front.
  rewrite Hj, Ht. rewrite bind_unfold. unfold ret at 1.
  rewrite bind_unfold, (joints_index_found _ _ _ Hf).
  rewrite !String.eqb_refl. cbn [deref].
  rewrite bind_unfold, bind_unfold. unfold ret at 1.
  rewrite bind_unfold. unfold ROS_LOG at 1, modify at 1.
  rewrite bind_unfold. unfold initEffortCommandHandle. cbn [deref].
  rewrite bind_unfold. unfold ret at 1. rewrite bind_unfold. unfold get at 1.
  match goal with
  | |- context [if ?b then _ else _] => destruct b
  end; [|discriminate].
  unfold modify at 1, ret at 1. cbv iota beta.
  intros H. injection H as <-. cbn. unfold push_back.
  apply in_or_app. right. left. exact Hn.
Qed.

Lemma registerCommandInterfaces_effort (u : option urdf.Model)
    (ts : list TransmissionInfo.t) (t : TransmissionInfo.t) (s s' : Sim) :
  In t ts -> TransmissionInfo.type_ t = SimpleTransmission ->
  collected ts s ->
  registerCommandInterfaces E u t s = (Ret None, s') ->
  exists joint0,
    TransmissionInfo.joints_ t = [joint0] /\
    (In EffortJointInterface (JointInfo.hardware_interfaces_ joint0) ->
     In (JointInfo.name_ joint0) (eji_ s')).
Proof.
  intros Hin Ht Hc. destruct (Hc t Hin Ht) as (joint0 & j & Hj & Hf & Hn).
  unfold registerCommandInterfaces, joints_front. rewrite Hj.
  rewrite bind_unfold. unfold ret at 1.
  intros Hrun. exists joint0. split; [reflexivity|]. intros Heffort.
  refine (for_each_done E grows (grows_refl E) (grows_trans E) (collected ts)
            (fun k s => k = EffortJointInterface -> In (JointInfo.name_ joint0) (eji_ s))
            (JointInfo.hardware_interfaces_ joint0) (registerCommandInterface E u t)
            _ _ _ _ s s' Hc Hrun EffortJointInterface Heffort eq_refl).
  - intros k. apply registerCommandInterface_grows.
  - intros s1 s2. apply collected_grows.
  - intros k s1 s2 (_ & _ & Hg & _) H Hk. apply Hg. exact (H Hk).
  - intros k s1 s2 _ Hc1 Hrun1 ->.
    destruct (Hc1 t Hin Ht) as (joint0' & j' & Hj' & Hf' & Hn').
    rewrite Hj in Hj'. injection Hj' as <-.
    exact (registerCommandInterface_effort u t joint0 j' s1 s2 Hj Ht Hf' Hn' Hrun1).
Qed.

(** After an initialisation, of an object that had no joint yet, that
    returned [true]: the joint of every simple transmission that lists the
    effort interface has an effort handle, so that a controller can command
    it. *)
Theorem initSim_registers_effort_handles (ns : string) (parent : ModelPtr)
    (u : option urdf.Model) (ts : list TransmissionInfo.t) (s s' : Sim)
    (t : TransmissionInfo.t) :
  initSim E ns parent u ts s = (Ret true, s') ->
  joints_ s = [] ->
  In t ts -> TransmissionInfo.type_ t = SimpleTransmission ->
  exists joint0,
    TransmissionInfo.joints_ t = [joint0] /\
    (In EffortJointInterface (JointInfo.hardware_interfaces_ joint0) ->
     In (JointInfo.name_ joint0) (eji_ s')).
Proof.
  intros H Hempty Hin Ht.
  destruct (initSim_phases _ _ _ _ _ _ _ H) as (s1 & s2 & H1 & H2 & _ & G2).
  assert (Hc : collected ts s1).
  { intros t' Hin' Ht'.
    destruct (initSim_joints_collects _ _ _ _ _ _ _ H1 Hempty t' Hin' Ht')
      as (joint0 & j & Hj & Hf & Hw & _).
    exists joint0, j. split; [exact Hj|]. split; [exact Hf | apply Hw]. }
  assert (Hdone : exists joint0,
            TransmissionInfo.joints_ t = [joint0] /\
            (In EffortJointInterface (JointInfo.hardware_interfaces_ joint0) ->
             In (JointInfo.name_ joint0) (eji_ s2))).
  { refine (for_each_done E grows (grows_refl E) (grows_trans E) (collected ts)
              (fun t s =>
                 TransmissionInfo.type_ t = SimpleTransmission ->
                 exists joint0,
                   TransmissionInfo.joints_ t = [joint0] /\
                   (In EffortJointInterface (JointInfo.hardware_interfaces_ joint0) ->
                    In (JointInfo.name_ joint0) (eji_ s)))
              ts (registerCommandInterfaces E u) _ _ _ _ s1 s2 Hc H2 t Hin Ht).
    - intros t'. apply registerCommandInterfaces_grows.
    - intros s3 s4. apply collected_grows.
    - intros t' s3 s4 (_ & _ & Hg & _) Hd Ht'.
      destruct (Hd Ht') as (joint0 & Hj & He). exists joint0. split; [exact Hj|].
      intros Hk. apply Hg. exact (He Hk).
    - intros t' s3 s4 Hin' Hc3 Hrun Ht'.
      exact (registerCommandInterfaces_effort u ts t' s3 s4 Hin' Ht' Hc3 Hrun). }
  destruct Hdone as (joint0 & Hj & He). exists joint0. split; [exact Hj|].
  intros Hk. destruct G2 as (_ & _ & Hg & _). apply Hg. exact (He Hk).
Qed.


(** ** The state and the model interface *)

Lemma grows_arm_id (a : string) {A} (m : M E A) :
  preserves grows m -> hoare (fun s => arm_id_ s = a) m (fun _ s => arm_id_ s = a).
Proof.
  intros Hm s r s' Hs Hrun.
  destruct (Hm _ _ _ Hrun) as (_ & _ & _ & _ & _ & _ & Ha). congruence.
Qed.

Lemma joints_front_grows (t : TransmissionInfo.t) : preserves grows (joints_front E t).
Proof.
  unfold joints_front.
  destruct (TransmissionInfo.joints_ t);
    [apply (related_abort E grows (grows_refl E)) | apply (related_ret E grows (grows_refl E))].
Qed.

(** When [initFrankaStateHandle] returns, the transmission lists seven
    joints of the URDF and the handle is registered. *)
Lemma initFrankaStateHandle_state (robot : string) (u : urdf.Model)
    (t : TransmissionInfo.t) :
  hoare anywhere (initFrankaStateHandle E robot u t)
    (fun _ s =>
       In (robot ++ "_robot") (fsi_ s) /\
       List.length (TransmissionInfo.joints_ t) = 7%nat /\
       forallb (in_urdf u) (TransmissionInfo.joints_ t) = true).
Proof.
  intros s a s' _ Hrun. unfold initFrankaStateHandle in Hrun.
  destruct (List.length (TransmissionInfo.joints_ t) =? 7)%nat eqn:Hlen;
    cbn [negb] in Hrun; [|discriminate].
  rewrite bind_unfold in Hrun.
  match type of Hrun with
  | context [for_each_ E ?l ?body s] =>
      pose proof (initFrankaStateHandle_loop E robot u l s) as Ho;
      destruct (for_each_ E l body s) as [[[]|e|f] s1]; try discriminate
  end.
  cbn [fst] in Ho.
  destruct (forallb (in_urdf u) (TransmissionInfo.joints_ t)) eqn:Hall.
  - unfold modify in Hrun. injection Hrun as _ Hs'. rewrite <- Hs'.
    split; [|split; [apply Nat.eqb_eq, Hlen | reflexivity]].
    cbn. unfold push_back. apply in_or_app. right. left. reflexivity.
  - destruct (find _ _) as [joint|] eqn:Hfind; [discriminate|].
    exfalso.
    assert (Hnone : forallb (in_urdf u) (TransmissionInfo.joints_ t) = true).
    { apply forallb_forall. intros x Hx.
      pose proof (find_none _ _ Hfind x Hx) as Hn. apply negb_false_iff in Hn. exact Hn. }
    congruence.
Qed.

(** One interface of the first joint of a state or a model transmission. *)
Lemma registerCommandInterface_franka (u : option urdf.Model) (t : TransmissionInfo.t)
    (k a : string) :
  hoare (fun s => arm_id_ s = a) (registerCommandInterface E u t k)
    (fun r s =>
       r = None ->
       (TransmissionInfo.type_ t = FrankaStateInterface ->
        In (a ++ "_robot") (fsi_ s) /\
        exists um,
          u = Some um /\ List.length (TransmissionInfo.joints_ t) = 7%nat /\
          forallb (in_urdf um) (TransmissionInfo.joints_ t) = true) /\
       (TransmissionInfo.type_ t = FrankaModelInterface ->
        model_ s <> None /\ In (a ++ "_model") (fmi_ s))).
Proof.
  unfold registerCommandInterface.
  apply (hoare_bind _ _ _ _ (fun _ s => arm_id_ s = a));
    [apply grows_arm_id, joints_front_grows | intros joint0].
  apply (hoare_bind _ _ _ _ (fun _ s => arm_id_ s = a));
    [apply grows_arm_id, joints_index_grows | intros joint].
  destruct (TransmissionInfo.type_ t =? SimpleTransmission) eqn:Hsimple.
  { apply String.eqb_eq in Hsimple. rewrite Hsimple.
    change (SimpleTransmission =? FrankaStateInterface) with false.
    change (SimpleTransmission =? FrankaModelInterface) with false.
    apply (hoare_conseq _ _ anywhere _
             (fun (_ : option bool) (_ : Sim) => True)); [intros; exact I | |].
    - intros r s _ _. split; intros H; discriminate H.
    - intros s r s' _ _. exact I. }
  apply (hoare_bind _ _ _ _ (fun c s => c = false /\ arm_id_ s = a)).
  { apply hoare_ret. auto. }
  intros c. destruct c.
  { intros s r s' [Hc _]. discriminate. }
  destruct (TransmissionInfo.type_ t =? FrankaStateInterface) eqn:Hstate.
  - apply String.eqb_eq in Hstate.
    apply (hoare_bind _ _ _ _ (fun _ s => arm_id_ s = a)).
    { unfold ROS_LOG. apply hoare_modify. intros s [_ H]. exact H. }
    intros _. apply hoare_catch.
    + apply (hoare_bind _ _ _ _ (fun s0 s => arm_id_ s0 = a)).
      { apply hoare_get. auto. }
      intros s0. destruct u as [um|]; [|apply hoare_bind_abort].
      cbn [deref].
      * apply (hoare_bind _ _ _ _ (fun um' s => um' = um /\ arm_id_ s0 = a)).
        { apply hoare_ret. auto. }
        intros um'.
        apply (hoare_bind _ _ _ _
                 (fun _ s =>
                    In (a ++ "_robot") (fsi_ s) /\
                    List.length (TransmissionInfo.joints_ t) = 7%nat /\
                    forallb (in_urdf um) (TransmissionInfo.joints_ t) = true)).
        { intros s r s' [-> <-] Hrun.
          exact (initFrankaStateHandle_state _ _ _ s r s' I Hrun). }
        intros _. apply hoare_ret. intros s (Hin & Hlen & Hall) _.
        split.
        -- intros _. split; [exact Hin|]. exists um. auto.
        -- intros H. rewrite Hstate in H. discriminate H.
    + intros what.
      apply (hoare_bind _ _ _ _ (fun _ => anywhere)); [apply hoare_any | intros _].
      apply hoare_ret. intros s _ H. discriminate H.
  - destruct (TransmissionInfo.type_ t =? FrankaModelInterface) eqn:Hmodel.
    + apply String.eqb_eq in Hmodel.
      apply (hoare_bind _ _ _ _ (fun _ s => arm_id_ s = a)).
      { unfold ROS_LOG. apply hoare_modify. intros s [_ H]. exact H. }
      intros _. apply hoare_catch.
      * apply (hoare_bind _ _ _ _ (fun s0 s => arm_id_ s0 = a)).
        { apply hoare_get. auto. }
        intros s0.
        apply (hoare_bind _ _ _ _ (fun _ s => arm_id_ s0 = a)).
        { apply hoare_deref. auto. }
        intros um.
        apply (hoare_bind _ _ _ _
                 (fun _ s => model_ s <> None /\ In (a ++ "_model") (fmi_ s))).
        { intros s r s' <- Hrun.
          exact (initFrankaModelHandle_model _ _ _ _ s r s' I Hrun). }
        intros _. apply hoare_ret. intros s Hs _.
        split.
        -- intros H. rewrite Hmodel in H. discriminate H.
        -- intros _. exact Hs.
      * intros what.
        apply (hoare_bind _ _ _ _ (fun _ => anywhere)); [apply hoare_any | intros _].
        apply hoare_ret. intros s _ H. discriminate H.
    + apply String.eqb_neq in Hstate, Hmodel.
      apply (hoare_conseq _ _ anywhere _
               (fun (_ : option bool) (_ : Sim) => True)); [intros; exact I | |].
      * intros r s _ _. split; intros H; contradiction.
      * intros s r s' _ _. exact I.
Qed.

Lemma registerCommandInterfaces_franka (u : option urdf.Model) (t : TransmissionInfo.t)
    (a : string) (s s' : Sim) :
  arm_id_ s = a ->
  (forall joint0, hd_error (TransmissionInfo.joints_ t) = Some joint0 ->
     JointInfo.hardware_interfaces_ joint0 <> []) ->
  registerCommandInterfaces E u t s = (Ret None, s') ->
  (TransmissionInfo.type_ t = FrankaStateInterface ->
   In (a ++ "_robot") (fsi_ s') /\
   exists um,
     u = Some um /\ List.length (TransmissionInfo.joints_ t) = 7%nat /\
     forallb (in_urdf um) (TransmissionInfo.joints_ t) = true) /\
  (TransmissionInfo.type_ t = FrankaModelInterface ->
   model_ s' <> None /\ In (a ++ "_model") (fmi_ s')).
Proof.
  intros Ha Hlists. unfold registerCommandInterfaces, joints_front.
  destruct (TransmissionInfo.joints_ t) as [|joint0 joints] eqn:Hj; [discriminate|].
  rewrite bind_unfold. unfold ret at 1.
  destruct (JointInfo.hardware_interfaces_ joint0) as [|k ks] eqn:Hk.
  { exfalso. exact (Hlists joint0 eq_refl Hk). }
  intros Hrun. rewrite <- Hj.
  refine (for_each_done E grows (grows_refl E) (grows_trans E) (fun s => arm_id_ s = a)
            (fun _ s =>
               (TransmissionInfo.type_ t = FrankaStateInterface ->
                In (a ++ "_robot") (fsi_ s) /\
                exists um,
                  u = Some um /\ List.length (TransmissionInfo.joints_ t) = 7%nat /\
                  forallb (in_urdf um) (TransmissionInfo.joints_ t) = true) /\
               (TransmissionInfo.type_ t = FrankaModelInterface ->
                model_ s <> None /\ In (a ++ "_model") (fmi_ s)))
            (k :: ks) (registerCommandInterface E u t)
            _ _ _ _ s s' Ha Hrun k (or_introl eq_refl)).
  - intros k'. apply registerCommandInterface_grows.
  - intros s1 s2 (_ & _ & _ & _ & _ & _ & Hsame) H1. congruence.
  - intros k' s1 s2 (_ & _ & _ & Hs & Hm & Hmod & _) [H1 H2]. split.
    + intros Ht. destruct (H1 Ht) as [Hin Hrest]. split; [exact (Hs _ Hin) | exact Hrest].
    + intros Ht. destruct (H2 Ht) as [Hnone Hin]. split; [exact (Hmod Hnone) | exact (Hm _ Hin)].
  - intros k' s1 s2 _ Ha1 Hrun1.
    exact (registerCommandInterface_franka u t k' a s1 None s2 Ha1 Hrun1 eq_refl).
Qed.

Lemma initSim_joints_arm_id (ns : string) (parent : ModelPtr) (u : option urdf.Model)
    (ts : list TransmissionInfo.t) (s s1 : Sim) (r : option bool) :
  initSim_joints E ns parent u ts s = (Ret r, s1) ->
  arm_id_ s1 = param_string E "arm_id" ns.
Proof.
  unfold initSim_joints, initSim_begin. rewrite bind_unfold, bind_unfold.
  unfold modify at 1. cbv iota beta.
  match goal with
  | |- match ?m ?s0 with _ => _ end = _ -> _ =>
      assert (Hrest : preserves (same arm_id_) m)
        by (unfold ROS_LOG; repeat frame_step; reflexivity);
      destruct (m s0) as [[[]|e|f] s2] eqn:H2; try discriminate;
      specialize (Hrest _ _ _ H2)
  end.
  match goal with
  | |- ?m ?s0 = _ -> _ =>
      assert (Hrest' : preserves (same arm_id_) m)
        by (unfold collectJoint, initJointStateHandle, ROS_LOG; repeat frame_step;
            reflexivity);
      intros H3; specialize (Hrest' _ _ _ H3)
  end.
  exact (eq_trans Hrest' Hrest).
Qed.

(** After an initialisation that returned [true], every state transmission
    and every model transmission whose first joint lists a hardware
    interface has its handle registered under the arm identifier; the
    model is built, and a state transmission lists seven joints that the
    URDF all declares. *)
Theorem initSim_registers_franka_handles (ns : string) (parent : ModelPtr)
    (u : option urdf.Model) (ts : list TransmissionInfo.t) (s s' : Sim)
    (t : TransmissionInfo.t) :
  initSim E ns parent u ts s = (Ret true, s') ->
  In t ts ->
  (forall joint0, hd_error (TransmissionInfo.joints_ t) = Some joint0 ->
     JointInfo.hardware_interfaces_ joint0 <> []) ->
  arm_id_ s' = param_string E "arm_id" ns /\
  (TransmissionInfo.type_ t = FrankaStateInterface ->
   In (arm_id_ s' ++ "_robot") (fsi_ s') /\
   exists um,
     u = Some um /\ List.length (TransmissionInfo.joints_ t) = 7%nat /\
     forallb (in_urdf um) (TransmissionInfo.joints_ t) = true) /\
  (TransmissionInfo.type_ t = FrankaModelInterface ->
   model_ s' <> None /\ In (arm_id_ s' ++ "_model") (fmi_ s')).
Proof.
  intros H Hin Hlists.
  destruct (initSim_phases _ _ _ _ _ _ _ H) as (s1 & s2 & H1 & H2 & G1 & G2).
  pose proof (initSim_joints_arm_id _ _ _ _ _ _ _ H1) as Ha1.
  assert (Ha : arm_id_ s' = arm_id_ s1).
  { destruct G1 as (_ & _ & _ & _ & _ & _ & A1).
    destruct G2 as (_ & _ & _ & _ & _ & _ & A2). congruence. }
  split; [congruence|]. rewrite Ha.
  assert (Hdone :
    (TransmissionInfo.type_ t = FrankaStateInterface ->
     In (arm_id_ s1 ++ "_robot") (fsi_ s2) /\
     exists um,
       u = Some um /\ List.length (TransmissionInfo.joints_ t) = 7%nat /\
       forallb (in_urdf um) (TransmissionInfo.joints_ t) = true) /\
    (TransmissionInfo.type_ t = FrankaModelInterface ->
     model_ s2 <> None /\ In (arm_id_ s1 ++ "_model") (fmi_ s2))).
  { refine (for_each_done E grows (grows_refl E) (grows_trans E)
              (fun s => arm_id_ s = arm_id_ s1)
              (fun t s =>
                 (forall joint0, hd_error (TransmissionInfo.joints_ t) = Some joint0 ->
                    JointInfo.hardware_interfaces_ joint0 <> []) ->
                 (TransmissionInfo.type_ t = FrankaStateInterface ->
                  In (arm_id_ s1 ++ "_robot") (fsi_ s) /\
                  exists um,
                    u = Some um /\ List.length (TransmissionInfo.joints_ t) = 7%nat /\
                    forallb (in_urdf um) (TransmissionInfo.joints_ t) = true) /\
                 (TransmissionInfo.type_ t = FrankaModelInterface ->
                  model_ s <> None /\ In (arm_id_ s1 ++ "_model") (fmi_ s)))
              ts (registerCommandInterfaces E u) _ _ _ _ s1 s2 eq_refl H2 t Hin Hlists).
    - intros t'. apply registerCommandInterfaces_grows.
    - intros s3 s4 (_ & _ & _ & _ & _ & _ & Hsame) H3. congruence.
    - intros t' s3 s4 (_ & _ & _ & Hs & Hm & Hmod & _) Hd Hl.
      destruct (Hd Hl) as [D1 D2]. split.
      + intros Ht. destruct (D1 Ht) as [Hfs Hrest]. split; [exact (Hs _ Hfs) | exact Hrest].
      + intros Ht. destruct (D2 Ht) as [Hnone Hfm].
        split; [exact (Hmod Hnone) | exact (Hm _ Hfm)].
    - intros t' s3 s4 _ Ha3 Hrun Hl.
      exact (registerCommandInterfaces_franka u t' (arm_id_ s1) s3 s4 Ha3 Hl Hrun). }
  destruct G2 as (_ & _ & _ & Hs & Hm & Hmod & _).
  destruct Hdone as [D1 D2]. split.
  - intros Ht. destruct (D1 Ht) as [Hfs Hrest]. split; [exact (Hs _ Hfs) | exact Hrest].
  - intros Ht. destruct (D2 Ht) as [Hnone Hfm]. split; [exact (Hmod Hnone) | exact (Hm _ Hfm)].
Qed.

(** ** Without a model transmission *)

Lemma preserves_for_each_in {A B C} (f : Sim -> C) (l : list A)
    (body : A -> M E (option B)) :
  (forall x, In x l -> preserves (same f) (body x)) ->
  preserves (same f) (for_each E l body).
Proof.
  induction l as [|x l IH]; intros Hb; cbn [for_each].
  - apply preserves_ret.
  - apply preserves_bind; [apply Hb; left; reflexivity|].
    intros [v|]; [apply preserves_ret|].
    apply IH. intros y Hy. apply Hb. right. exact Hy.
Qed.

Lemma initSim_model (ns : string) (parent : ModelPtr) (u : option urdf.Model)
    (ts : list TransmissionInfo.t) :
  (forall t, In t ts -> TransmissionInfo.type_ t <> FrankaModelInterface) ->
  preserves (same model_) (initSim E ns parent u ts).
Proof.
  intros Hts. unfold initSim.
  apply preserves_bind.
  { unfold initSim_joints, initSim_begin, collectJoint, initJointStateHandle, ROS_LOG.
    repeat frame_step; reflexivity. }
  intros [b|]; [apply preserves_ret|].
  apply preserves_bind.
  - apply preserves_for_each_in. intros t Hin.
    pose proof (Hts t Hin) as Ht. apply String.eqb_neq in Ht.
    unfold registerCommandInterfaces, registerCommandInterface. rewrite Ht.
    unfold joints_front, joints_index, initEffortCommandHandle, initFrankaStateHandle,
      ROS_LOG.
    repeat frame_step; reflexivity.
  - intros [b|]; [apply preserves_ret|].
    unfold registerInterface, readParameters, readArray_, assign_threshold, joints_index,
      modify_robot_state, ROS_LOG.
    repeat frame_step; reflexivity.
Qed.

(** The model is built through a model transmission and in no other way:
    when no transmission has the type of the model interface,
    initialisation, however it ends, leaves [model_] as it found it. *)
Theorem initSim_model_needs_transmission (ns : string) (parent : ModelPtr)
    (u : option urdf.Model) (ts : list TransmissionInfo.t) (s : Sim) :
  (forall t, In t ts -> TransmissionInfo.type_ t <> FrankaModelInterface) ->
  model_ (snd (initSim E ns parent u ts s)) = model_ s.
Proof.
  intros Hts. destruct (initSim E ns parent u ts s) as [o s'] eqn:H.
  exact (initSim_model ns parent u ts Hts _ _ _ H).
Qed.

End Interfaces.

Section Announcements.

Context (E : Env).

Local Abbreviation Sim := (FrankaHWSim E).

(** ** The beginning of [initSim] *)

Lemma announced_refl (s : Sim) : announced s s.
Proof. split; [exists []; rewrite app_nil_r; reflexivity | split; reflexivity]. Qed.

Lemma announced_trans (s1 s2 s3 : Sim) :
  announced s1 s2 -> announced s2 s3 -> announced s1 s3.
Proof.
  intros ([l1 H1] & A1 & R1) ([l2 H2] & A2 & R2). split; [|split; congruence].
  exists (l1 ++ l2)%list. rewrite H2, H1, app_assoc. reflexivity.
Qed.

Lemma announced_same (s s' : Sim) :
  (rosout s', arm_id_ s', robot_ s') = (rosout s, arm_id_ s, robot_ s) -> announced s s'.
Proof.
  intros H. injection H as Hl Ha Hr. split; [|split; assumption].
  exists []. rewrite app_nil_r. exact Hl.
Qed.

Lemma announced_log (line : severity * string) (s : Sim) :
  announced s (set_rosout (rosout s ++ [line])%list s).
Proof. split; [exists [line]; reflexivity | split; reflexivity]. Qed.

(** One step of a proof that a computation only adds to the log. *)
Ltac announced_step :=
  lazymatch goal with
  | |- preserves _ (bind _ _ _) =>
      apply (related_bind E announced announced_trans); [|intros ?]
  | |- preserves _ (ret _ _) => apply (related_ret E announced announced_refl)
  | |- preserves _ (throw _ _) => apply (related_throw E announced announced_refl)
  | |- preserves _ (abort _ _) => apply (related_abort E announced announced_refl)
  | |- preserves _ (get _) => apply (related_get E announced announced_refl)
  | |- preserves _ (deref _ _) => apply (related_deref E announced announced_refl)
  | |- preserves _ (lift _ _) => apply (related_lift E announced announced_refl)
  | |- preserves _ (for_each _ _ _) =>
      apply (related_for_each E announced announced_refl announced_trans); intros ?
  | |- preserves _ (for_each_ _ _ _) =>
      apply (related_for_each_ E announced announced_refl announced_trans); intros ?
  | |- preserves _ (catch_invalid_argument _ _ _) =>
      apply (related_catch E announced announced_trans); [|intros ?]
  | |- preserves _ (modify _ _) =>
      apply (related_modify E announced); intros ?;
      first [apply announced_same; reflexivity | apply announced_log]
  | |- preserves _ (match ?x with _ => _ end) => destruct x
  end.

Lemma initSim_after_begin (ns : string) (parent : ModelPtr) (u : option urdf.Model)
    (ts : list TransmissionInfo.t) (r : unit) :
  preserves announced
    (bind E
       (bind E (for_each E ts (collectJoint E parent u)) (fun r =>
          match r with
          | Some b => ret E (Some b)
          | None =>
              bind E (get E) (fun s =>
                bind E (for_each_ E (joints_ s)
                          (fun pair => initJointStateHandle E (snd pair)))
                  (fun _ => ret E None))
          end))
       (fun r =>
          match r with
          | Some b => ret E b
          | None =>
              bind E (for_each E ts (registerCommandInterfaces E u)) (fun r =>
                match r with
                | Some b => ret E b
                | None =>
                    bind E (registerInterface E "eji_") (fun _ =>
                    bind E (registerInterface E "jsi_") (fun _ =>
                    bind E (registerInterface E "fsi_") (fun _ =>
                    bind E (registerInterface E "fmi_") (fun _ => readParameters E))))
                end)
          end)).
Proof.
  unfold collectJoint, initJointStateHandle, registerCommandInterfaces,
    registerCommandInterface, joints_front, initEffortCommandHandle,
    initFrankaStateHandle, initFrankaModelHandle, registerInterface, readParameters,
    assign_threshold, joints_index, readArray_, ROS_LOG, modify_robot_state.
  repeat announced_step.
Qed.

Lemma initSim_begin_run (ns : string) (parent : ModelPtr) (s : Sim) :
  exists s0,
    initSim_begin E ns parent s = (Ret tt, s0) /\
    arm_id_ s0 = param_string E "arm_id" ns /\ robot_ s0 = parent /\
    rosout s0 = (rosout s ++ initSim_begin_lines E ns)%list.
Proof.
  unfold initSim_begin, initSim_begin_lines.
  rewrite bind_unfold. unfold modify at 1. rewrite bind_unfold. unfold get at 1.
  rewrite bind_unfold.
  change (arm_id_ (set_arm_id_ E (param_string E "arm_id" ns) s))
    with (param_string E "arm_id" ns).
  destruct (param_string E "arm_id" ns =? ns); cbn [negb].
  - unfold ret at 1. rewrite bind_unfold. unfold modify at 1.
    eexists. split; [reflexivity|]. repeat split.
  - unfold ROS_LOG at 1, modify at 1. rewrite bind_unfold. unfold modify at 1.
    eexists. split; [reflexivity|]. repeat split.
    cbn. rewrite <- app_assoc. reflexivity.
Qed.

(** However [initSim] ends, and before anything else can stop it, it has set
    the arm identifier from the parameter ["arm_id"] (by default the robot
    namespace) and the Gazebo model, and it has logged, after what the log
    held, the caution when the two names differ and then the physics type;
    what follows only adds to the log. *)
Theorem initSim_announces (ns : string) (parent : ModelPtr) (u : option urdf.Model)
    (ts : list TransmissionInfo.t) (s : Sim) :
  let s' := snd (initSim E ns parent u ts s) in
  arm_id_ s' = param_string E "arm_id" ns /\
  robot_ s' = parent /\
  exists lines, rosout s' = (rosout s ++ initSim_begin_lines E ns ++ lines)%list.
Proof.
  cbv zeta.
  destruct (initSim_begin_run ns parent s) as (s0 & H0 & Ha & Hr & Hl).
  pose proof (initSim_after_begin ns parent u ts tt s0) as Hrest.
  match type of Hrest with
  | forall o s', ?rest s0 = _ -> _ =>
      assert (Heq : initSim E ns parent u ts s = rest s0)
        by (unfold initSim, initSim_joints; rewrite bind_unfold, bind_unfold, H0;
            reflexivity);
      rewrite Heq; destruct (rest s0) as [o s'] eqn:Hrun
  end.
  destruct (Hrest _ _ eq_refl) as ([lines Hlines] & Ha' & Hr'). cbn [snd].
  split; [congruence|]. split; [congruence|].
  exists lines. rewrite Hlines, Hl, app_assoc. reflexivity.
Qed.

End Announcements.

Section Runs.

Context (E : Env).

Local Abbreviation Sim := (FrankaHWSim E).

(** ** A whole cycle *)

(** In a run whose joint map has seven entries and whose model is built,
    every cycle goes through: [readSim] returns, [writeSim] returns after
    it, whatever the time and the period, and the state they leave is again
    a state of the run with seven joints and the model. *)
Theorem running_cycle_goes_through (ns : string) (parent : ModelPtr)
    (u : option urdf.Model) (ts : list TransmissionInfo.t) (s0 s : Sim)
    (t t' : Time) (p p' : ros_Duration) :
  running ns parent u ts s0 s ->
  List.length (joints_ s) = 7%nat -> model_ s <> None ->
  exists s1 s2,
    readSim E t p s = (Ret tt, s1) /\
    writeSim E t' p' s1 = (Ret tt, s2) /\
    running ns parent u ts s0 s2 /\
    List.length (joints_ s2) = 7%nat /\ model_ s2 <> None.
Proof.
  intros Hrun Hlen Hm.
  assert (Hsize : forall a b : Sim,
            configuration b = configuration a ->
            List.length (joints_ a) = 7%nat -> model_ a <> None ->
            List.length (joints_ b) = 7%nat /\ model_ b <> None).
  { intros a b Hc Ha Hma. unfold configuration in Hc.
    injection Hc as _ _ Hk Hmod _ _ _ _ _.
    split; [|congruence].
    rewrite <- Ha. unfold keys in Hk.
    rewrite <- (length_map fst (joints_ b)), <- (length_map fst (joints_ a)), Hk.
    reflexivity. }
  destruct (readSim_runs E t p s Hlen (running_arm_joints E _ _ _ _ _ _ Hrun) Hm)
    as [s1 H1].
  assert (Hstep1 : cycle_step s s1) by exact (step_readSim t p s s1 H1).
  assert (Hrun1 : running ns parent u ts s0 s1)
    by exact (running_step _ _ _ _ _ s s1 Hrun Hstep1).
  destruct (Hsize s s1 (proj1 (cycle_step_keeps E _ _ Hstep1)) Hlen Hm) as [Hlen1 Hm1].
  destruct (writeSim_runs E t' p' s1 Hlen1 (running_arm_joints E _ _ _ _ _ _ Hrun1) Hm1)
    as [s2 H2].
  assert (Hstep2 : cycle_step s1 s2) by exact (step_writeSim t' p' s1 s2 H2).
  destruct (Hsize s1 s2 (proj1 (cycle_step_keeps E _ _ Hstep2)) Hlen1 Hm1) as [Hlen2 Hm2].
  exists s1, s2. repeat split; try assumption.
  exact (running_step _ _ _ _ _ s1 s2 Hrun1 Hstep2).
Qed.

End Runs.

(** * The properties of whole cycles on the Panda description *)

Lemma effective_command_joint_name_witness :
  effective_command "panda" [0.5; 1; 1.5; 2; 2.5; 3; 3.5]%float (joint_name "panda" 2) 4%float
    = Ret (4 + 1.5)%float.
Proof.
  apply (proj2 (effective_command_joint_name "panda" [0.5; 1; 1.5; 2; 2.5; 3; 3.5]%float
                  4%float 2 ltac:(vm_compute; reflexivity))).
Defined.

Lemma updateRobotState_measured_arrays_witness :
  let s := Panda.commanded "panda_joint3" 19%float Panda.ready in
  let s' := snd (updateRobotState Panda.env 0%Z s) in
  exists js,
    Forall2 (fun i j => map_find (joint_name (arm_id_ s) i) (joints_ s) = Some (Some j))
      (seq 0 7) js /\
    measured_arrays (robot_state_ s') = map (fun f => map f js) measured_fields.
Proof.
  intros s s'.
  apply (updateRobotState_measured_arrays Panda.env 0%Z s s').
  - refine (run_eq (updateRobotState Panda.env 0%Z s) (Ret tt) _).
    vm_compute; reflexivity.
  - vm_compute. repeat constructor.
Defined.

Lemma updateRobotState_pose_witness :
  let s := Panda.ready in
  let s' := snd (updateRobotState Panda.env 1500000%Z s) in
  control_command_success_rate (robot_state_ s') = 1%float /\
  time (robot_state_ s') = franka_Duration 1500000%Z /\
  exists m,
    model_ s = Some m /\
    O_T_EE (robot_state_ s')
      = pose_kEndEffector Panda.env m
          (set_O_T_EE (O_T_EE (robot_state_ s)) (robot_state_ s')).
Proof.
  intros s s'.
  apply (updateRobotState_pose Panda.env 1500000%Z s s').
  refine (run_eq (updateRobotState Panda.env 1500000%Z s) (Ret tt) _).
  vm_compute; reflexivity.
Defined.

Lemma writeSim_returns_after_updateRobotState_witness :
  let s := Panda.commanded "panda_joint1" nan Panda.ready in
  let s' := snd (updateRobotState Panda.env 0%Z s) in
  exists s'', writeSim Panda.env 1000000%Z 1000000%Z s' = (Ret tt, s'').
Proof.
  intros s s'.
  apply (writeSim_returns_after_updateRobotState Panda.env 0%Z 1000000%Z 1000000%Z s s').
  refine (run_eq (updateRobotState Panda.env 0%Z s) (Ret tt) _).
  vm_compute; reflexivity.
Defined.

Lemma readSim_refreshes_then_synthesizes_witness :
  let s := Panda.commanded "panda_joint3" 19%float Panda.ready in
  let s' := snd (readSim Panda.env 0%Z 1000000%Z s) in
  joints_ s' = map (refreshed (Joint_update Panda.env 1000000%Z)) (joints_ s) /\
  updateRobotState Panda.env 0%Z
    (set_joints_ (map (refreshed (Joint_update Panda.env 1000000%Z)) (joints_ s)) s)
    = (Ret tt, s').
Proof.
  intros s s'.
  apply (readSim_refreshes_then_synthesizes Panda.env 0%Z 1000000%Z s s').
  refine (run_eq (readSim Panda.env 0%Z 1000000%Z s) (Ret tt) _).
  vm_compute; reflexivity.
Defined.

(** A freshly constructed object has no joints: the assertion fails. *)
Lemma readSim_failures_witness :
  failure (fst (readSim Panda.env 0%Z 1000000%Z Panda.new)) = Some (inr assertion_failed) /\
  leaves_readSim (inr assertion_failed).
Proof.
  assert (H : failure (fst (readSim Panda.env 0%Z 1000000%Z Panda.new))
              = Some (inr assertion_failed)) by (vm_compute; reflexivity).
  split; [exact H|].
  exact (readSim_failures Panda.env 0%Z 1000000%Z Panda.new (inr assertion_failed) H).
Defined.

(** Without a URDF, the state transmission alone makes initialisation
    dereference the null pointer. *)
Lemma initSim_failures_witness :
  let ts := [Panda.state_transmission Panda.arm_joint_names] in
  failure (fst (initSim Panda.env "panda" gz None ts Panda.new))
    = Some (inr null_dereference) /\
  leaves_initSim (inr null_dereference).
Proof.
  intros ts.
  assert (H : failure (fst (initSim Panda.env "panda" gz None ts Panda.new))
              = Some (inr null_dereference)) by (vm_compute; reflexivity).
  split; [exact H|].
  exact (initSim_failures Panda.env "panda" gz None ts Panda.new (inr null_dereference) H).
Defined.

Lemma initSim_refusal_explained_witness :
  let ts := List.app Panda.transmissions [Panda.gripper_transmission] in
  let s' := snd (initSim Panda.env "panda" gz (Some description) ts Panda.new) in
  exists lines sev msg,
    rosout s' = (lines ++ [(sev, msg)])%list /\ (sev = Warn \/ sev = Error).
Proof.
  intros ts s'.
  apply (initSim_refusal_explained Panda.env "panda" gz (Some description) ts Panda.new s').
  refine (run_eq (initSim Panda.env "panda" gz (Some description) ts Panda.new)
            (Ret false) _).
  vm_compute; reflexivity.
Defined.

Lemma initSim_assigns_thresholds_witness :
  exists j,
    map_find (joint_name (arm_id_ Panda.ready) 4) (joints_ Panda.ready) = Some (Some j) /\
    nth_error (getCollisionThresholds Panda.env "lower_torque_thresholds_nominal"
                 nominal_thresholds) 4 = Some (contact_threshold j) /\
    nth_error (getCollisionThresholds Panda.env "upper_torque_thresholds_nominal"
                 nominal_thresholds) 4 = Some (collision_threshold j).
Proof.
  apply (initSim_assigns_thresholds Panda.env "panda" gz (Some description)
           Panda.transmissions Panda.new Panda.ready 4).
  - refine (run_eq (Panda.init gz description Panda.transmissions) (Ret true) _).
    vm_compute; reflexivity.
  - lia.
Defined.

(** The tip joint [panda_joint8] comes first and is declared; the root role
    is on [panda_joint0], listed second, which the URDF does not declare. *)
Lemma initFrankaModelHandle_null_dereference_witness :
  let t := Panda.model_transmission [("panda_joint8", "tip"); ("panda_joint0", "root")] in
  initFrankaModelHandle Panda.env "panda" description t Panda.ready
    = (Fault null_dereference, Panda.ready).
Proof.
  intros t.
  apply (initFrankaModelHandle_null_dereference Panda.env "panda" description t Panda.ready
           (JointInfo.mk "panda_joint8" [FrankaModelInterface] "tip")
           (JointInfo.mk "panda_joint0" [FrankaModelInterface] "root")
           (JointInfo.mk "panda_joint0" [FrankaModelInterface] "root")
           (JointInfo.mk "panda_joint8" [FrankaModelInterface] "tip")).
  - reflexivity.
  - vm_compute; reflexivity.
  - vm_compute; reflexivity.
  - vm_compute; reflexivity.
  - left. vm_compute; reflexivity.
Defined.

Lemma initFrankaModelHandle_builds_model_witness :
  let t := Panda.model_transmission [("panda_joint1", "root"); ("panda_joint8", "tip")] in
  exists handles,
    initFrankaModelHandle Panda.env "panda" description t Panda.new
      = (Ret tt,
         set_fmi_ Panda.env (fmi_ Panda.new ++ handles)%list
           (set_model_ Panda.env (Some Panda.model) Panda.new)) /\
    In "panda_model" handles.
Proof.
  intros t.
  apply (initFrankaModelHandle_builds_model Panda.env "panda" description t Panda.new
           (JointInfo.mk "panda_joint1" [FrankaModelInterface] "root")
           (JointInfo.mk "panda_joint8" [FrankaModelInterface] "tip")
           (JointInfo.mk "panda_joint1" [FrankaModelInterface] "root")
           (JointInfo.mk "panda_joint8" [FrankaModelInterface] "tip")
           (urdf.mkJoint 1 (0, 0, 1)%float "panda_link0" "panda_link1")
           (urdf.mkJoint 1 (0, 0, 1)%float "panda_link7" "panda_link8")).
  - reflexivity.
  - vm_compute; reflexivity.
  - vm_compute; reflexivity.
  - vm_compute; reflexivity.
  - vm_compute; reflexivity.
  - vm_compute; reflexivity.
  - vm_compute; reflexivity.
  - reflexivity.
Defined.

Lemma cycle_step_keeps_configuration_witness :
  let s := Panda.ready in
  let s' := set_joints_
              (map_store "panda_joint2" (set_command 4 (Panda.joint_of "panda_joint2" s))
                 (joints_ s)) s in
  configuration s' = configuration s.
Proof.
  intros s s'.
  apply (cycle_step_keeps_configuration Panda.env s s').
  apply (step_command "panda_joint2" 4%float (Panda.joint_of "panda_joint2" s) s).
  - vm_compute. right; left; reflexivity.
  - vm_compute; reflexivity.
Defined.

Lemma running_updateRobotState_iff_witness :
  (exists s', updateRobotState Panda.env 0%Z Panda.ready = (Ret tt, s'))
  <-> List.length (joints_ Panda.ready) = 7%nat /\ model_ Panda.ready <> None.
Proof.
  apply (running_updateRobotState_iff Panda.env "panda" gz (Some description)
           Panda.transmissions Panda.new Panda.ready 0%Z).
  apply running_init.
  refine (run_eq (Panda.init gz description Panda.transmissions) (Ret true) _).
  vm_compute; reflexivity.
Defined.

Lemma initSim_reads_calibration_witness :
  m_ee (robot_state_ Panda.ready) = param_double Panda.env "m_ee" 0.73 /\
  m_load (robot_state_ Panda.ready) = param_double Panda.env "m_load" 0 /\
  forall p, In p calibration_parameters ->
    read_parameter Panda.env p = inr (snd p (robot_state_ Panda.ready)).
Proof.
  apply (initSim_reads_calibration Panda.env "panda" gz (Some description)
           Panda.transmissions Panda.new Panda.ready).
  refine (run_eq (Panda.init gz description Panda.transmissions) (Ret true) _).
  vm_compute; reflexivity.
Defined.

Lemma initSim_collects_joints_witness :
  exists joint0 j um uj,
    TransmissionInfo.joints_ (Panda.effort_transmission "panda_joint3") = [joint0] /\
    map_find (JointInfo.name_ joint0) (joints_ Panda.ready) = Some (Some j) /\
    Some description = Some um /\
    urdf.getJoint um (JointInfo.name_ joint0) = Some uj /\
    name j = JointInfo.name_ joint0 /\ type j = urdf.type uj /\ axis j = urdf.axis uj /\
    GetJoint gz (JointInfo.name_ joint0) = Some (handle j) /\
    In (name j) (jsi_ Panda.ready).
Proof.
  apply (initSim_collects_joints Panda.env "panda" gz (Some description)
           Panda.transmissions Panda.new Panda.ready
           (Panda.effort_transmission "panda_joint3")).
  - refine (run_eq (Panda.init gz description Panda.transmissions) (Ret true) _).
    vm_compute; reflexivity.
  - reflexivity.
  - vm_compute. right; right; left; reflexivity.
  - reflexivity.
Defined.

Lemma initSim_registers_effort_handles_witness :
  exists joint0,
    TransmissionInfo.joints_ (Panda.effort_transmission "panda_joint6") = [joint0] /\
    (In EffortJointInterface (JointInfo.hardware_interfaces_ joint0) ->
     In (JointInfo.name_ joint0) (eji_ Panda.ready)).
Proof.
  apply (initSim_registers_effort_handles Panda.env "panda" gz (Some description)
           Panda.transmissions Panda.new Panda.ready
           (Panda.effort_transmission "panda_joint6")).
  - refine (run_eq (Panda.init gz description Panda.transmissions) (Ret true) _).
    vm_compute; reflexivity.
  - reflexivity.
  - vm_compute. do 5 right; left; reflexivity.
  - reflexivity.
Defined.

Lemma initSim_registers_franka_handles_witness :
  let t := Panda.state_transmission Panda.arm_joint_names in
  let s' := Panda.ready in
  arm_id_ s' = param_string Panda.env "arm_id" "panda" /\
  (TransmissionInfo.type_ t = FrankaStateInterface ->
   In (arm_id_ s' ++ "_robot") (fsi_ s') /\
   exists um,
     Some description = Some um /\ List.length (TransmissionInfo.joints_ t) = 7%nat /\
     forallb (in_urdf um) (TransmissionInfo.joints_ t) = true) /\
  (TransmissionInfo.type_ t = FrankaModelInterface ->
   model_ s' <> None /\ In (arm_id_ s' ++ "_model") (fmi_ s')).
Proof.
  intros t s'.
  apply (initSim_registers_franka_handles Panda.env "panda" gz (Some description)
           Panda.transmissions Panda.new s' t).
  - refine (run_eq (Panda.init gz description Panda.transmissions) (Ret true) _).
    vm_compute; reflexivity.
  - vm_compute. do 7 right; left; reflexivity.
  - intros joint0 Hhd. vm_compute in Hhd. injection Hhd as <-. discriminate.
Defined.

Lemma initSim_model_needs_transmission_witness :
  let ts := map Panda.effort_transmission Panda.arm_joint_names in
  model_ (snd (initSim Panda.env "panda" gz (Some description) ts Panda.new))
  = model_ Panda.new.
Proof.
  intros ts.
  apply (initSim_model_needs_transmission Panda.env "panda" gz (Some description) ts
           Panda.new).
  intros t Hin. apply in_map_iff in Hin. destruct Hin as (j & <- & _). discriminate.
Defined.

Lemma running_cycle_goes_through_witness :
  exists s1 s2,
    readSim Panda.env 1000000%Z 1000000%Z Panda.ready = (Ret tt, s1) /\
    writeSim Panda.env 1000000%Z 1000000%Z s1 = (Ret tt, s2) /\
    running "panda" gz (Some description) Panda.transmissions Panda.new s2 /\
    List.length (joints_ s2) = 7%nat /\ model_ s2 <> None.
Proof.
  apply (running_cycle_goes_through Panda.env "panda" gz (Some description)
           Panda.transmissions Panda.new Panda.ready).
  - apply running_init.
    refine (run_eq (Panda.init gz description Panda.transmissions) (Ret true) _).
    vm_compute; reflexivity.
  - vm_compute; reflexivity.
  - vm_compute; discriminate.
Defined.
